(** * MIO: the memory-backed stream of mio.c

    A shallow embedding of the [MIO_TYPE_MEMORY] case of the functions of
    mio.c that work on a stream, and the properties of the memory stream
    proved on it.

    Conventions of the embedding:
    - the target is an LP64 machine: [gsize] and [glong] are 64 bits wide,
      [gint] and [guint] 32 bits, [guchar] and [gchar] 8 bits.  Integers are
      [Z]; every unsigned operation of the source is followed by its
      wrap-around ([to_gsize], [to_guint]);
    - a block of memory is the list of the bytes it holds; a load, a store or
      a [memcpy] outside of the block is undefined behaviour, which the
      embedding reports as [None];
    - the functions mutate [*mio] and [errno]: they are written in a state
      monad over the pair of both, with [None] for undefined behaviour;
    - the [MIO_TYPE_FILE] case of every function only forwards to stdio and
      is not modelled, nor are [mio_new_file] and [mio_new_fp], which build
      such streams, and [mio_free], after which there is no stream;
      [MIO_DEBUG] is taken as not defined. *)

From Stdlib Require Import ZArith List Bool Lia.
Import ListNotations.
Local Open Scope Z_scope.

(** ** Machine integers *)

Definition gsize_modulus : Z := 18446744073709551616.
Definition G_MAXSIZE : Z := 18446744073709551615.
Definition guint_modulus : Z := 4294967296.

Definition to_gsize (z : Z) : Z := z mod gsize_modulus.
Definition to_guint (z : Z) : Z := z mod guint_modulus.
Definition to_guchar (z : Z) : Z := z mod 256.

(** Conversion to the signed type with [modulus] values (two's complement). *)
Definition to_signed (modulus : Z) (z : Z) : Z :=
  let r := z mod modulus in
  if r <? modulus / 2 then r else r - modulus.

Definition to_gchar (z : Z) : Z := to_signed 256 z.
Definition to_glong (z : Z) : Z := to_signed gsize_modulus z.

Definition is_gsize (z : Z) : Prop := 0 <= z <= G_MAXSIZE.
Definition is_glong (z : Z) : Prop :=
  - 9223372036854775808 <= z <= 9223372036854775807.

(** stdio.h and mio.c constants. *)
Definition EOF : Z := -1.
Definition SEEK_SET : Z := 0.
Definition SEEK_CUR : Z := 1.
Definition SEEK_END : Z := 2.

(** minimal reallocation chunk size *)
Definition MIO_CHUNK_SIZE : Z := 4096.

(** The values [errno] takes in mio.c; [ENONE] stands for any other value. *)
Inductive errno_t : Type := ENONE | EINVAL | EOVERFLOW | EIO.

(** ** Memory blocks *)

Definition block := list Z.

Definition blen (b : block) : Z := Z.of_nat (length b).

(** [in_bounds b off n]: the [n] bytes at offset [off] lie inside [b]. *)
Definition in_bounds (b : block) (off n : Z) : bool :=
  (0 <=? off) && (0 <=? n) && (off + n <=? blen b).

(** [b[i]] as an rvalue. *)
Definition load (b : block) (i : Z) : option Z :=
  if in_bounds b i 1 then nth_error b (Z.to_nat i) else None.

(** The [len] bytes found at [&b[off]]. *)
Definition mem_read (b : block) (off len : Z) : option (list Z) :=
  if in_bounds b off len
  then Some (firstn (Z.to_nat len) (skipn (Z.to_nat off) b))
  else None.

(** [b] after [data] has been stored at [&b[off]]. *)
Definition mem_write (b : block) (off : Z) (data : list Z) : option block :=
  if in_bounds b off (blen data)
  then Some (firstn (Z.to_nat off) b ++ data
             ++ skipn (Z.to_nat off + length data) b)
  else None.

(** [b[i] = v]. *)
Definition store (b : block) (i : Z) (v : Z) : option block :=
  mem_write b i [v].

(** [memcpy (&dst[doff], &src[soff], n)], as the new contents of [dst]. *)
Definition memcpy (dst : block) (doff : Z) (src : block) (soff n : Z)
  : option block :=
  match mem_read src soff n with
  | Some data => mem_write dst doff data
  | None => None
  end.

(** ** The stream *)

(** A [MIOReallocFunc] gets the block and the size wanted and returns the
    new block, or [None] for [NULL]. *)
Definition MIOReallocFunc := block -> Z -> option block.
Definition GDestroyNotify := block -> unit.

Inductive MIOType : Type := MIO_TYPE_FILE | MIO_TYPE_MEMORY.

(** Modelled from the spec: the declaration of [struct _MIO] is in mio.h,
    which is not among the sources.  The record has the fields of
    [mio->impl.mem] that mio.c reads and writes (the spec's MemoryStream:
    buffer, length, capacity, position, pushback, eof, error, and the two
    callbacks), with the types mio.c uses them at: [pos], [size] and
    [allocated_size] are [gsize], [ungetch] is a [gint], [eof] and [error]
    are [gboolean].  A [NULL] buffer is the empty block. *)
Module mem.

Record t : Type := mk {
  buf : block;
  ungetch : Z;
  pos : Z;
  size : Z;
  allocated_size : Z;
  realloc_func : option MIOReallocFunc;
  free_func : option GDestroyNotify;
  eof : bool;
  error : bool
}.

Definition set_buf (v : block) (m : t) : t :=
  mk v (ungetch m) (pos m) (size m) (allocated_size m)
     (realloc_func m) (free_func m) (eof m) (error m).
Definition set_ungetch (v : Z) (m : t) : t :=
  mk (buf m) v (pos m) (size m) (allocated_size m)
     (realloc_func m) (free_func m) (eof m) (error m).
Definition set_pos (v : Z) (m : t) : t :=
  mk (buf m) (ungetch m) v (size m) (allocated_size m)
     (realloc_func m) (free_func m) (eof m) (error m).
Definition set_size (v : Z) (m : t) : t :=
  mk (buf m) (ungetch m) (pos m) v (allocated_size m)
     (realloc_func m) (free_func m) (eof m) (error m).
Definition set_allocated_size (v : Z) (m : t) : t :=
  mk (buf m) (ungetch m) (pos m) (size m) v
     (realloc_func m) (free_func m) (eof m) (error m).
Definition set_eof (v : bool) (m : t) : t :=
  mk (buf m) (ungetch m) (pos m) (size m) (allocated_size m)
     (realloc_func m) (free_func m) v (error m).
Definition set_error (v : bool) (m : t) : t :=
  mk (buf m) (ungetch m) (pos m) (size m) (allocated_size m)
     (realloc_func m) (free_func m) (eof m) v.

End mem.

Definition MIO := mem.t.

(** Modelled from the spec: [MIOPos] is declared in mio.h; mio.c uses its
    [type] tag and, for a memory stream, [impl.mem], a [gsize]. *)
Record MIOPos : Type := mkMIOPos {
  pos_type : MIOType;
  pos_mem : Z
}.

(** ** The state monad of the functions

    What a function of mio.c can change: the stream it is given and
    [errno]. *)
Record world : Type := mkWorld {
  mio : MIO;
  errno : errno_t
}.

Definition M (A : Type) : Type := world -> option (A * world).

Definition ret {A} (a : A) : M A := fun w => Some (a, w).

Definition bind {A B} (c : M A) (k : A -> M B) : M B :=
  fun w => match c w with
           | Some (a, w') => k a w'
           | None => None
           end.

(** The current value of [*mio]. *)
Definition get : M MIO := fun w => Some (mio w, w).

(** An assignment to fields of [*mio]. *)
Definition assign (f : MIO -> MIO) : M unit :=
  fun w => Some (tt, mkWorld (f (mio w)) (errno w)).

Definition set_errno (e : errno_t) : M unit :=
  fun w => Some (tt, mkWorld (mio w) e).

(** A memory access; [None] is undefined behaviour. *)
Definition access {A} (o : option A) : M A :=
  fun w => match o with
           | Some a => Some (a, w)
           | None => None
           end.

Declare Scope mio_scope.
Delimit Scope mio_scope with mio.
Notation "x <- c ;; k" := (bind c (fun x => k))
  (at level 61, c at next level, right associativity) : mio_scope.
Notation "' pat <- c ;; k" := (bind c (fun x => match x with pat => k end))
  (at level 61, pat pattern, c at next level, right associativity) : mio_scope.
Notation "c ;; k" := (bind c (fun _ => k))
  (at level 61, right associativity) : mio_scope.
Local Open Scope mio_scope.

(** ** mio.c *)

(** [mio_new_memory]; the allocation of the [MIO] itself is taken to
    succeed. *)
Definition mio_new_memory (data : block) (size : Z)
    (realloc_func : option MIOReallocFunc)
    (free_func : option GDestroyNotify) : MIO :=
  {| mem.buf := data;
     mem.ungetch := EOF;
     mem.pos := 0;
     mem.size := size;
     mem.allocated_size := size;
     mem.realloc_func := realloc_func;
     mem.free_func := free_func;
     mem.eof := false;
     mem.error := false |}.

Definition try_resize (new_size : Z) : M bool :=
  m <- get ;;
  match mem.realloc_func m with
  | None => ret false
  | Some realloc =>
    if new_size =? G_MAXSIZE then
      set_errno EOVERFLOW ;; ret false
    else if new_size >? mem.size m then
      if new_size <=? mem.allocated_size m then
        assign (mem.set_size new_size) ;;
        ret true
      else
        let newsize :=
          Z.max (to_gsize (mem.allocated_size m + MIO_CHUNK_SIZE)) new_size in
        match realloc (mem.buf m) newsize with
        | Some newbuf =>
          assign (mem.set_buf newbuf) ;;
          assign (mem.set_allocated_size newsize) ;;
          assign (mem.set_size new_size) ;;
          ret true
        | None => ret false
        end
    else
      match realloc (mem.buf m) new_size with
      | Some newbuf =>
        assign (mem.set_buf newbuf) ;;
        assign (mem.set_allocated_size new_size) ;;
        assign (mem.set_size new_size) ;;
        ret true
      | None =>
        if new_size =? 0 then
          assign (mem.set_buf []) ;;
          assign (mem.set_allocated_size new_size) ;;
          assign (mem.set_size new_size) ;;
          ret true
        else ret false
      end
  end.

Definition try_ensure_space (n : Z) : M bool :=
  m <- get ;;
  if to_gsize (mem.pos m + n) >? mem.size m then
    try_resize (to_gsize (mem.pos m + n))
  else ret true.

(** [mio_write]: [ptr] is the block the caller passes. *)
Definition mio_write (ptr : block) (size nmemb : Z) : M Z :=
  if negb (size =? 0) && negb (nmemb =? 0) then
    ok <- try_ensure_space (to_gsize (size * nmemb)) ;;
    if (ok : bool) then
      m <- get ;;
      b <- access (memcpy (mem.buf m) (mem.pos m) ptr 0
                          (to_gsize (size * nmemb))) ;;
      assign (mem.set_buf b) ;;
      assign (mem.set_pos (to_gsize (mem.pos m + to_gsize (size * nmemb)))) ;;
      ret nmemb
    else ret 0
  else ret 0.

(** The [for] loop of [mio_read]: [fuel] is [nmemb - n_read], the number of
    times its test can still hold.  [n_read] stays below [nmemb], so
    [n_read++] cannot wrap around. *)
Fixpoint read_records (fuel : nat) (size : Z) (n_read : Z) (ptr : block)
  : M (Z * block) :=
  match fuel with
  | O => ret (n_read, ptr)
  | S fuel' =>
    m <- get ;;
    if to_gsize (mem.pos m + size) >? mem.size m then
      ret (n_read, ptr)
    else
      p <- access (memcpy ptr (to_gsize (n_read * size))
                          (mem.buf m) (mem.pos m) size) ;;
      assign (mem.set_pos (to_gsize (mem.pos m + size))) ;;
      read_records fuel' size (n_read + 1) p
  end.

(** [mio_read]: [ptr] is the caller's block, returned with what the call
    stored in it. *)
Definition mio_read (ptr : block) (size nmemb : Z) : M (Z * block) :=
  if negb (size =? 0) && negb (nmemb =? 0) then
    m <- get ;;
    '(n_read, ptr1) <-
      (if negb (mem.ungetch m =? EOF) then
         p <- access (store ptr 0 (to_guchar (mem.ungetch m))) ;;
         assign (mem.set_ungetch EOF) ;;
         assign (mem.set_pos (to_gsize (mem.pos m + 1))) ;;
         m1 <- get ;;
         if size =? 1 then
           ret (1, p)
         else if to_gsize (mem.pos m1 + (size - 1)) <=? mem.size m1 then
           p' <- access (memcpy p 1 (mem.buf m1) (mem.pos m1) (size - 1)) ;;
           assign (mem.set_pos (to_gsize (mem.pos m1 + (size - 1)))) ;;
           ret (1, p')
         else ret (0, p)
       else ret (0, ptr)) ;;
    '(n_read', ptr2) <-
      read_records (Z.to_nat (nmemb - n_read)) size n_read ptr1 ;;
    m2 <- get ;;
    (if mem.pos m2 >=? mem.size m2 then assign (mem.set_eof true)
     else ret tt) ;;
    ret (n_read', ptr2)
  else ret (0, ptr).

Definition mio_putc (c : Z) : M Z :=
  ok <- try_ensure_space 1 ;;
  if (ok : bool) then
    m <- get ;;
    b <- access (store (mem.buf m) (mem.pos m) (to_guchar c)) ;;
    assign (mem.set_buf b) ;;
    assign (mem.set_pos (to_gsize (mem.pos m + 1))) ;;
    ret (to_guchar c)
  else ret EOF.

(** [mio_puts]: [s] holds the characters of the string before its
    terminator, so that [strlen (s)] is its length. *)
Definition mio_puts (s : list Z) : M Z :=
  let len := blen s in
  ok <- try_ensure_space len ;;
  if (ok : bool) then
    m <- get ;;
    b <- access (memcpy (mem.buf m) (mem.pos m) s 0 len) ;;
    assign (mem.set_buf b) ;;
    assign (mem.set_pos (to_gsize (mem.pos m + len))) ;;
    ret 1
  else ret EOF.

(** What a call [vsnprintf (str, size, format, ap)] does: the bytes it
    stores at [str] and the value it returns. *)
Record vsnprintf_result : Type := mkVs {
  vs_stored : list Z;
  vs_rv : Z
}.

(** A format with its arguments, as the behaviour of [vsnprintf] on them
    for every [size]. *)
Definition format_args := Z -> vsnprintf_result.

(** [vsnprintf] of C99 on a format and arguments that expand to [text]. *)
Definition vsnprintf_text (text : list Z) : format_args :=
  fun size =>
    {| vs_stored := if size <=? 0 then []
                    else firstn (Z.to_nat (size - 1)) text ++ [0];
       vs_rv := blen text |}.

(** [mio_vprintf]: [ap_copy] is what the first [vsnprintf] sees, [ap] what
    the second one sees. *)
Definition mio_vprintf (ap_copy ap : format_args) : M Z :=
  m0 <- get ;;
  let old_pos := mem.pos m0 in
  let old_size := mem.size m0 in
  (* compute the size we will need into the buffer *)
  let dry := ap_copy 1 in
  _ <- access (mem_write [0] 0 (vs_stored dry)) ;;
  let n := vs_rv dry in
  if n >=? 0 then
    ok <- try_ensure_space (to_guint (to_guint n + 1)) ;;
    if (ok : bool) then
      m <- get ;;
      (* backup character at n+1 that will be overwritten by a \0 ... *)
      c <- access (load (mem.buf m) (to_gsize (mem.pos m + to_guint n))) ;;
      let real := ap (to_guint (to_guint n + 1)) in
      _ <- access (if blen (vs_stored real) <=? to_guint (to_guint n + 1)
                   then Some tt else None) ;;
      b <- access (mem_write (mem.buf m) (mem.pos m) (vs_stored real)) ;;
      let rv := vs_rv real in
      (* ...and restore it *)
      b' <- access (store b (to_gsize (mem.pos m + to_guint n)) c) ;;
      assign (mem.set_buf b') ;;
      if (rv >=? 0) && (rv =? n) then
        assign (mem.set_size
                  (Z.max old_size (to_gsize (old_pos + to_guint rv)))) ;;
        assign (mem.set_pos (to_gsize (mem.pos m + to_guint rv))) ;;
        ret rv
      else
        assign (mem.set_size old_size) ;;
        ret (-1)
    else ret (-1)
  else ret (-1).

Definition mio_printf (ap_copy ap : format_args) : M Z :=
  mio_vprintf ap_copy ap.

Definition mio_getc : M Z :=
  m <- get ;;
  if negb (mem.ungetch m =? EOF) then
    assign (mem.set_ungetch EOF) ;;
    assign (mem.set_pos (to_gsize (mem.pos m + 1))) ;;
    ret (mem.ungetch m)
  else if mem.pos m <? mem.size m then
    c <- access (load (mem.buf m) (mem.pos m)) ;;
    assign (mem.set_pos (to_gsize (mem.pos m + 1))) ;;
    ret c
  else
    assign (mem.set_eof true) ;;
    ret EOF.

Definition mio_ungetc (ch : Z) : M Z :=
  m <- get ;;
  if negb (ch =? EOF) && (mem.ungetch m =? EOF) then
    assign (mem.set_ungetch ch) ;;
    assign (mem.set_pos (to_gsize (mem.pos m - 1))) ;;
    assign (mem.set_eof false) ;;
    ret ch
  else ret EOF.

(** The [for] loop of [mio_gets]: [fuel] is [size - 1 - i], the number of
    times [i < size - 1] can still hold.  [i] stays below [size], so [i++]
    cannot wrap around. *)
Fixpoint gets_chars (fuel : nat) (size : Z) (i : Z) (s : block)
  : M (Z * block) :=
  match fuel with
  | O => ret (i, s)
  | S fuel' =>
    m <- get ;;
    if (mem.pos m <? mem.size m) && (i <? size - 1) then
      c <- access (load (mem.buf m) (mem.pos m)) ;;
      s' <- access (store s i (to_gchar c)) ;;
      assign (mem.set_pos (to_gsize (mem.pos m + 1))) ;;
      if to_gchar c =? 10 then ret (i + 1, s')
      else gets_chars fuel' size (i + 1) s'
    else ret (i, s)
  end.

(** [mio_gets]: [s] is the caller's block; the result is [true] with the
    block as the call leaves it when the call returns [s], and [false] when
    it returns [NULL]. *)
Definition mio_gets (s : block) (size : Z) : M (bool * block) :=
  if size >? 0 then
    m <- get ;;
    '(i0, s0) <-
      (if negb (mem.ungetch m =? EOF) then
         s' <- access (store s 0 (to_gchar (mem.ungetch m))) ;;
         assign (mem.set_ungetch EOF) ;;
         assign (mem.set_pos (to_gsize (mem.pos m + 1))) ;;
         ret (1, s')
       else ret (0, s)) ;;
    '(i, s1) <- gets_chars (Z.to_nat (size - 1 - i0)) size i0 s0 ;;
    '(rv, s2) <-
      (if i >? 0 then
         s' <- access (store s1 i 0) ;;
         ret (true, s')
       else ret (false, s1)) ;;
    m2 <- get ;;
    (if mem.pos m2 >=? mem.size m2 then assign (mem.set_eof true)
     else ret tt) ;;
    ret (rv, s2)
  else ret (false, s).

Definition mio_clearerr : M unit :=
  assign (mem.set_error false) ;;
  assign (mem.set_eof false).

Definition mio_eof : M Z :=
  m <- get ;;
  ret (if mem.eof m then 1 else 0).

Definition mio_error : M Z :=
  m <- get ;;
  ret (if mem.error m then 1 else 0).

(** [mio_seek].  [(gsize)-offset] is [to_gsize (- offset)]; for the least
    [glong], whose negation overflows, this is the value two's complement
    gives. *)
Definition mio_seek (offset whence : Z) : M Z :=
  m <- get ;;
  rv <-
    (if whence =? SEEK_SET then
       if (offset <? 0) || (to_gsize offset >? mem.size m) then
         set_errno EINVAL ;; ret (-1)
       else
         assign (mem.set_pos (to_gsize offset)) ;; ret 0
     else if whence =? SEEK_CUR then
       if ((offset <? 0) && (to_gsize (- offset) >? mem.pos m))
          || (to_gsize (mem.pos m + offset) >? mem.size m) then
         set_errno EINVAL ;; ret (-1)
       else
         assign (mem.set_pos (to_gsize (mem.pos m + offset))) ;; ret 0
     else if whence =? SEEK_END then
       if (offset >? 0) || (to_gsize (- offset) >? mem.size m) then
         set_errno EINVAL ;; ret (-1)
       else
         assign (mem.set_pos (to_gsize (mem.size m - to_gsize (- offset)))) ;;
         ret 0
     else
       set_errno EINVAL ;; ret (-1)) ;;
  (if rv =? 0 then
     assign (mem.set_eof false) ;;
     assign (mem.set_ungetch EOF)
   else ret tt) ;;
  ret rv.

Definition mio_tell : M Z :=
  m <- get ;;
  ret (to_glong (mem.pos m)).

Definition mio_rewind : M unit :=
  assign (mem.set_pos 0) ;;
  assign (mem.set_ungetch EOF) ;;
  assign (mem.set_eof false) ;;
  assign (mem.set_error false).

(** [mio_getpos]: [p] is [*pos] before the call, the result has [*pos]
    after it. *)
Definition mio_getpos (p : MIOPos) : M (Z * MIOPos) :=
  let p1 := mkMIOPos MIO_TYPE_MEMORY (pos_mem p) in
  m <- get ;;
  if mem.pos m =? to_gsize (-1) then
    (* this happens if ungetc() was called at the start of the stream *)
    set_errno EIO ;; ret (-1, p1)
  else
    ret (0, mkMIOPos (pos_type p1) (mem.pos m)).

Definition mio_setpos (p : MIOPos) : M Z :=
  m <- get ;;
  if pos_mem p >? mem.size m then
    set_errno EINVAL ;; ret (-1)
  else
    assign (mem.set_ungetch EOF) ;;
    assign (mem.set_pos (pos_mem p)) ;;
    ret 0.

(** ** Sequences of operations *)

(** A call of one function of the interface, with its arguments. *)
Inductive op : Type :=
| OpRead (ptr : block) (size nmemb : Z)
| OpWrite (ptr : block) (size nmemb : Z)
| OpPutc (c : Z)
| OpPuts (s : list Z)
| OpVprintf (ap_copy ap : format_args)
| OpPrintf (ap_copy ap : format_args)
| OpGetc
| OpUngetc (ch : Z)
| OpGets (s : block) (size : Z)
| OpClearerr
| OpEof
| OpError
| OpSeek (offset whence : Z)
| OpTell
| OpRewind
| OpGetpos (p : MIOPos)
| OpSetpos (p : MIOPos).

Definition ignore {A} (c : M A) : M unit := _ <- c ;; ret tt.

Definition exec (o : op) : M unit :=
  match o with
  | OpRead ptr size nmemb => ignore (mio_read ptr size nmemb)
  | OpWrite ptr size nmemb => ignore (mio_write ptr size nmemb)
  | OpPutc c => ignore (mio_putc c)
  | OpPuts s => ignore (mio_puts s)
  | OpVprintf ap_copy ap => ignore (mio_vprintf ap_copy ap)
  | OpPrintf ap_copy ap => ignore (mio_printf ap_copy ap)
  | OpGetc => ignore mio_getc
  | OpUngetc ch => ignore (mio_ungetc ch)
  | OpGets s size => ignore (mio_gets s size)
  | OpClearerr => mio_clearerr
  | OpEof => ignore mio_eof
  | OpError => ignore mio_error
  | OpSeek offset whence => ignore (mio_seek offset whence)
  | OpTell => ignore mio_tell
  | OpRewind => mio_rewind
  | OpGetpos p => ignore (mio_getpos p)
  | OpSetpos p => ignore (mio_setpos p)
  end.

Fixpoint exec_all (ops : list op) : M unit :=
  match ops with
  | [] => ret tt
  | o :: ops' => exec o ;; exec_all ops'
  end.

(** A call of [mio_write]: the caller's block, [size] and [nmemb]. *)
Record write_call : Type := mkWrite {
  w_ptr : block;
  w_size : Z;
  w_nmemb : Z
}.

(** A call of [mio_read]: the caller's block, [size] and [nmemb]. *)
Record read_call : Type := mkRead {
  r_ptr : block;
  r_size : Z;
  r_nmemb : Z
}.

(** A sequence of calls of [mio_write]; the result has the bytes the stream
    took: of each call, the records it returned as written. *)
Fixpoint write_all (ws : list write_call) : M (list Z) :=
  match ws with
  | [] => ret []
  | q :: ws' =>
    n <- mio_write (w_ptr q) (w_size q) (w_nmemb q) ;;
    rest <- write_all ws' ;;
    ret (firstn (Z.to_nat (n * w_size q)) (w_ptr q) ++ rest)
  end.

(** A sequence of calls of [mio_read]; the result has the bytes the stream
    gave: of each call, the records it returned as read, as found in the
    caller's block. *)
Fixpoint read_all (rs : list read_call) : M (list Z) :=
  match rs with
  | [] => ret []
  | q :: rs' =>
    '(n, p) <- mio_read (r_ptr q) (r_size q) (r_nmemb q) ;;
    rest <- read_all rs' ;;
    ret (firstn (Z.to_nat (n * r_size q)) p ++ rest)
  end.

(** The block of a call holds the [nmemb] records of [size] bytes. *)
Definition write_call_ok (q : write_call) : Prop :=
  0 <= w_size q /\ 0 <= w_nmemb q /\ w_size q * w_nmemb q <= blen (w_ptr q).

Definition read_call_ok (q : read_call) : Prop :=
  0 <= r_size q /\ 0 <= r_nmemb q /\ r_size q * r_nmemb q <= blen (r_ptr q).

(** The bytes a sequence of calls asks for. *)
Fixpoint write_total (ws : list write_call) : Z :=
  match ws with
  | [] => 0
  | q :: ws' => w_size q * w_nmemb q + write_total ws'
  end.

Fixpoint read_total (rs : list read_call) : Z :=
  match rs with
  | [] => 0
  | q :: rs' => r_size q * r_nmemb q + read_total rs'
  end.

(** The records a call of [mio_write] is given. *)
Definition call_data (q : write_call) : list Z :=
  firstn (Z.to_nat (w_size q * w_nmemb q)) (w_ptr q).

(** ** Well-formed streams and callbacks *)

(** The representation invariant the functions rely on: the sizes are
    [gsize] values, the logical size is within the allocated size, and the
    allocated size is within the block [buf] points to. *)
Record stream_ok (m : MIO) : Prop := {
  ok_size : 0 <= mem.size m <= mem.allocated_size m;
  ok_alloc : mem.allocated_size m <= blen (mem.buf m);
  ok_max : mem.allocated_size m <= G_MAXSIZE
}.

(** The contract of [realloc]: the block returned has the size asked for
    and starts with the bytes of the old block, up to the lesser of both
    sizes. *)
Definition realloc_spec (f : MIOReallocFunc) : Prop :=
  forall b n b', f b n = Some b' ->
    (0 <= n -> blen b' = n) /\
    forall k : nat, (k <= length b)%nat -> (Z.of_nat k <= n) ->
      firstn k b' = firstn k b.

Definition growable_ok (m : MIO) : Prop :=
  forall f, mem.realloc_func m = Some f -> realloc_spec f.

(** The stream has an allocator, and it never returns [NULL]. *)
Definition never_short (m : MIO) : Prop :=
  exists f, mem.realloc_func m = Some f /\ forall b n, f b n <> None.

(** What holds between two calls of a sequence of writes that started at
    offset 0: the stream is well formed and [acc], the bytes taken so far,
    are its first bytes, up to the cursor. *)
Record written_so_far (m : MIO) (acc : list Z) : Prop := {
  wsf_ok : stream_ok m;
  wsf_grow : growable_ok m;
  wsf_pos : mem.pos m = blen acc;
  wsf_size : mem.pos m <= mem.size m;
  wsf_bytes : firstn (length acc) (mem.buf m) = acc
}.

(** The bytes a reader of the stream can reach: [buf[0 .. size)]. *)
Definition valid_bytes (m : MIO) : list Z :=
  firstn (Z.to_nat (mem.size m)) (mem.buf m).

(** [g_try_realloc] when memory is never short: fresh bytes are taken as 0. *)
Definition plain_realloc : MIOReallocFunc :=
  fun b n => Some (firstn (Z.to_nat n) b ++ repeat 0 (Z.to_nat n - length b)).

(** An allocator of a heap of [limit] bytes. *)
Definition bounded_realloc (limit : Z) : MIOReallocFunc :=
  fun b n => if n <=? limit then plain_realloc b n else None.

(** ** Predicates on computations *)

(** How the error flag after a computation relates to the flag before it:
    [tracks R c] when every run of [c] takes a flag [e] to a flag [e'] with
    [R e e'].  The lemmas hold for every reflexive and transitive [R]; they
    are used with equality (the flag is left alone) and with [not_raised]. *)
Definition tracks (R : bool -> bool -> Prop) {A} (c : M A) : Prop :=
  forall w a w', c w = Some (a, w') ->
    R (mem.error (mio w)) (mem.error (mio w')).

(** A field update that leaves [error] alone. *)
Definition spares_error (f : MIO -> MIO) : Prop :=
  forall m, mem.error (f m) = mem.error m.

Definition not_raised (e e' : bool) : Prop := e = false -> e' = false.

(** ** Relations between the stream before and after a computation *)

(** [relates R c]: every run of [c] takes a stream [m] to a stream [m']
    with [R m m']. *)
Definition relates (R : MIO -> MIO -> Prop) {A} (c : M A) : Prop :=
  forall w a w', c w = Some (a, w') -> R (mio w) (mio w').

(** Buffer, sizes and callbacks are the same. *)
Definition same_data (m m' : MIO) : Prop :=
  mem.buf m' = mem.buf m /\
  mem.size m' = mem.size m /\
  mem.allocated_size m' = mem.allocated_size m /\
  mem.realloc_func m' = mem.realloc_func m /\
  mem.free_func m' = mem.free_func m.

(** The size has not decreased, and the callbacks are the same. *)
Definition not_shrunk (m m' : MIO) : Prop :=
  mem.size m <= mem.size m' /\
  mem.realloc_func m' = mem.realloc_func m.

(** The operations that are not writes. *)
Definition reads_only (o : op) : bool :=
  match o with
  | OpWrite _ _ _ | OpPutc _ | OpPuts _ | OpVprintf _ _ | OpPrintf _ _ => false
  | _ => true
  end.

(** The representation invariant in its exact form: [allocated_size] is
    the size of the block [buf] points to, as it is for a stream made by
    [mio_new_memory] from a block and its size. *)
Definition exact_ok (m : MIO) : Prop :=
  0 <= mem.size m <= mem.allocated_size m /\
  mem.allocated_size m = blen (mem.buf m) /\
  growable_ok m.

(** [c] keeps the invariant [I]. *)
Definition keeps (I : MIO -> Prop) {A} (c : M A) : Prop :=
  relates (fun m m' => I m -> I m') c.

(** [n] calls of [mio_getc] in a row; the result has what they return. *)
Fixpoint getc_n (n : nat) : M (list Z) :=
  match n with
  | O => ret []
  | S k =>
    c <- mio_getc ;;
    rest <- getc_n k ;;
    ret (c :: rest)
  end.

(** The characters [mio_gets] takes from the bytes [l] it may read: those
    up to and including the first newline, each as a [gchar]. *)
Fixpoint take_line (l : list Z) : list Z :=
  match l with
  | [] => []
  | c :: l' =>
    if to_gchar c =? 10 then [to_gchar c] else to_gchar c :: take_line l'
  end.

(** ** Basic facts *)

Lemma to_gsize_id z : is_gsize z -> to_gsize z = z.
Proof.
  unfold is_gsize, to_gsize, G_MAXSIZE, gsize_modulus. intros H.
  apply Z.mod_small. lia.
Qed.

Lemma to_gsize_range z : is_gsize (to_gsize z).
Proof.
  unfold is_gsize, to_gsize, G_MAXSIZE, gsize_modulus.
  pose proof (Z.mod_pos_bound z 18446744073709551616 ltac:(lia)). lia.
Qed.

Lemma to_guint_id z : 0 <= z < guint_modulus -> to_guint z = z.
Proof. intros H. apply Z.mod_small. exact H. Qed.

Lemma blen_nonneg b : 0 <= blen b.
Proof. unfold blen. lia. Qed.

Lemma blen_app a b : blen (a ++ b) = blen a + blen b.
Proof. unfold blen. rewrite length_app. lia. Qed.

Lemma plain_realloc_spec : realloc_spec plain_realloc.
Proof.
  intros b n b' H. unfold plain_realloc in H. injection H as <-.
  split.
  - intros Hn. unfold blen. rewrite length_app, length_firstn, repeat_length. lia.
  - intros k Hk Hkn. rewrite firstn_app.
    rewrite firstn_firstn, length_firstn.
    replace (Nat.min k (Z.to_nat n)) with k by lia.
    replace (k - Nat.min (Z.to_nat n) (length b))%nat with 0%nat by lia.
    simpl. apply app_nil_r.
Qed.

Lemma bounded_realloc_spec limit : realloc_spec (bounded_realloc limit).
Proof.
  intros b n b' H. unfold bounded_realloc in H.
  destruct (n <=? limit); [|discriminate].
  exact (plain_realloc_spec b n b' H).
Qed.

(** ** The error flag *)

Lemma spares_set_buf v : spares_error (mem.set_buf v).
Proof. intros m. reflexivity. Qed.
Lemma spares_set_ungetch v : spares_error (mem.set_ungetch v).
Proof. intros m. reflexivity. Qed.
Lemma spares_set_pos v : spares_error (mem.set_pos v).
Proof. intros m. reflexivity. Qed.
Lemma spares_set_size v : spares_error (mem.set_size v).
Proof. intros m. reflexivity. Qed.
Lemma spares_set_allocated_size v : spares_error (mem.set_allocated_size v).
Proof. intros m. reflexivity. Qed.
Lemma spares_set_eof v : spares_error (mem.set_eof v).
Proof. intros m. reflexivity. Qed.

Create HintDb flag_db.
#[local] Hint Resolve spares_set_buf spares_set_ungetch spares_set_pos
  spares_set_size spares_set_allocated_size spares_set_eof : flag_db.

Section FlagRelation.

Variable R : bool -> bool -> Prop.
Hypothesis R_refl : forall e, R e e.
Hypothesis R_trans : forall e1 e2 e3, R e1 e2 -> R e2 e3 -> R e1 e3.

Lemma tracks_ret {A} (a : A) : tracks R (ret a).
Proof. intros w a' w' H. injection H as _ <-. apply R_refl. Qed.

Lemma tracks_get : tracks R get.
Proof. intros w a' w' H. injection H as _ <-. apply R_refl. Qed.

Lemma tracks_set_errno e : tracks R (set_errno e).
Proof. intros w a' w' H. injection H as _ <-. apply R_refl. Qed.

Lemma tracks_access {A} (o : option A) : tracks R (access o).
Proof.
  intros w a' w' H. unfold access in H. destruct o; [|discriminate].
  injection H as _ <-. apply R_refl.
Qed.

Lemma tracks_assign f : spares_error f -> tracks R (assign f).
Proof.
  intros Hf w a' w' H. injection H as _ <-. simpl. rewrite Hf. apply R_refl.
Qed.

Lemma tracks_bind {A B} (c : M A) (k : A -> M B) :
  tracks R c -> (forall a, tracks R (k a)) -> tracks R (bind c k).
Proof.
  intros Hc Hk w b w' H. unfold bind in H.
  destruct (c w) as [[a w1]|] eqn:E; [|discriminate].
  eapply R_trans; [eapply Hc | eapply Hk]; eauto.
Qed.

#[local] Hint Resolve tracks_ret tracks_get tracks_set_errno tracks_access
  tracks_assign : flag_db.

(** Goes through the body of a function: binds, tests and patterns. *)
Ltac flag_step :=
  match goal with
  | |- tracks _ (bind _ _) => apply tracks_bind; [|intros ?]
  | |- tracks _ (if ?b then _ else _) => destruct b
  | |- tracks _ (match ?x with _ => _ end) => destruct x
  | |- _ => solve [auto with flag_db]
  end.

Ltac flag_body := cbv zeta; repeat flag_step.

Lemma tracks_try_resize n : tracks R (try_resize n).
Proof. unfold try_resize. flag_body. Qed.

#[local] Hint Resolve tracks_try_resize : flag_db.

Lemma tracks_try_ensure_space n : tracks R (try_ensure_space n).
Proof. unfold try_ensure_space. flag_body. Qed.

#[local] Hint Resolve tracks_try_ensure_space : flag_db.

Lemma tracks_read_records fuel size : forall n_read ptr,
  tracks R (read_records fuel size n_read ptr).
Proof.
  induction fuel as [|fuel IH]; intros n_read ptr; simpl; flag_body.
Qed.

Lemma tracks_gets_chars fuel size : forall i s,
  tracks R (gets_chars fuel size i s).
Proof.
  induction fuel as [|fuel IH]; intros i s; simpl; flag_body.
Qed.

#[local] Hint Resolve tracks_read_records tracks_gets_chars : flag_db.

Lemma tracks_mio_read ptr size nmemb : tracks R (mio_read ptr size nmemb).
Proof. unfold mio_read. flag_body. Qed.

Lemma tracks_mio_write ptr size nmemb : tracks R (mio_write ptr size nmemb).
Proof. unfold mio_write. flag_body. Qed.

Lemma tracks_mio_putc c : tracks R (mio_putc c).
Proof. unfold mio_putc. flag_body. Qed.

Lemma tracks_mio_puts s : tracks R (mio_puts s).
Proof. unfold mio_puts. flag_body. Qed.

Lemma tracks_mio_vprintf ap_copy ap : tracks R (mio_vprintf ap_copy ap).
Proof. unfold mio_vprintf. flag_body. Qed.

Lemma tracks_mio_getc : tracks R mio_getc.
Proof. unfold mio_getc. flag_body. Qed.

Lemma tracks_mio_ungetc ch : tracks R (mio_ungetc ch).
Proof. unfold mio_ungetc. flag_body. Qed.

Lemma tracks_mio_gets s size : tracks R (mio_gets s size).
Proof. unfold mio_gets. flag_body. Qed.

Lemma tracks_mio_seek offset whence : tracks R (mio_seek offset whence).
Proof. unfold mio_seek. flag_body. Qed.

Lemma tracks_mio_getpos p : tracks R (mio_getpos p).
Proof. unfold mio_getpos. flag_body. Qed.

Lemma tracks_mio_setpos p : tracks R (mio_setpos p).
Proof. unfold mio_setpos. flag_body. Qed.

(** Every operation but [mio_clearerr] and [mio_rewind]. *)
Lemma tracks_exec o :
  o <> OpClearerr -> o <> OpRewind -> tracks R (exec o).
Proof.
  intros Hc Hr.
  destruct o; try congruence; simpl;
    unfold ignore, mio_printf, mio_eof, mio_error, mio_tell; flag_body;
    auto using tracks_mio_read, tracks_mio_write, tracks_mio_putc,
      tracks_mio_puts, tracks_mio_vprintf, tracks_mio_getc,
      tracks_mio_ungetc, tracks_mio_gets, tracks_mio_seek,
      tracks_mio_getpos, tracks_mio_setpos.
Qed.

End FlagRelation.

Lemma not_raised_refl e : not_raised e e.
Proof. intros H. exact H. Qed.

Lemma not_raised_trans e1 e2 e3 :
  not_raised e1 e2 -> not_raised e2 e3 -> not_raised e1 e3.
Proof. unfold not_raised. auto. Qed.

Lemma mio_clearerr_flag w :
  exists w', mio_clearerr w = Some (tt, w') /\ mem.error (mio w') = false.
Proof. eexists. split; reflexivity. Qed.

Lemma mio_rewind_flag w :
  exists w', mio_rewind w = Some (tt, w') /\ mem.error (mio w') = false.
Proof. eexists. split; reflexivity. Qed.

Lemma not_raised_exec o : tracks not_raised (exec o).
Proof.
  destruct o;
    try (apply (tracks_exec _ not_raised_refl not_raised_trans); congruence).
  - intros w a w' H _. destruct (mio_clearerr_flag w) as (w1 & E & F).
    simpl in H. congruence.
  - intros w a w' H _. destruct (mio_rewind_flag w) as (w1 & E & F).
    simpl in H. congruence.
Qed.

Lemma not_raised_exec_all ops : tracks not_raised (exec_all ops).
Proof.
  induction ops as [|o ops IH]; simpl.
  - apply (tracks_ret _ not_raised_refl).
  - apply (tracks_bind _ not_raised_trans);
      [apply not_raised_exec | intros _; exact IH].
Qed.

(** C10: no operation of a memory stream raises the error flag.  The flag
    is false at construction, and after any sequence of operations on the
    new stream [mio_error] returns 0; every operation other than
    [mio_clearerr] and [mio_rewind] leaves the flag as it found it, and
    those two leave it false. *)
Theorem error_flag_never_raised :
  (forall data size realloc_func free_func,
     mem.error (mio_new_memory data size realloc_func free_func) = false) /\
  (forall data size realloc_func free_func e ops w',
     exec_all ops
       (mkWorld (mio_new_memory data size realloc_func free_func) e)
       = Some (tt, w') ->
     mio_error w' = Some (0, w')) /\
  (forall o w w',
     exec o w = Some (tt, w') ->
     (mem.error (mio w) = false -> mem.error (mio w') = false) /\
     (o <> OpClearerr -> o <> OpRewind ->
      mem.error (mio w') = mem.error (mio w))) /\
  (forall w, exists w',
     mio_clearerr w = Some (tt, w') /\ mem.error (mio w') = false) /\
  (forall w, exists w',
     mio_rewind w = Some (tt, w') /\ mem.error (mio w') = false).
Proof.
  split; [reflexivity|].
  split.
  { intros data size rf ff e ops w' H.
    apply not_raised_exec_all in H. simpl in H.
    unfold mio_error, bind, get, ret. rewrite (H eq_refl). reflexivity. }
  split.
  { intros o w w' H. split.
    - exact (not_raised_exec o _ _ _ H).
    - intros Hc Hr. symmetry.
      exact (tracks_exec eq (@eq_refl bool) (@eq_trans bool) o Hc Hr _ _ _ H). }
  split; [exact mio_clearerr_flag | exact mio_rewind_flag].
Qed.

(** A run with a write that cannot grow, a seek out of bounds and two
    [mio_ungetc] in a row: [mio_error] still returns 0. *)
Lemma error_flag_never_raised_witness :
  exists w',
    exec_all [OpWrite [104; 105] 1 2; OpSeek 7 SEEK_SET; OpUngetc 104;
              OpUngetc 105; OpGetc]
             (mkWorld (mio_new_memory [] 0 None None) ENONE) = Some (tt, w')
    /\ mio_error w' = Some (0, w').
Proof.
  eexists. split.
  - vm_compute. reflexivity.
  - apply (proj1 (proj2 error_flag_never_raised)
             [] 0 None None ENONE
             [OpWrite [104; 105] 1 2; OpSeek 7 SEEK_SET; OpUngetc 104;
              OpUngetc 105; OpGetc]).
    vm_compute. reflexivity.
Defined.

(** ** Positions: [mio_getpos], [mio_setpos], [mio_seek] *)

Lemma glong_to_gsize offset :
  is_glong offset -> 0 <= offset -> to_gsize offset = offset.
Proof.
  unfold is_glong. intros H H0. apply to_gsize_id.
  unfold is_gsize, G_MAXSIZE. lia.
Qed.

(** C9: [mio_getpos] succeeds, storing the cursor in the snapshot, unless
    the cursor is [(gsize)-1], the value [mio_ungetc] at offset 0 leaves, and
    then fails with the stream untouched; [mio_setpos] succeeds exactly when
    the snapshot is at most the size, and then sets the cursor to it and
    drops the pushed-back byte; when it fails the stream is untouched. *)
Theorem getpos_setpos_spec (w : world) (p : MIOPos) :
  (mem.pos (mio w) <> to_gsize (-1) ->
   mio_getpos p w
   = Some ((0, mkMIOPos MIO_TYPE_MEMORY (mem.pos (mio w))), w)) /\
  (mem.pos (mio w) = to_gsize (-1) ->
   mio_getpos p w
   = Some ((-1, mkMIOPos MIO_TYPE_MEMORY (pos_mem p)),
           mkWorld (mio w) EIO)) /\
  (pos_mem p <= mem.size (mio w) ->
   mio_setpos p w
   = Some (0, mkWorld (mem.set_pos (pos_mem p)
                         (mem.set_ungetch EOF (mio w))) (errno w))) /\
  (pos_mem p > mem.size (mio w) ->
   mio_setpos p w = Some (-1, mkWorld (mio w) EINVAL)) /\
  (forall ch,
     mem.pos (mio w) = 0 -> mem.ungetch (mio w) = EOF -> ch <> EOF ->
     exists w1, mio_ungetc ch w = Some (ch, w1) /\
                mem.pos (mio w1) = to_gsize (-1)).
Proof.
  destruct w as [m e]. simpl.
  repeat split.
  - intros H. unfold mio_getpos, bind, get, ret. simpl.
    destruct (Z.eqb_spec (mem.pos m) (to_gsize (-1))); [contradiction|].
    reflexivity.
  - intros H. unfold mio_getpos, bind, get, ret, set_errno. simpl.
    rewrite H, Z.eqb_refl. reflexivity.
  - intros H. unfold mio_setpos, bind, get, ret, assign. simpl.
    destruct (Z.gtb_spec (pos_mem p) (mem.size m)); [lia|]. reflexivity.
  - intros H. unfold mio_setpos, bind, get, ret, set_errno. simpl.
    destruct (Z.gtb_spec (pos_mem p) (mem.size m)); [|lia]. reflexivity.
  - intros ch Hp Hu Hc. unfold mio_ungetc, bind, get, ret, assign. simpl.
    rewrite Hu, Hp. destruct (Z.eqb_spec ch EOF); [contradiction|].
    simpl. eexists. split; reflexivity.
Qed.

(** Saving the cursor of a stream holding ["abc"] at offset 3, rewinding,
    and restoring it. *)
Lemma getpos_setpos_spec_witness :
  let m := mem.set_pos 3 (mio_new_memory [97; 98; 99] 3 None None) in
  let p := mkMIOPos MIO_TYPE_FILE 0 in
  mio_getpos p (mkWorld m ENONE)
  = Some ((0, mkMIOPos MIO_TYPE_MEMORY 3), mkWorld m ENONE) /\
  mio_setpos (mkMIOPos MIO_TYPE_MEMORY 3)
             (mkWorld (mio_new_memory [97; 98; 99] 3 None None) ENONE)
  = Some (0, mkWorld m ENONE) /\
  mio_setpos (mkMIOPos MIO_TYPE_MEMORY 4) (mkWorld m ENONE)
  = Some (-1, mkWorld m EINVAL).
Proof.
  intros m p. split; [|split].
  - apply (proj1 (getpos_setpos_spec (mkWorld m ENONE) p)).
    vm_compute. discriminate.
  - apply (proj1 (proj2 (proj2
      (getpos_setpos_spec
         (mkWorld (mio_new_memory [97; 98; 99] 3 None None) ENONE)
         (mkMIOPos MIO_TYPE_MEMORY 3))))).
    vm_compute. discriminate.
  - apply (proj1 (proj2 (proj2 (proj2
      (getpos_setpos_spec (mkWorld m ENONE) (mkMIOPos MIO_TYPE_MEMORY 4)))))).
    vm_compute. reflexivity.
Defined.

(** All three origins of [mio_seek] answer, and a seek that fails changes
    nothing but [errno]. *)
Lemma mio_seek_cases offset whence w :
  exists rv w', mio_seek offset whence w = Some (rv, w') /\
    ((rv = 0 /\ mem.eof (mio w') = false /\ mem.ungetch (mio w') = EOF /\
      errno w' = errno w)
     \/ (rv = -1 /\ mio w' = mio w /\ errno w' = EINVAL)).
Proof.
  destruct w as [m e].
  unfold mio_seek, bind, get, ret, assign, set_errno. simpl.
  repeat match goal with
         | |- context [if ?b then _ else _] => destruct b; simpl
         end;
    do 2 eexists; (split; [reflexivity|]); simpl; auto.
Qed.

(** C5: [mio_seek] from the start succeeds exactly when the offset is
    between 0 and the size, and then makes it the cursor; a seek that
    succeeds, from any origin, clears the end-of-file flag and drops the
    pushed-back byte; a seek that fails returns -1, sets [errno] to [EINVAL]
    and leaves the stream, so its cursor, as it was. *)
Theorem seek_spec (w : world) (offset : Z) :
  is_glong offset ->
  (0 <= offset <= mem.size (mio w) ->
   mio_seek offset SEEK_SET w
   = Some (0, mkWorld (mem.set_ungetch EOF
                         (mem.set_eof false (mem.set_pos offset (mio w))))
                      (errno w))) /\
  (~ 0 <= offset <= mem.size (mio w) ->
   mio_seek offset SEEK_SET w = Some (-1, mkWorld (mio w) EINVAL)) /\
  (forall whence, exists rv w',
     mio_seek offset whence w = Some (rv, w') /\
     ((rv = 0 /\ mem.eof (mio w') = false /\ mem.ungetch (mio w') = EOF)
      \/ (rv = -1 /\ mio w' = mio w /\ errno w' = EINVAL))).
Proof.
  intros Hoff. destruct w as [m e]. simpl. split; [|split].
  - intros H. unfold mio_seek, bind, get, ret, assign, set_errno. simpl.
    rewrite (glong_to_gsize offset Hoff) by lia.
    destruct (Z.ltb_spec offset 0); [lia|].
    destruct (Z.gtb_spec offset (mem.size m)); [lia|]. reflexivity.
  - intros H. unfold mio_seek, bind, get, ret, assign, set_errno. simpl.
    destruct (Z.ltb_spec offset 0); [reflexivity|].
    rewrite (glong_to_gsize offset Hoff) by lia.
    destruct (Z.gtb_spec offset (mem.size m)); [reflexivity|]. lia.
  - intros whence.
    destruct (mio_seek_cases offset whence (mkWorld m e))
      as (rv & w' & E & [(? & ? & ? & ?)|?]);
      exists rv, w'; auto.
Qed.

(** On a stream of 5 bytes: offset 5 is accepted, offset 6 is not. *)
Lemma seek_spec_witness :
  let m := mio_new_memory [1; 2; 3; 4; 5] 5 None None in
  mio_seek 5 SEEK_SET (mkWorld m ENONE)
  = Some (0, mkWorld (mem.set_pos 5 m) ENONE) /\
  mio_seek 6 SEEK_SET (mkWorld m ENONE) = Some (-1, mkWorld m EINVAL).
Proof.
  intros m.
  assert (H5 : is_glong 5) by (unfold is_glong; lia).
  assert (H6 : is_glong 6) by (unfold is_glong; lia).
  split.
  - apply (proj1 (seek_spec (mkWorld m ENONE) 5 H5)). simpl. lia.
  - apply (proj1 (proj2 (seek_spec (mkWorld m ENONE) 6 H6))). simpl. lia.
Defined.

(** ** Push-back *)

Lemma gsize_pred_succ p : is_gsize p -> to_gsize (to_gsize (p - 1) + 1) = p.
Proof.
  intros H. unfold is_gsize, G_MAXSIZE in H.
  destruct (Z.eq_dec p 0) as [->|Hp]; [reflexivity|].
  rewrite (to_gsize_id (p - 1)) by (unfold is_gsize, G_MAXSIZE; lia).
  replace (p - 1 + 1) with p by lia.
  apply to_gsize_id. unfold is_gsize, G_MAXSIZE. lia.
Qed.

(** C6: on a stream with no byte pushed back, [mio_ungetc (c)] for [c]
    other than [EOF] returns [c] and the [mio_getc] that follows returns [c]
    again; after the two calls the cursor is where it was (the only field
    that can differ is the end-of-file flag, which [mio_ungetc] clears);
    between the two calls any further [mio_ungetc] returns [EOF] and changes
    nothing. *)
Theorem ungetc_getc_roundtrip (w : world) (c : Z) :
  c <> EOF ->
  mem.ungetch (mio w) = EOF ->
  is_gsize (mem.pos (mio w)) ->
  exists w1 w2,
    mio_ungetc c w = Some (c, w1) /\
    mio_getc w1 = Some (c, w2) /\
    mem.pos (mio w2) = mem.pos (mio w) /\
    mio w2 = mem.set_eof false (mio w) /\
    (forall c', mio_ungetc c' w1 = Some (EOF, w1)).
Proof.
  intros Hc Hu Hp. destruct w as [m e]. simpl in *.
  unfold mio_ungetc, mio_getc, bind, get, ret, assign. simpl.
  rewrite Hu. destruct (Z.eqb_spec c EOF) as [|_]; [contradiction|]. simpl.
  do 2 eexists. split; [reflexivity|]. simpl.
  destruct (Z.eqb_spec c EOF) as [|_]; [contradiction|]. simpl.
  split; [reflexivity|]. simpl. rewrite (gsize_pred_succ _ Hp).
  split; [reflexivity|]. split.
  - destruct m; simpl in *. subst. reflexivity.
  - intros c'. rewrite andb_false_r. reflexivity.
Qed.

(** Pushing ['c'] back on a stream read to its end. *)
Lemma ungetc_getc_roundtrip_witness :
  let m := mem.set_pos 3 (mio_new_memory [97; 98; 99] 3 None None) in
  exists w1 w2,
    mio_ungetc 99 (mkWorld m ENONE) = Some (99, w1) /\
    mio_getc w1 = Some (99, w2) /\
    mem.pos (mio w2) = 3 /\
    mio w2 = mem.set_eof false m /\
    (forall c', mio_ungetc c' w1 = Some (EOF, w1)).
Proof.
  intros m.
  apply (ungetc_getc_roundtrip (mkWorld m ENONE) 99).
  - discriminate.
  - reflexivity.
  - unfold is_gsize, G_MAXSIZE. simpl. lia.
Defined.

(** ** Memory accesses *)

Lemma in_bounds_iff b off n :
  in_bounds b off n = true <-> 0 <= off /\ 0 <= n /\ off + n <= blen b.
Proof.
  unfold in_bounds. rewrite !andb_true_iff, !Z.leb_le. tauto.
Qed.

Lemma mem_write_ok b off data :
  0 <= off -> off + blen data <= blen b ->
  mem_write b off data
  = Some (firstn (Z.to_nat off) b ++ data
          ++ skipn (Z.to_nat off + length data) b).
Proof.
  intros H1 H2. unfold mem_write.
  destruct (in_bounds b off (blen data)) eqn:E; [reflexivity|].
  assert (in_bounds b off (blen data) = true).
  { apply in_bounds_iff. pose proof (blen_nonneg data). lia. }
  congruence.
Qed.

Lemma mem_write_inv b off data b' :
  mem_write b off data = Some b' ->
  0 <= off /\ off + blen data <= blen b /\
  b' = firstn (Z.to_nat off) b ++ data
       ++ skipn (Z.to_nat off + length data) b.
Proof.
  unfold mem_write. destruct (in_bounds b off (blen data)) eqn:E;
    [|discriminate].
  apply in_bounds_iff in E. intros H. injection H as <-. repeat split; lia.
Qed.

Lemma mem_write_len b off data b' :
  mem_write b off data = Some b' -> blen b' = blen b.
Proof.
  intros H. apply mem_write_inv in H. destruct H as (H1 & H2 & ->).
  unfold blen in *.
  rewrite !length_app, length_firstn, length_skipn. lia.
Qed.

Lemma mem_write_upto b off data b' :
  mem_write b off data = Some b' ->
  firstn (Z.to_nat off + length data) b' = firstn (Z.to_nat off) b ++ data.
Proof.
  intros H. apply mem_write_inv in H. destruct H as (H1 & H2 & ->).
  unfold blen in *.
  rewrite app_assoc.
  rewrite firstn_app.
  rewrite length_app, length_firstn.
  replace (Nat.min (Z.to_nat off) (length b)) with (Z.to_nat off) by lia.
  rewrite Nat.sub_diag. simpl. rewrite app_nil_r.
  apply firstn_all2. rewrite length_app, length_firstn. lia.
Qed.

Lemma mem_read_ok b off n :
  0 <= off -> 0 <= n -> off + n <= blen b ->
  mem_read b off n = Some (firstn (Z.to_nat n) (skipn (Z.to_nat off) b)).
Proof.
  intros H1 H2 H3. unfold mem_read.
  destruct (in_bounds b off n) eqn:E; [reflexivity|].
  assert (in_bounds b off n = true) by (apply in_bounds_iff; lia).
  congruence.
Qed.

(** ** Growing the buffer: [try_resize], [try_ensure_space] *)

Lemma try_resize_total n w : exists r w', try_resize n w = Some (r, w').
Proof.
  unfold try_resize, bind, get, ret, assign, set_errno. simpl.
  repeat match goal with
         | |- context [match ?x with _ => _ end] => destruct x; simpl
         end; eauto.
Qed.

(** When [try_resize] returns [FALSE] the stream is as it was. *)
Lemma try_resize_false n w w' :
  try_resize n w = Some (false, w') -> mio w' = mio w.
Proof.
  unfold try_resize, bind, get, ret, assign, set_errno. simpl.
  repeat match goal with
         | |- context [match ?x with _ => _ end] => destruct x; simpl
         end;
    intros H; try discriminate; injection H as <-; reflexivity.
Qed.

Lemma try_ensure_space_total n w :
  exists r w', try_ensure_space n w = Some (r, w').
Proof.
  unfold try_ensure_space, bind, get, ret. simpl.
  destruct (_ >? _); [apply try_resize_total | eauto].
Qed.

Lemma try_ensure_space_false n w w' :
  try_ensure_space n w = Some (false, w') ->
  mio w' = mio w /\
  to_gsize (mem.pos (mio w) + n) > mem.size (mio w) /\
  try_resize (to_gsize (mem.pos (mio w) + n)) w = Some (false, w').
Proof.
  unfold try_ensure_space, bind, get, ret. simpl.
  destruct (Z.gtb_spec (to_gsize (mem.pos (mio w) + n)) (mem.size (mio w)))
    as [Hgt|Hle]; [|discriminate].
  intros H. split; [eapply try_resize_false; eauto|]. split; [lia|exact H].
Qed.

(** The step of [try_resize] that calls the allocator for a larger block. *)
Lemma try_resize_grow n w f :
  mem.realloc_func (mio w) = Some f ->
  n <> G_MAXSIZE ->
  n > mem.size (mio w) ->
  n > mem.allocated_size (mio w) ->
  try_resize n w
  = match f (mem.buf (mio w))
            (Z.max (to_gsize (mem.allocated_size (mio w) + MIO_CHUNK_SIZE)) n)
    with
    | Some newbuf =>
      Some (true,
            mkWorld
              (mem.set_size n
                 (mem.set_allocated_size
                    (Z.max (to_gsize (mem.allocated_size (mio w)
                                      + MIO_CHUNK_SIZE)) n)
                    (mem.set_buf newbuf (mio w))))
              (errno w))
    | None => Some (false, w)
    end.
Proof.
  intros Hf Hmax Hs Ha.
  unfold try_resize, bind, get, ret, assign, set_errno. simpl. rewrite Hf.
  destruct (Z.eqb_spec n G_MAXSIZE); [contradiction|].
  destruct (Z.gtb_spec n (mem.size (mio w))); [|lia].
  destruct (Z.leb_spec n (mem.allocated_size (mio w))); [lia|].
  destruct (f _ _); reflexivity.
Qed.

(** C4, as amended: on a stream with a [realloc] callback, a request above
    the capacity makes the capacity [MAX (capacity + MIO_CHUNK_SIZE, need)]
    (the sum taken as a [gsize]) and the size [need], and the bytes that
    were valid keep their values; when the allocator returns [NULL], when
    the stream has no [realloc] callback, or when the size requested is
    [G_MAXSIZE], [try_resize] returns [FALSE]; whenever [try_resize] or
    [try_ensure_space] returns [FALSE], buffer, size and capacity (the whole
    stream) are as before. *)
Theorem try_resize_spec (w : world) (need : Z) :
  stream_ok (mio w) ->
  is_gsize need ->
  (forall f,
     mem.realloc_func (mio w) = Some f -> realloc_spec f ->
     need > mem.allocated_size (mio w) -> need <> G_MAXSIZE ->
     let capacity :=
       Z.max (to_gsize (mem.allocated_size (mio w) + MIO_CHUNK_SIZE)) need in
     (mem.allocated_size (mio w) + MIO_CHUNK_SIZE <= G_MAXSIZE ->
      capacity = Z.max (mem.allocated_size (mio w) + MIO_CHUNK_SIZE) need) /\
     (forall newbuf,
        f (mem.buf (mio w)) capacity = Some newbuf ->
        exists w',
          try_resize need w = Some (true, w') /\
          mem.allocated_size (mio w') = capacity /\
          mem.size (mio w') = need /\
          mem.buf (mio w') = newbuf /\
          firstn (Z.to_nat (mem.size (mio w))) (mem.buf (mio w'))
          = valid_bytes (mio w) /\
          stream_ok (mio w')) /\
     (f (mem.buf (mio w)) capacity = None ->
      try_resize need w = Some (false, w))) /\
  (mem.realloc_func (mio w) = None -> try_resize need w = Some (false, w)) /\
  (need = G_MAXSIZE ->
   exists w', try_resize need w = Some (false, w') /\ mio w' = mio w) /\
  (forall w', try_resize need w = Some (false, w') -> mio w' = mio w) /\
  (forall n w', try_ensure_space n w = Some (false, w') -> mio w' = mio w).
Proof.
  intros Hok Hneed. split; [|split; [|split; [|split]]].
  - intros f Hf Hspec Hgt Hmax capacity.
    destruct Hok as [Hsz Hal Hmx].
    assert (Hcap : need <= capacity <= G_MAXSIZE).
    { unfold capacity.
      pose proof (to_gsize_range (mem.allocated_size (mio w) + MIO_CHUNK_SIZE))
        as Hr.
      unfold is_gsize in *. lia. }
    split; [|split].
    + intros Hfit. unfold capacity. rewrite to_gsize_id; [reflexivity|].
      unfold is_gsize, MIO_CHUNK_SIZE in *. lia.
    + intros newbuf Hre.
      pose proof (try_resize_grow need w f Hf Hmax ltac:(lia) Hgt) as E.
      fold capacity in E. rewrite Hre in E.
      eexists. split; [exact E|]. simpl.
      destruct (Hspec _ _ _ Hre) as [Hlen Hpre].
      repeat split; simpl; try lia.
      apply Hpre; unfold blen in *; lia.
    + intros Hre.
      pose proof (try_resize_grow need w f Hf Hmax ltac:(lia) Hgt) as E.
      fold capacity in E. rewrite Hre in E. exact E.
  - intros Hf. unfold try_resize, bind, get, ret. simpl. rewrite Hf.
    reflexivity.
  - intros ->. destruct (try_resize_total G_MAXSIZE w) as (r & w' & E).
    assert (r = false) as ->.
    { revert E. unfold try_resize, bind, get, ret, set_errno. simpl.
      destruct (mem.realloc_func (mio w)); simpl; congruence. }
    exists w'. split; [exact E|]. eapply try_resize_false; eauto.
  - intros w'. apply try_resize_false.
  - intros n w' H. apply try_ensure_space_false in H. tauto.
Qed.

(** A stream of 3 bytes asked for 5000, then for [G_MAXSIZE]; the same
    stream on a heap of 100 bytes asked for 5000. *)
Lemma try_resize_spec_witness :
  let w := mkWorld (mio_new_memory [1; 2; 3] 3 (Some plain_realloc) None)
                   ENONE in
  let v := mkWorld (mio_new_memory [1; 2; 3] 3 (Some (bounded_realloc 100))
                      None) ENONE in
  (exists w',
     try_resize 5000 w = Some (true, w') /\
     mem.allocated_size (mio w') = 5000 /\
     mem.size (mio w') = 5000 /\
     firstn 3 (mem.buf (mio w')) = [1; 2; 3]) /\
  (exists w', try_resize G_MAXSIZE w = Some (false, w') /\ mio w' = mio w) /\
  try_resize 5000 v = Some (false, v).
Proof.
  intros w v.
  assert (Hok : stream_ok (mio w)).
  { split; unfold blen, G_MAXSIZE; simpl; lia. }
  assert (Hokv : stream_ok (mio v)).
  { split; unfold blen, G_MAXSIZE; simpl; lia. }
  assert (H1 : is_gsize 5000) by (unfold is_gsize, G_MAXSIZE; lia).
  assert (H2 : is_gsize G_MAXSIZE) by (unfold is_gsize, G_MAXSIZE; lia).
  split; [|split].
  - destruct (proj1 (try_resize_spec w 5000 Hok H1) plain_realloc
                eq_refl plain_realloc_spec)
      as (_ & Hgrow & _).
    + simpl. lia.
    + unfold G_MAXSIZE. lia.
    + destruct (Hgrow _ eq_refl) as (w' & E & Ha & Hs & _ & Hv & _).
      exists w'. repeat split; assumption.
  - apply (proj1 (proj2 (proj2 (try_resize_spec w G_MAXSIZE Hok H2)))).
    reflexivity.
  - destruct (proj1 (try_resize_spec v 5000 Hokv H1) (bounded_realloc 100)
                eq_refl (bounded_realloc_spec 100))
      as (_ & _ & Hfail).
    + simpl. lia.
    + unfold G_MAXSIZE. lia.
    + apply Hfail. reflexivity.
Defined.

(** C4 as stated fails: a request whose size [pos + n] exceeds [G_MAXSIZE]
    is not refused.  After [mio_ungetc] on a new stream the cursor is
    [(gsize)-1], and in a stream of one byte read to its end it is 1; room
    for 1 more byte in the first, for [G_MAXSIZE] more in the second, comes
    to 2^64 bytes, and [try_ensure_space] returns [TRUE], the sum having
    wrapped around to 0. *)
Lemma overflowing_request_accepted :
  let w0 := mkWorld (mio_new_memory [] 0 (Some plain_realloc) None) ENONE in
  let w1 := mkWorld (mem.set_pos 1
                       (mio_new_memory [97] 1 (Some plain_realloc) None))
                    ENONE in
  (exists w,
     mio_ungetc 97 w0 = Some (97, w) /\
     mem.pos (mio w) + 1 > G_MAXSIZE /\
     try_ensure_space 1 w = Some (true, w)) /\
  (mem.pos (mio w1) + G_MAXSIZE > G_MAXSIZE /\
   try_ensure_space G_MAXSIZE w1 = Some (true, w1)).
Proof.
  intros w0 w1. split.
  - eexists. split; [vm_compute; reflexivity|].
    split; vm_compute; reflexivity.
  - split; vm_compute; reflexivity.
Qed.

(** What [try_ensure_space] has done when it returns [TRUE], on a request
    that does not wrap around: the stream differs from the old one in
    buffer, capacity and size only, there is room for the request, and the
    bytes that were valid are still there. *)
Lemma try_ensure_space_true n w w' :
  stream_ok (mio w) -> growable_ok (mio w) ->
  0 <= mem.pos (mio w) -> 0 <= n -> mem.pos (mio w) + n <= G_MAXSIZE ->
  try_ensure_space n w = Some (true, w') ->
  exists b' a' s',
    w' = mkWorld (mem.set_size s'
                    (mem.set_allocated_size a' (mem.set_buf b' (mio w))))
                 (errno w) /\
    0 <= s' <= a' /\ a' <= blen b' /\ a' <= G_MAXSIZE /\
    mem.pos (mio w) + n <= s' /\ mem.size (mio w) <= s' /\
    firstn (Z.to_nat (mem.size (mio w))) b' = valid_bytes (mio w).
Proof.
  intros [Hsz Hal Hmx] Hgrow Hpos Hn Hfit.
  unfold try_ensure_space, bind, get, ret. simpl.
  rewrite to_gsize_id by (unfold is_gsize; lia).
  destruct (Z.gtb_spec (mem.pos (mio w) + n) (mem.size (mio w))) as [Hgt|Hle].
  - unfold try_resize, bind, get, ret, assign, set_errno. simpl.
    destruct (mem.realloc_func (mio w)) as [f|] eqn:Ef; [|discriminate].
    destruct (Z.eqb_spec (mem.pos (mio w) + n) G_MAXSIZE); [discriminate|].
    destruct (Z.gtb_spec (mem.pos (mio w) + n) (mem.size (mio w))); [|lia].
    destruct (Z.leb_spec (mem.pos (mio w) + n) (mem.allocated_size (mio w))).
    + intros Heq. injection Heq as <-.
      exists (mem.buf (mio w)), (mem.allocated_size (mio w)),
        (mem.pos (mio w) + n).
      split; [destruct w as [[] ?]; reflexivity|].
      repeat split; try lia. 
    + destruct (f _ _) as [newbuf|] eqn:Ere; [|discriminate].
      intros Heq. injection Heq as <-.
      destruct (Hgrow f Ef _ _ _ Ere) as [Hlen Hpre].
      pose proof (to_gsize_range
                    (mem.allocated_size (mio w) + MIO_CHUNK_SIZE)) as Hr.
      unfold is_gsize in Hr.
      do 3 eexists. split; [reflexivity|].
      repeat split; try lia.
      apply Hpre; unfold blen in *; lia.
  - intros Heq. injection Heq as <-.
    exists (mem.buf (mio w)), (mem.allocated_size (mio w)),
      (mem.size (mio w)).
    split; [destruct w as [[] ?]; reflexivity|].
    repeat split; try lia.
Qed.

(** ** [mio_write] *)

(** The two ways a call of [mio_write] ends, on a request that does not
    wrap around.  [b1] is the buffer [try_ensure_space] leaves. *)
Lemma mio_write_run (w : world) (ptr : block) (size nmemb : Z) :
  stream_ok (mio w) -> growable_ok (mio w) ->
  0 <= mem.pos (mio w) ->
  0 <= size -> 0 <= nmemb ->
  size * nmemb <= blen ptr ->
  mem.pos (mio w) + size * nmemb <= G_MAXSIZE ->
  exists r w',
    mio_write ptr size nmemb w = Some (r, w') /\
    ((r = 0 /\ mio w' = mio w /\
      (size <> 0 -> nmemb <> 0 ->
       mem.pos (mio w) + size * nmemb > mem.size (mio w) /\
       try_resize (mem.pos (mio w) + size * nmemb) w = Some (false, w')))
     \/
     (r = nmemb /\ size <> 0 /\ nmemb <> 0 /\
      exists b1 b' a' s',
        mio w' = mem.set_pos (mem.pos (mio w) + size * nmemb)
                   (mem.set_buf b'
                      (mem.set_size s'
                         (mem.set_allocated_size a'
                            (mem.set_buf b1 (mio w))))) /\
        0 <= s' <= a' /\ a' <= blen b' /\ a' <= G_MAXSIZE /\
        mem.pos (mio w) + size * nmemb <= s' /\ mem.size (mio w) <= s' /\
        firstn (Z.to_nat (mem.size (mio w))) b1 = valid_bytes (mio w) /\
        mem_write b1 (mem.pos (mio w))
                  (firstn (Z.to_nat (size * nmemb)) ptr) = Some b')).
Proof.
  intros Hok Hgrow Hpos Hsize Hnmemb Hptr Hfit.
  assert (Hn : 0 <= size * nmemb) by lia.
  unfold mio_write.
  destruct (Z.eqb_spec size 0) as [->|Hs0]; simpl.
  { do 2 eexists. split; [reflexivity|]. left.
    split; [reflexivity|]. split; [reflexivity|]. congruence. }
  destruct (Z.eqb_spec nmemb 0) as [->|Hn0]; simpl.
  { do 2 eexists. split; [reflexivity|]. left.
    split; [reflexivity|]. split; [reflexivity|]. congruence. }
  rewrite (to_gsize_id (size * nmemb)) by (unfold is_gsize; lia).
  unfold bind at 1.
  destruct (try_ensure_space_total (size * nmemb) w) as (ok & w1 & E).
  rewrite E. destruct ok.
  - destruct (try_ensure_space_true _ _ _ Hok Hgrow Hpos Hn Hfit E)
      as (b1 & a' & s' & -> & Hs' & Ha' & Hmx & Hroom & Hmono & Hkeep).
    unfold bind, get, ret, assign, access, memcpy. simpl.
    rewrite (mem_read_ok ptr 0 (size * nmemb)) by lia. simpl.
    assert (Hlen : blen (firstn (Z.to_nat (size * nmemb)) ptr) = size * nmemb).
    { unfold blen in *. rewrite length_firstn. lia. }
    rewrite mem_write_ok by lia.
    do 2 eexists. split; [reflexivity|]. right.
    split; [reflexivity|]. split; [assumption|]. split; [assumption|].
    exists b1. eexists. exists a', s'. simpl.
    rewrite (to_gsize_id (mem.pos (mio w) + size * nmemb))
      by (unfold is_gsize; lia).
    split; [reflexivity|].
    assert (Hbl : blen (firstn (Z.to_nat (mem.pos (mio w))) b1
                        ++ firstn (Z.to_nat (size * nmemb)) ptr
                        ++ skipn (Z.to_nat (mem.pos (mio w))
                                  + length (firstn (Z.to_nat (size * nmemb))
                                                   ptr)) b1) = blen b1).
    { apply (mem_write_len b1 (mem.pos (mio w))
               (firstn (Z.to_nat (size * nmemb)) ptr)).
      apply mem_write_ok; lia. }
    repeat split; try lia; try assumption.
    apply mem_write_ok; lia.
  - apply try_ensure_space_false in E. destruct E as (Hm & Hgt & Hre).
    rewrite to_gsize_id in Hgt, Hre by (unfold is_gsize; lia).
    do 2 eexists. split; [reflexivity|]. left.
    split; [reflexivity|]. split; [assumption|]. intros _ _. split; assumption.
Qed.

Lemma mem_write_read b off data b' :
  mem_write b off data = Some b' ->
  mem_read b' off (blen data) = Some data.
Proof.
  intros H. pose proof (mem_write_len _ _ _ _ H) as Hlen.
  apply mem_write_inv in H. destruct H as (H1 & H2 & Hb).
  rewrite mem_read_ok by (pose proof (blen_nonneg data); lia).
  f_equal. subst b'. unfold blen in *.
  rewrite skipn_app, length_firstn.
  replace (Nat.min (Z.to_nat off) (length b)) with (Z.to_nat off) by lia.
  rewrite Nat.sub_diag. simpl.
  rewrite skipn_all2 by (rewrite length_firstn; lia). simpl.
  rewrite Nat2Z.id, firstn_app, Nat.sub_diag. simpl.
  rewrite app_nil_r. apply firstn_all.
Qed.

(** C3: a call of [mio_write] whose request does not wrap around either
    returns [nmemb], with the cursor advanced by [nmemb * size], the size at
    least the new cursor and the bytes of the caller stored from the old
    cursor on, or returns 0 with the stream (buffer, size, cursor) as it
    was; for a request that is not empty it returns 0 only when more room
    was needed and [try_resize] failed. *)
Theorem mio_write_all_or_nothing
    (w : world) (ptr : block) (size nmemb : Z) :
  stream_ok (mio w) -> growable_ok (mio w) ->
  0 <= mem.pos (mio w) ->
  0 <= size -> 0 <= nmemb ->
  size * nmemb <= blen ptr ->
  mem.pos (mio w) + size * nmemb <= G_MAXSIZE ->
  exists r w',
    mio_write ptr size nmemb w = Some (r, w') /\
    ((r = nmemb /\
      mem.pos (mio w') = mem.pos (mio w) + nmemb * size /\
      mem.pos (mio w') <= mem.size (mio w') /\
      mem_read (mem.buf (mio w')) (mem.pos (mio w)) (size * nmemb)
      = Some (firstn (Z.to_nat (size * nmemb)) ptr))
     \/
     (r = 0 /\ mio w' = mio w)) /\
    (size <> 0 -> nmemb <> 0 -> r = 0 ->
     mem.pos (mio w) + size * nmemb > mem.size (mio w) /\
     try_resize (mem.pos (mio w) + size * nmemb) w = Some (false, w')).
Proof.
  intros Hok Hgrow Hpos Hsize Hnmemb Hptr Hfit.
  destruct (mio_write_run w ptr size nmemb Hok Hgrow Hpos Hsize Hnmemb Hptr Hfit)
    as (r & w' & E & [(-> & Hm & Hwhy)|(-> & Hs0 & Hn0 & b1 & b' & a' & s'
                                        & Hm & Hs' & Ha' & Hmx & Hroom & Hmono
                                        & Hkeep & Hwr)]).
  - exists 0, w'. split; [exact E|]. split; [right; auto|]. auto.
  - exists nmemb, w'. split; [exact E|]. split.
    + left. rewrite Hm. simpl. split; [reflexivity|].
      split; [lia|]. split; [lia|].
      apply mem_write_read in Hwr.
      replace (blen (firstn (Z.to_nat (size * nmemb)) ptr))
        with (size * nmemb) in Hwr; [exact Hwr|].
      unfold blen in *. rewrite length_firstn. lia.
    + intros _ _ H. contradiction.
Qed.

(** Writing 2 records of 2 bytes at the end of a stream of 3 bytes that
    can grow. *)
Lemma mio_write_all_or_nothing_witness :
  let w := mkWorld (mem.set_pos 3
              (mio_new_memory [1; 2; 3] 3 (Some plain_realloc) None))
             ENONE in
  exists r w',
    mio_write [4; 5; 6; 7] 2 2 w = Some (r, w') /\
    ((r = 2 /\
      mem.pos (mio w') = 3 + 2 * 2 /\
      mem.pos (mio w') <= mem.size (mio w') /\
      mem_read (mem.buf (mio w')) 3 (2 * 2) = Some [4; 5; 6; 7])
     \/
     (r = 0 /\ mio w' = mio w)) /\
    (2 <> 0 -> 2 <> 0 -> r = 0 ->
     3 + 2 * 2 > 3 /\
     try_resize (3 + 2 * 2) w = Some (false, w')).
Proof.
  intros w.
  apply (mio_write_all_or_nothing w [4; 5; 6; 7] 2 2).
  - split; unfold blen, G_MAXSIZE; simpl; lia.
  - intros f Hf. injection Hf as <-. exact plain_realloc_spec.
  - simpl. lia.
  - lia.
  - lia.
  - unfold blen. simpl. lia.
  - unfold G_MAXSIZE. simpl. lia.
Defined.

(** ** Single bytes of a block *)

Lemma mem_write_nth_outside b off data b' (i : nat) :
  mem_write b off data = Some b' ->
  Z.of_nat i < off \/ off + blen data <= Z.of_nat i ->
  nth_error b' i = nth_error b i.
Proof.
  intros H Hi. apply mem_write_inv in H. destruct H as (H1 & H2 & ->).
  unfold blen in *.
  assert (Hl : length (firstn (Z.to_nat off) b) = Z.to_nat off)
    by (rewrite length_firstn; lia).
  destruct Hi as [Hi|Hi].
  - rewrite nth_error_app1 by lia.
    rewrite nth_error_firstn.
    destruct (Nat.ltb_spec i (Z.to_nat off)); [reflexivity|lia].
  - rewrite nth_error_app2 by lia.
    rewrite nth_error_app2 by lia.
    rewrite nth_error_skipn. f_equal. lia.
Qed.

Lemma store_nth_same b i v b' :
  store b i v = Some b' -> nth_error b' (Z.to_nat i) = Some v.
Proof.
  unfold store. intros H. apply mem_write_inv in H.
  destruct H as (H1 & H2 & ->). unfold blen in *. simpl in *.
  rewrite nth_error_app2 by (rewrite length_firstn; lia).
  rewrite length_firstn.
  replace (Nat.min (Z.to_nat i) (length b)) with (Z.to_nat i) by lia.
  rewrite Nat.sub_diag. reflexivity.
Qed.

Lemma load_ok b i :
  0 <= i < blen b ->
  exists c, load b i = Some c /\ nth_error b (Z.to_nat i) = Some c.
Proof.
  intros H. unfold load.
  assert (E : in_bounds b i 1 = true) by (apply in_bounds_iff; lia).
  rewrite E.
  destruct (nth_error b (Z.to_nat i)) as [c|] eqn:En; [eauto|].
  apply nth_error_None in En. unfold blen in H. lia.
Qed.

Lemma firstn_nth_error (b b' : block) (k i : nat) :
  firstn k b' = firstn k b -> (i < k)%nat ->
  nth_error b' i = nth_error b i.
Proof.
  intros H Hi.
  pose proof (nth_error_firstn k b' i) as E1.
  pose proof (nth_error_firstn k b i) as E2.
  destruct (Nat.ltb_spec i k); [|lia]. congruence.
Qed.

(** ** [mio_vprintf] *)

(** C7, as amended: when the second [vsnprintf] returns a length other
    than the one the first returned, [mio_vprintf] returns -1 and the size,
    the cursor, the pushed-back byte and the flags are as before the call;
    every valid byte outside of the [n] bytes from the cursor on ([n] the
    length the first [vsnprintf] returned) keeps its value, so that nothing
    changes for a reader when the cursor was at the end of the data. *)
Theorem mio_vprintf_mismatch (w : world) (ap_copy ap : format_args) :
  let n := vs_rv (ap_copy 1) in
  stream_ok (mio w) -> growable_ok (mio w) ->
  0 <= mem.pos (mio w) ->
  blen (vs_stored (ap_copy 1)) <= 1 ->
  0 <= n <= 2147483647 ->
  blen (vs_stored (ap (n + 1))) <= n + 1 ->
  mem.pos (mio w) + n + 1 <= G_MAXSIZE ->
  vs_rv (ap (n + 1)) <> n ->
  exists w',
    mio_vprintf ap_copy ap w = Some (-1, w') /\
    mem.size (mio w') = mem.size (mio w) /\
    mem.pos (mio w') = mem.pos (mio w) /\
    mem.ungetch (mio w') = mem.ungetch (mio w) /\
    mem.eof (mio w') = mem.eof (mio w) /\
    mem.error (mio w') = mem.error (mio w) /\
    (forall i : nat,
       Z.of_nat i < mem.size (mio w) ->
       Z.of_nat i < mem.pos (mio w) \/ mem.pos (mio w) + n <= Z.of_nat i ->
       nth_error (mem.buf (mio w')) i = nth_error (mem.buf (mio w)) i) /\
    (mem.size (mio w) <= mem.pos (mio w) ->
     valid_bytes (mio w') = valid_bytes (mio w)).
Proof.
  intros n Hok Hgrow Hpos Hdry Hn Hreal Hfit Hneq.
  assert (Hkey : exists w',
    mio_vprintf ap_copy ap w = Some (-1, w') /\
    mem.size (mio w') = mem.size (mio w) /\
    mem.pos (mio w') = mem.pos (mio w) /\
    mem.ungetch (mio w') = mem.ungetch (mio w) /\
    mem.eof (mio w') = mem.eof (mio w) /\
    mem.error (mio w') = mem.error (mio w) /\
    (forall i : nat,
       Z.of_nat i < mem.size (mio w) ->
       Z.of_nat i < mem.pos (mio w) \/ mem.pos (mio w) + n <= Z.of_nat i ->
       nth_error (mem.buf (mio w')) i = nth_error (mem.buf (mio w)) i)).
  { unfold mio_vprintf. fold n.
    unfold bind at 1, get at 1. cbv zeta.
    unfold bind at 1, access at 1.
    rewrite mem_write_ok by (unfold blen in *; simpl in *; lia).
    destruct (Z.geb_spec n 0) as [_|]; [|lia].
    rewrite (to_guint_id n) by (unfold guint_modulus; lia).
    rewrite (to_guint_id (n + 1)) by (unfold guint_modulus; lia).
    unfold bind at 1.
    destruct (try_ensure_space_total (n + 1) w) as (ok & w1 & E).
    rewrite E. destruct ok.
    - destruct (try_ensure_space_true (n + 1) w w1 Hok Hgrow Hpos
                  ltac:(lia) ltac:(lia) E)
        as (b1 & a' & s' & -> & Hs' & Ha' & Hmx & Hroom & Hmono & Hkeep).
      unfold bind at 1, get at 1. simpl mio. simpl mem.buf. simpl mem.pos.
      rewrite (to_gsize_id (mem.pos (mio w) + n)) by (unfold is_gsize; lia).
      destruct (load_ok b1 (mem.pos (mio w) + n) ltac:(lia)) as (c & Hc & Hcn).
      unfold bind at 1, access at 1. rewrite Hc.
      unfold bind at 1, access at 1.
      destruct (Z.leb_spec (blen (vs_stored (ap (n + 1)))) (n + 1)); [|lia].
      unfold bind at 1, access at 1.
      pose proof (blen_nonneg (vs_stored (ap (n + 1)))) as Hnn.
      pose proof (mem_write_ok b1 (mem.pos (mio w)) (vs_stored (ap (n + 1)))
                    Hpos ltac:(lia)) as Hw.
      rewrite Hw.
      pose proof (mem_write_len _ _ _ _ Hw) as Hl2.
      set (b2 := firstn _ b1 ++ vs_stored (ap (n + 1)) ++ skipn _ b1) in *.
      assert (Hst : exists b3,
                 store b2 (mem.pos (mio w) + n) c = Some b3).
      { unfold store. rewrite mem_write_ok; [eauto|lia|].
        unfold blen in *. simpl. lia. }
      destruct Hst as (b3 & Hst).
      unfold bind at 1, access at 1. rewrite Hst.
      destruct (Z.eqb_spec (vs_rv (ap (n + 1))) n) as [|_]; [contradiction|].
      rewrite andb_false_r.
      unfold bind, assign, ret. simpl.
      eexists. split; [reflexivity|]. simpl.
      repeat split.
      intros i Hi Hout.
      destruct (Z.eq_dec (Z.of_nat i) (mem.pos (mio w) + n)) as [Heq|Hne].
      + pose proof (store_nth_same _ _ _ _ Hst) as Hs.
        rewrite <- Heq, Nat2Z.id in Hs. rewrite Hs.
        rewrite <- Heq, Nat2Z.id in Hcn. rewrite <- Hcn.
        apply (firstn_nth_error _ _ _ _ Hkeep). lia.
      + unfold store in Hst.
        rewrite (mem_write_nth_outside _ _ _ _ i Hst)
          by (unfold blen; simpl; lia).
        rewrite (mem_write_nth_outside _ _ _ _ i Hw) by lia.
        apply (firstn_nth_error _ _ _ _ Hkeep). lia.
    - apply try_ensure_space_false in E. destruct E as (Hm & _).
      unfold ret. eexists. split; [reflexivity|]. rewrite Hm.
      repeat split. }
  destruct Hkey as (w' & E & Hsz & Hp & Hu & He & Hr & Hnth).
  exists w'. repeat split; try assumption.
  intros Hend. unfold valid_bytes. rewrite Hsz.
  apply nth_error_ext. intros i. rewrite !nth_error_firstn.
  destruct (Nat.ltb_spec i (Z.to_nat (mem.size (mio w)))); [|reflexivity].
  apply Hnth; lia.
Qed.

(** A stream holding ["abcdef"], rewound; the first [vsnprintf] announces 3
    characters, the second produces ["XY"]. *)
Lemma mio_vprintf_mismatch_witness :
  let w := mkWorld (mio_new_memory [97; 98; 99; 100; 101; 102] 6
                      (Some plain_realloc) None) ENONE in
  let ap_copy := vsnprintf_text [49; 50; 51] in
  let ap := vsnprintf_text [88; 89] in
  exists w',
    mio_vprintf ap_copy ap w = Some (-1, w') /\
    mem.size (mio w') = mem.size (mio w) /\
    mem.pos (mio w') = mem.pos (mio w) /\
    mem.ungetch (mio w') = mem.ungetch (mio w) /\
    mem.eof (mio w') = mem.eof (mio w) /\
    mem.error (mio w') = mem.error (mio w) /\
    (forall i : nat,
       Z.of_nat i < mem.size (mio w) ->
       Z.of_nat i < mem.pos (mio w) \/ mem.pos (mio w) + 3 <= Z.of_nat i ->
       nth_error (mem.buf (mio w')) i = nth_error (mem.buf (mio w)) i) /\
    (mem.size (mio w) <= mem.pos (mio w) ->
     valid_bytes (mio w') = valid_bytes (mio w)).
Proof.
  intros w ap_copy ap.
  apply (mio_vprintf_mismatch w ap_copy ap).
  - split; unfold blen, G_MAXSIZE; simpl; lia.
  - intros f Hf. injection Hf as <-. exact plain_realloc_spec.
  - simpl. lia.
  - unfold ap_copy, vsnprintf_text, blen. simpl. lia.
  - unfold ap_copy, vsnprintf_text, blen. simpl. lia.
  - unfold ap_copy, ap, vsnprintf_text, blen. simpl. lia.
  - unfold ap_copy, vsnprintf_text, blen, G_MAXSIZE. simpl. lia.
  - unfold ap_copy, ap, vsnprintf_text, blen. simpl. lia.
Defined.

(** C7 as stated fails: in the run above the call returns -1 and the size
    is the old one, but the bytes a reader gets are no longer ["abcdef"]:
    the two characters of the second [vsnprintf] and its terminator have
    replaced ["abc"]. *)
Lemma mio_vprintf_partial_write_visible :
  let w := mkWorld (mio_new_memory [97; 98; 99; 100; 101; 102] 6
                      (Some plain_realloc) None) ENONE in
  exists w',
    mio_vprintf (vsnprintf_text [49; 50; 51]) (vsnprintf_text [88; 89]) w
    = Some (-1, w') /\
    mem.size (mio w') = mem.size (mio w) /\
    valid_bytes (mio w) = [97; 98; 99; 100; 101; 102] /\
    valid_bytes (mio w') = [88; 89; 0; 100; 101; 102] /\
    valid_bytes (mio w') <> valid_bytes (mio w).
Proof.
  intros w. eexists. split; [vm_compute; reflexivity|].
  repeat split; try (vm_compute; reflexivity).
  vm_compute. discriminate.
Qed.

(** ** Reading with a byte pushed back *)

(** C2: the code at a failing input.  A stream holds ["hel"]; it is read to
    its end and ['l'] is pushed back, which leaves the cursor at 2.  A
    [mio_read] of one record of 2 bytes then returns 0 records, but it has
    stored the pushed-back byte in the caller's block, dropped it from the
    stream and moved the cursor to 3.  The same call at cursor 2 with
    nothing pushed back returns 0 and touches neither the block nor the
    cursor. *)
Theorem mio_read_pushback_partial_record :
  let w0 := mkWorld (mio_new_memory [104; 101; 108] 3 None None) ENONE in
  exists w1 w2 w3,
    (mio_read [0; 0; 0] 1 3 ;; mio_ungetc 108) w0 = Some (108, w1) /\
    mem.pos (mio w1) = 2 /\ mem.ungetch (mio w1) = 108 /\
    mio_read [0; 0] 2 1 w1 = Some ((0, [108; 0]), w2) /\
    mem.pos (mio w2) = 3 /\ mem.ungetch (mio w2) = EOF /\
    (mio_seek 2 SEEK_SET ;; mio_read [0; 0] 2 1) w0
    = Some ((0, [0; 0]), w3) /\
    mem.pos (mio w3) = 2.
Proof.
  intros w0. do 3 eexists.
  split; [vm_compute; reflexivity|].
  split; [reflexivity|]. split; [reflexivity|].
  split; [vm_compute; reflexivity|].
  split; [reflexivity|]. split; [reflexivity|].
  split; [vm_compute; reflexivity|]. reflexivity.
Qed.

(** C8: the code at two failing inputs.  (1) A stream holds a newline,
    ["ab"], a newline and ["c"]; the first newline is read by [mio_getc] and
    pushed back.  [mio_gets] with a block of 8 bytes copies the pushed-back
    newline and goes on to the second one: 4 characters, where the line ends
    after 1.  (2) A stream holds ["a"], which is read and pushed back.
    [mio_gets] with [size] 1 copies the byte, one more than [size - 1], and
    stores the terminator at [s[1]]: outside of a block of 1 byte, inside a
    block of 2. *)
Theorem mio_gets_pushback :
  let w0 := mkWorld (mio_new_memory [10; 97; 98; 10; 99] 5 None None)
                    ENONE in
  let v0 := mkWorld (mio_new_memory [97] 1 None None) ENONE in
  (exists w1 w2,
     (c <- mio_getc ;; mio_ungetc c) w0 = Some (10, w1) /\
     mio_gets [7; 7; 7; 7; 7; 7; 7; 7] 8 w1
     = Some ((true, [10; 97; 98; 10; 0; 7; 7; 7]), w2) /\
     mem.pos (mio w2) = 4) /\
  (exists v1 v2,
     (c <- mio_getc ;; mio_ungetc c) v0 = Some (97, v1) /\
     mio_gets [7] 1 v1 = None /\
     mio_gets [7; 7] 1 v1 = Some ((true, [97; 0]), v2)).
Proof.
  intros w0 v0. split.
  - do 2 eexists. split; [vm_compute; reflexivity|].
    split; [vm_compute; reflexivity|]. reflexivity.
  - do 2 eexists. split; [vm_compute; reflexivity|].
    split; vm_compute; reflexivity.
Qed.

(** ** [mio_read] with nothing pushed back *)

Lemma firstn_add_skipn {A} (a b : nat) (l : list A) :
  firstn (a + b) l = firstn a l ++ firstn b (skipn a l).
Proof.
  revert l. induction a as [|a IH]; intros l; [reflexivity|].
  destruct l as [|x l]; simpl.
  - rewrite firstn_nil. reflexivity.
  - rewrite IH. reflexivity.
Qed.

Lemma firstn_le_eq {A} (k s : nat) (b b' : list A) :
  firstn s b' = firstn s b -> (k <= s)%nat -> firstn k b' = firstn k b.
Proof.
  intros H Hk.
  replace k with (Nat.min k s) by lia.
  rewrite <- !firstn_firstn. rewrite H. reflexivity.
Qed.

(** The loop of [mio_read] when the data left holds all the records asked
    for: it runs [fuel] times. *)
Lemma read_records_full fuel size :
  0 < size ->
  forall n_read ptr w,
    0 <= mem.pos (mio w) -> 0 <= n_read ->
    mem.pos (mio w) + Z.of_nat fuel * size <= mem.size (mio w) ->
    mem.size (mio w) <= blen (mem.buf (mio w)) ->
    mem.size (mio w) <= G_MAXSIZE ->
    (n_read + Z.of_nat fuel) * size <= blen ptr ->
    (n_read + Z.of_nat fuel) * size <= G_MAXSIZE ->
    exists ptr',
      read_records fuel size n_read ptr w
      = Some ((n_read + Z.of_nat fuel, ptr'),
              mkWorld (mem.set_pos (mem.pos (mio w) + Z.of_nat fuel * size)
                                   (mio w))
                      (errno w)) /\
      blen ptr' = blen ptr /\
      firstn (Z.to_nat ((n_read + Z.of_nat fuel) * size)) ptr'
      = firstn (Z.to_nat (n_read * size)) ptr
        ++ firstn (Z.to_nat (Z.of_nat fuel * size))
                  (skipn (Z.to_nat (mem.pos (mio w))) (mem.buf (mio w))).
Proof.
  intros Hsize. induction fuel as [|fuel IH];
    intros n_read ptr w Hpos Hn Hroom Hbuf Hmax Hptr Hptrmax.
  - exists ptr. simpl. unfold ret. rewrite !Z.add_0_r.
    split; [destruct w as [[] ?]; reflexivity|].
    split; [reflexivity|]. rewrite app_nil_r. reflexivity.
  - assert (Hf : 0 <= Z.of_nat fuel * size) by (apply Z.mul_nonneg_nonneg; lia).
    assert (Hns : 0 <= n_read * size) by (apply Z.mul_nonneg_nonneg; lia).
    assert (HS : Z.of_nat (S fuel) * size = Z.of_nat fuel * size + size) by lia.
    simpl read_records. unfold bind at 1, get at 1.
    rewrite (to_gsize_id (mem.pos (mio w) + size)) by (unfold is_gsize; lia).
    destruct (Z.gtb_spec (mem.pos (mio w) + size) (mem.size (mio w))); [lia|].
    rewrite (to_gsize_id (n_read * size)) by (unfold is_gsize; lia).
    unfold memcpy.
    rewrite (mem_read_ok (mem.buf (mio w)) (mem.pos (mio w)) size) by lia.
    set (chunk := firstn (Z.to_nat size)
                    (skipn (Z.to_nat (mem.pos (mio w))) (mem.buf (mio w)))).
    assert (Hchunk : blen chunk = size).
    { unfold chunk, blen in *. rewrite length_firstn, length_skipn. lia. }
    pose proof (mem_write_ok ptr (n_read * size) chunk Hns ltac:(lia)) as Hw.
    unfold bind at 1, access at 1. rewrite Hw.
    set (ptr1 := firstn _ ptr ++ chunk ++ skipn _ ptr) in *.
    pose proof (mem_write_len _ _ _ _ Hw) as Hl1.
    pose proof (mem_write_upto _ _ _ _ Hw) as Hup.
    unfold bind at 1, assign at 1.
    destruct (IH (n_read + 1) ptr1
                (mkWorld (mem.set_pos (mem.pos (mio w) + size) (mio w))
                         (errno w)))
      as (ptr' & E & Hl & Hfirst); try (simpl; lia).
    exists ptr'. split; [|split].
    + rewrite E. cbn [mio errno mem.pos mem.set_pos].
      replace (n_read + 1 + Z.of_nat fuel) with (n_read + Z.of_nat (S fuel))
        by lia.
      replace (mem.pos (mio w) + size + Z.of_nat fuel * size)
        with (mem.pos (mio w) + Z.of_nat (S fuel) * size) by lia.
      reflexivity.
    + rewrite Hl. exact Hl1.
    + replace ((n_read + Z.of_nat (S fuel)) * size)
        with ((n_read + 1 + Z.of_nat fuel) * size) by lia.
      rewrite Hfirst. simpl mio. simpl mem.pos. simpl mem.buf.
      replace (Z.to_nat ((n_read + 1) * size))
        with (Z.to_nat (n_read * size) + length chunk)%nat
        by (unfold blen in Hchunk; lia).
      rewrite Hup, <- app_assoc. f_equal.
      replace (Z.to_nat (Z.of_nat (S fuel) * size))
        with (Z.to_nat size + Z.to_nat (Z.of_nat fuel * size))%nat by lia.
      rewrite firstn_add_skipn. fold chunk. f_equal.
      rewrite skipn_skipn. do 2 f_equal. lia.
Qed.

(** [mio_read] when nothing is pushed back and the data from the cursor on
    holds all the records asked for. *)
Lemma mio_read_full (w : world) (ptr : block) (size nmemb : Z) :
  mem.ungetch (mio w) = EOF ->
  0 <= mem.pos (mio w) ->
  0 <= size -> 0 <= nmemb ->
  size * nmemb <= blen ptr ->
  mem.pos (mio w) + size * nmemb <= mem.size (mio w) ->
  mem.size (mio w) <= blen (mem.buf (mio w)) ->
  mem.size (mio w) <= G_MAXSIZE ->
  exists n ptr' w',
    mio_read ptr size nmemb w = Some ((n, ptr'), w') /\
    n * size = size * nmemb /\
    firstn (Z.to_nat (n * size)) ptr'
    = firstn (Z.to_nat (size * nmemb))
             (skipn (Z.to_nat (mem.pos (mio w))) (mem.buf (mio w))) /\
    mem.pos (mio w') = mem.pos (mio w) + size * nmemb /\
    mem.buf (mio w') = mem.buf (mio w) /\
    mem.size (mio w') = mem.size (mio w) /\
    mem.ungetch (mio w') = EOF.
Proof.
  intros Hu Hpos Hsize Hnmemb Hptr Hroom Hbuf Hmax.
  unfold mio_read.
  destruct (Z.eqb_spec size 0) as [->|Hs0]; simpl.
  { exists 0, ptr, w. unfold ret. rewrite !Z.add_0_r. simpl.
    repeat split; auto. }
  destruct (Z.eqb_spec nmemb 0) as [->|Hn0]; simpl.
  { exists 0, ptr, w. unfold ret. rewrite Z.mul_0_r, Z.add_0_r. simpl.
    repeat split; auto. }
  unfold bind at 1, get at 1. rewrite Hu. simpl negb. cbv iota.
  unfold bind at 1, ret at 1.
  rewrite Z.sub_0_r.
  destruct (read_records_full (Z.to_nat nmemb) size ltac:(lia) 0 ptr w)
    as (ptr' & E & Hl & Hfirst); try lia.
  rewrite Z.add_0_l, Z2Nat.id in E, Hfirst by lia.
  unfold bind at 1. rewrite E.
  unfold bind at 1, get at 1. cbn [mio errno mem.pos mem.size mem.set_pos].
  assert (Hmul : nmemb * size = size * nmemb) by lia.
  destruct (_ >=? _); unfold bind, assign, ret; cbn;
    exists nmemb, ptr'; eexists; (split; [reflexivity|]); cbn;
    rewrite Hfirst, Hmul; repeat split; auto; lia.
Qed.

(** ** Writing, rewinding, reading *)

Lemma try_resize_succeeds n w :
  never_short (mio w) -> n <> G_MAXSIZE ->
  exists w', try_resize n w = Some (true, w').
Proof.
  intros (f & Hf & Hnever) Hn.
  unfold try_resize, bind, get, ret, assign, set_errno. simpl. rewrite Hf.
  destruct (Z.eqb_spec n G_MAXSIZE); [contradiction|].
  destruct (n >? mem.size (mio w)).
  - destruct (n <=? mem.allocated_size (mio w)); [eauto|].
    destruct (f (mem.buf (mio w)) _) eqn:E; [eauto|].
    exfalso. exact (Hnever _ _ E).
  - destruct (f (mem.buf (mio w)) n) eqn:E; [eauto|].
    exfalso. exact (Hnever _ _ E).
Qed.

Lemma written_so_far_step (w : world) (q : write_call) (acc : list Z) :
  written_so_far (mio w) acc ->
  write_call_ok q ->
  blen acc + w_size q * w_nmemb q <= G_MAXSIZE ->
  exists n w',
    mio_write (w_ptr q) (w_size q) (w_nmemb q) w = Some (n, w') /\
    n * w_size q <= w_size q * w_nmemb q /\
    written_so_far (mio w')
      (acc ++ firstn (Z.to_nat (n * w_size q)) (w_ptr q)) /\
    mem.realloc_func (mio w') = mem.realloc_func (mio w) /\
    (never_short (mio w) ->
     blen acc + w_size q * w_nmemb q < G_MAXSIZE ->
     n * w_size q = w_size q * w_nmemb q).
Proof.
  intros [Hok Hgrow Hpos Hps Hbytes] (Hs & Hn & Hptr) Hfit.
  assert (Hprod : 0 <= w_size q * w_nmemb q) by (apply Z.mul_nonneg_nonneg; lia).
  pose proof (blen_nonneg acc) as Hacc.
  destruct (mio_write_run w (w_ptr q) (w_size q) (w_nmemb q)
              Hok Hgrow ltac:(lia) Hs Hn Hptr ltac:(lia))
    as (r & w' & E & [(-> & Hm & Hwhy)|(-> & Hs0 & Hn0 & b1 & b' & a' & s'
                                        & Hm & Hs' & Ha' & Hmx & Hroom & Hmono
                                        & Hkeep & Hwr)]).
  - exists 0, w'. split; [exact E|]. split; [lia|].
    split; [|split].
    + simpl. rewrite app_nil_r, Hm. split; assumption.
    + rewrite Hm. reflexivity.
    + intros Hnever Hlt.
      destruct (Z.eq_dec (w_size q) 0) as [Hz|Hnz]; [rewrite Hz; lia|].
      destruct (Z.eq_dec (w_nmemb q) 0) as [Hz'|Hnz']; [rewrite Hz'; lia|].
      destruct (Hwhy Hnz Hnz') as (_ & Hfail).
      destruct (try_resize_succeeds (mem.pos (mio w) + w_size q * w_nmemb q)
                  w Hnever ltac:(lia)) as (w'' & Hsucc).
      congruence.
  - exists (w_nmemb q), w'. split; [exact E|]. split; [lia|].
    set (data := firstn (Z.to_nat (w_nmemb q * w_size q)) (w_ptr q)).
    assert (Hdata : blen data = w_size q * w_nmemb q).
    { unfold data, blen in *. rewrite length_firstn. lia. }
    replace (Z.to_nat (w_size q * w_nmemb q))
      with (Z.to_nat (w_nmemb q * w_size q)) in Hwr by (f_equal; lia).
    fold data in Hwr.
    rewrite Hm. split; [|split; [reflexivity|intros _ _; lia]].
    split; simpl.
    + split; simpl; lia.
    + exact Hgrow.
    + rewrite blen_app. lia.
    + lia.
    + rewrite length_app.
      replace (length acc) with (Z.to_nat (mem.pos (mio w)))
        by (unfold blen in Hpos; lia).
      rewrite (mem_write_upto _ _ _ _ Hwr). f_equal.
      rewrite (firstn_le_eq _ _ _ _ Hkeep) by lia.
      replace (Z.to_nat (mem.pos (mio w))) with (length acc)
        by (unfold blen in Hpos; lia).
      exact Hbytes.
Qed.

Lemma write_total_nonneg ws : Forall write_call_ok ws -> 0 <= write_total ws.
Proof.
  induction 1 as [|x l (H1 & H2 & _) _ IH]; simpl; [lia|].
  assert (0 <= w_size x * w_nmemb x) by (apply Z.mul_nonneg_nonneg; lia).
  lia.
Qed.

Lemma write_all_spec (ws : list write_call) :
  forall w acc,
    written_so_far (mio w) acc ->
    Forall write_call_ok ws ->
    blen acc + write_total ws <= G_MAXSIZE ->
    exists written w',
      write_all ws w = Some (written, w') /\
      blen written <= write_total ws /\
      written_so_far (mio w') (acc ++ written) /\
      (never_short (mio w) ->
       blen acc + write_total ws < G_MAXSIZE ->
       written = concat (map call_data ws)).
Proof.
  induction ws as [|q ws IH]; intros w acc Hinv Hall Hfit.
  - exists [], w. simpl. split; [reflexivity|].
    split; [unfold blen; simpl; lia|].
    rewrite app_nil_r. split; [exact Hinv|reflexivity].
  - inversion Hall as [|? ? Hq Hws]; subst. simpl in Hfit.
    pose proof (write_total_nonneg ws Hws) as Htot.
    destruct (written_so_far_step w q acc Hinv Hq ltac:(lia))
      as (n & w1 & E & Hle & Hinv1 & Hre & Hfull).
    set (data := firstn (Z.to_nat (n * w_size q)) (w_ptr q)) in *.
    assert (Hprod : 0 <= w_size q * w_nmemb q).
    { destruct Hq as (Hq1 & Hq2 & _). apply Z.mul_nonneg_nonneg; lia. }
    assert (Hdata : blen data <= w_size q * w_nmemb q).
    { unfold data, blen. rewrite length_firstn. lia. }
    destruct (IH w1 (acc ++ data) Hinv1 Hws)
      as (rest & w2 & E2 & Hlen & Hinv2 & Hall2).
    { rewrite blen_app. lia. }
    exists (data ++ rest), w2. simpl. unfold bind. rewrite E, E2. unfold ret.
    split; [reflexivity|]. split; [|split].
    + rewrite blen_app. lia.
    + rewrite app_assoc. exact Hinv2.
    + intros Hnever Hlt.
      assert (Hn : n * w_size q = w_size q * w_nmemb q)
        by (apply Hfull; [exact Hnever|lia]).
      assert (Hd : data = call_data q).
      { unfold data, call_data. rewrite Hn. reflexivity. }
      rewrite Hd. f_equal. apply Hall2.
      * destruct Hnever as (f & Hf & Hn'). exists f. split; congruence.
      * rewrite blen_app. simpl in Hlt. lia.
Qed.

Lemma read_total_nonneg rs : Forall read_call_ok rs -> 0 <= read_total rs.
Proof.
  induction 1 as [|x l (H1 & H2 & _) _ IH]; simpl; [lia|].
  assert (0 <= r_size x * r_nmemb x) by (apply Z.mul_nonneg_nonneg; lia).
  lia.
Qed.

(** A sequence of reads that asks for no more than the data from the
    cursor on gets these bytes, in order. *)
Lemma read_all_full (rs : list read_call) :
  forall w,
    mem.ungetch (mio w) = EOF ->
    0 <= mem.pos (mio w) ->
    Forall read_call_ok rs ->
    mem.pos (mio w) + read_total rs <= mem.size (mio w) ->
    mem.size (mio w) <= blen (mem.buf (mio w)) ->
    mem.size (mio w) <= G_MAXSIZE ->
    exists w',
      read_all rs w
      = Some (firstn (Z.to_nat (read_total rs))
                     (skipn (Z.to_nat (mem.pos (mio w))) (mem.buf (mio w))),
              w').
Proof.
  induction rs as [|q rs IH]; intros w Hu Hpos Hall Hroom Hbuf Hmax.
  - exists w. reflexivity.
  - inversion Hall as [|? ? Hq Hrs]; subst. simpl in Hroom.
    pose proof (read_total_nonneg rs Hrs) as Htot.
    destruct Hq as (Hq1 & Hq2 & Hq3).
    assert (Hprod : 0 <= r_size q * r_nmemb q)
      by (apply Z.mul_nonneg_nonneg; lia).
    destruct (mio_read_full w (r_ptr q) (r_size q) (r_nmemb q))
      as (n & p & w1 & E & Hn & Hbytes & Hp1 & Hb1 & Hs1 & Hu1); try lia;
      try assumption.
    destruct (IH w1 Hu1 ltac:(lia) Hrs ltac:(lia)
                ltac:(rewrite Hs1, Hb1; exact Hbuf) ltac:(lia))
      as (w2 & E2).
    exists w2. simpl. unfold bind. rewrite E, E2. unfold ret.
    rewrite Hbytes, Hp1, Hb1. do 2 f_equal.
    rewrite (Z2Nat.inj_add (r_size q * r_nmemb q) (read_total rs)) by lia.
    rewrite firstn_add_skipn, skipn_skipn. do 3 f_equal. lia.
Qed.

(** C1: on a stream whose cursor is at offset 0, as it is after
    [mio_new_memory], a sequence of calls of [mio_write] followed by
    [mio_rewind] and a sequence of calls of [mio_read] gives back the bytes
    written, in order: reads that ask for as many bytes as were written get
    exactly these bytes, reads that ask for fewer get the first of them.
    The bytes written are those of the records each call returned as
    written; when the allocator never returns [NULL] they are all the
    records of all the calls. *)
Theorem write_rewind_read_roundtrip (w : world) (ws : list write_call) :
  stream_ok (mio w) -> growable_ok (mio w) ->
  mem.pos (mio w) = 0 ->
  Forall write_call_ok ws ->
  write_total ws <= G_MAXSIZE ->
  exists written w1,
    write_all ws w = Some (written, w1) /\
    (never_short (mio w) -> write_total ws < G_MAXSIZE ->
     written = concat (map call_data ws)) /\
    (forall rs,
       Forall read_call_ok rs -> read_total rs <= blen written ->
       exists w2,
         (mio_rewind ;; read_all rs) w1
         = Some (firstn (Z.to_nat (read_total rs)) written, w2)) /\
    (forall rs,
       Forall read_call_ok rs -> read_total rs = blen written ->
       exists w2, (mio_rewind ;; read_all rs) w1 = Some (written, w2)).
Proof.
  intros Hok Hgrow Hpos Hws Hfit.
  assert (Hinv : written_so_far (mio w) []).
  { split; try assumption.
    - destruct Hok as [Hsz _ _]. lia.
    - reflexivity. }
  destruct (write_all_spec ws w [] Hinv Hws Hfit)
    as (written & w1 & E & Hlen & [Hok1 Hgrow1 Hpos1 Hps1 Hbytes1] & Hall).
  simpl in *.
  assert (Hpart : forall rs,
    Forall read_call_ok rs -> read_total rs <= blen written ->
    exists w2,
      (mio_rewind ;; read_all rs) w1
      = Some (firstn (Z.to_nat (read_total rs)) written, w2)).
  { intros rs Hrs Hle. destruct Hok1 as [Hsz Hal Hmx].
    pose proof (read_total_nonneg rs Hrs) as Htot.
    set (w1' := mkWorld (mem.set_error false
                           (mem.set_eof false
                              (mem.set_ungetch EOF
                                 (mem.set_pos 0 (mio w1))))) (errno w1)).
    destruct (read_all_full rs w1') as (w2 & E2); simpl; try lia;
      try assumption; try reflexivity.
    exists w2.
    replace ((mio_rewind ;; read_all rs) w1) with (read_all rs w1')
      by reflexivity.
    rewrite E2. simpl. do 2 f_equal.
    rewrite <- Hbytes1 at 1. rewrite firstn_firstn. f_equal.
    unfold blen in Hle. lia. }
  exists written, w1. split; [exact E|]. split; [|split].
  - intros Hnever Hlt. apply Hall; [exact Hnever|simpl; lia].
  - exact Hpart.
  - intros rs Hrs Heq. destruct (Hpart rs Hrs ltac:(lia)) as (w2 & E2).
    exists w2. rewrite E2, Heq. unfold blen. rewrite Nat2Z.id, firstn_all.
    reflexivity.
Qed.

(** A new empty stream; ["he"] is written as 2 records of 1 byte, ["llo!"]
    as 2 records of 2 bytes. *)
Lemma write_rewind_read_roundtrip_witness :
  let w := mkWorld (mio_new_memory [] 0 (Some plain_realloc) None) ENONE in
  let ws := [mkWrite [104; 101] 1 2; mkWrite [108; 108; 111; 33] 2 2] in
  exists written w1,
    write_all ws w = Some (written, w1) /\
    (never_short (mio w) -> write_total ws < G_MAXSIZE ->
     written = concat (map call_data ws)) /\
    (forall rs,
       Forall read_call_ok rs -> read_total rs <= blen written ->
       exists w2,
         (mio_rewind ;; read_all rs) w1
         = Some (firstn (Z.to_nat (read_total rs)) written, w2)) /\
    (forall rs,
       Forall read_call_ok rs -> read_total rs = blen written ->
       exists w2, (mio_rewind ;; read_all rs) w1 = Some (written, w2)).
Proof.
  intros w ws.
  apply (write_rewind_read_roundtrip w ws).
  - split; unfold blen, G_MAXSIZE; simpl; lia.
  - intros f Hf. injection Hf as <-. exact plain_realloc_spec.
  - reflexivity.
  - repeat constructor; unfold blen; simpl; lia.
  - unfold G_MAXSIZE. simpl. lia.
Defined.

(** ** What the operations leave alone *)

Section Relation.

Variable R : MIO -> MIO -> Prop.
Hypothesis R_refl : forall m, R m m.
Hypothesis R_trans : forall m1 m2 m3, R m1 m2 -> R m2 m3 -> R m1 m3.

Lemma relates_ret {A} (a : A) : relates R (ret a).
Proof. intros w a' w' H. injection H as _ <-. apply R_refl. Qed.

Lemma relates_get : relates R get.
Proof. intros w a' w' H. injection H as _ <-. apply R_refl. Qed.

Lemma relates_set_errno e : relates R (set_errno e).
Proof. intros w a' w' H. injection H as _ <-. apply R_refl. Qed.

Lemma relates_access {A} (o : option A) : relates R (access o).
Proof.
  intros w a' w' H. unfold access in H. destruct o; [|discriminate].
  injection H as _ <-. apply R_refl.
Qed.

Lemma relates_assign f : (forall m, R m (f m)) -> relates R (assign f).
Proof. intros Hf w a' w' H. injection H as _ <-. simpl. apply Hf. Qed.

Lemma relates_bind {A B} (c : M A) (k : A -> M B) :
  relates R c -> (forall a, relates R (k a)) -> relates R (bind c k).
Proof.
  intros Hc Hk w b w' H. unfold bind in H.
  destruct (c w) as [[a w1]|] eqn:E; [|discriminate].
  eapply R_trans; [eapply Hc | eapply Hk]; eauto.
Qed.

Lemma relates_exec_all :
  (forall o, relates R (exec o)) -> forall ops, relates R (exec_all ops).
Proof.
  intros Hexec ops. induction ops as [|o ops IH]; simpl.
  - apply relates_ret.
  - apply relates_bind; [apply Hexec | intros _; exact IH].
Qed.

End Relation.

(** Goes through the body of a function, leaving the [assign]s and the
    calls whose relation is not among the hypotheses. *)
Ltac relates_step Hrefl Htrans :=
  match goal with
  | |- relates _ (bind _ _) => apply (relates_bind _ Htrans); [|intros ?]
  | |- relates _ (if ?b then _ else _) => destruct b
  | |- relates _ (match ?x with _ => _ end) => destruct x
  | |- relates _ (ret _) => apply (relates_ret _ Hrefl)
  | |- relates _ get => apply (relates_get _ Hrefl)
  | |- relates _ (set_errno _) => apply (relates_set_errno _ Hrefl)
  | |- relates _ (access _) => apply (relates_access _ Hrefl)
  | |- relates _ (assign _) => apply relates_assign; intros ?
  | |- relates _ _ => solve [eauto]
  end.

Ltac relates_body Hrefl Htrans := cbv zeta; repeat relates_step Hrefl Htrans.

Lemma same_data_refl m : same_data m m.
Proof. repeat split. Qed.

Lemma same_data_trans m1 m2 m3 :
  same_data m1 m2 -> same_data m2 m3 -> same_data m1 m3.
Proof.
  intros (A1 & A2 & A3 & A4 & A5) (B1 & B2 & B3 & B4 & B5).
  repeat split; congruence.
Qed.

Lemma same_data_read_records fuel size : forall n_read ptr,
  relates same_data (read_records fuel size n_read ptr).
Proof.
  induction fuel as [|fuel IH]; intros n_read ptr; simpl;
    relates_body same_data_refl same_data_trans; repeat split.
Qed.

Lemma same_data_gets_chars fuel size : forall i s,
  relates same_data (gets_chars fuel size i s).
Proof.
  induction fuel as [|fuel IH]; intros i s; simpl;
    relates_body same_data_refl same_data_trans; repeat split.
Qed.

Lemma same_data_exec o : reads_only o = true -> relates same_data (exec o).
Proof.
  intros Hr. destruct o; try discriminate; simpl;
    unfold ignore, mio_read, mio_getc, mio_ungetc, mio_gets, mio_clearerr,
      mio_eof, mio_error, mio_seek, mio_tell, mio_rewind, mio_getpos,
      mio_setpos;
    pose proof same_data_read_records as Hrr;
    pose proof same_data_gets_chars as Hgc;
    relates_body same_data_refl same_data_trans; repeat split.
Qed.

(** X1: the operations that are not writes ([mio_read], [mio_getc],
    [mio_ungetc], [mio_gets], [mio_clearerr], [mio_eof], [mio_error],
    [mio_seek], [mio_tell], [mio_rewind], [mio_getpos], [mio_setpos]) leave
    the buffer, the size, the capacity and the callbacks as they are,
    whatever their arguments and in any number. *)
Theorem reads_leave_data (ops : list op) (w w' : world) :
  forallb reads_only ops = true ->
  exec_all ops w = Some (tt, w') ->
  same_data (mio w) (mio w').
Proof.
  revert w. induction ops as [|o ops IH]; intros w Hall H.
  - injection H as <-. apply same_data_refl.
  - simpl in Hall. apply andb_true_iff in Hall. destruct Hall as [Ho Hops].
    simpl in H. unfold bind in H.
    destruct (exec o w) as [[[] w1]|] eqn:E; [|discriminate].
    eapply same_data_trans.
    + exact (same_data_exec o Ho _ _ _ E).
    + exact (IH w1 Hops H).
Qed.

(** Reading a stream holding ["ab"] past its end, pushing a byte back,
    seeking and rewinding. *)
Lemma reads_leave_data_witness :
  let w := mkWorld (mio_new_memory [97; 98] 2 None None) ENONE in
  let ops := [OpRead [0; 0; 0] 1 3; OpUngetc 98; OpGets [0; 0; 0] 3;
              OpSeek (-1) SEEK_END; OpGetc; OpRewind] in
  exists w', exec_all ops w = Some (tt, w') /\ same_data (mio w) (mio w').
Proof.
  intros w ops. eexists. split.
  - vm_compute. reflexivity.
  - apply (reads_leave_data ops w); vm_compute; reflexivity.
Defined.

(** What [try_ensure_space] can change: buffer, capacity and size, and the
    size only upwards. *)
Lemma try_ensure_space_effect n w r w' :
  try_ensure_space n w = Some (r, w') ->
  mem.pos (mio w') = mem.pos (mio w) /\
  mem.ungetch (mio w') = mem.ungetch (mio w) /\
  mem.realloc_func (mio w') = mem.realloc_func (mio w) /\
  mem.size (mio w) <= mem.size (mio w') /\
  (exact_ok (mio w) -> exact_ok (mio w')).
Proof.
  assert (Hsame : forall e,
    mem.pos (mio (mkWorld (mio w) e)) = mem.pos (mio w) /\
    mem.ungetch (mio (mkWorld (mio w) e)) = mem.ungetch (mio w) /\
    mem.realloc_func (mio (mkWorld (mio w) e)) = mem.realloc_func (mio w) /\
    mem.size (mio w) <= mem.size (mio (mkWorld (mio w) e)) /\
    (exact_ok (mio w) -> exact_ok (mio (mkWorld (mio w) e)))).
  { intros e. simpl. repeat (split; [reflexivity || lia|]). auto. }
  unfold try_ensure_space, bind, get, ret. simpl.
  destruct (Z.gtb_spec (to_gsize (mem.pos (mio w) + n)) (mem.size (mio w)))
    as [Hgt|Hle].
  - pose proof (to_gsize_range (mem.pos (mio w) + n)) as Hrange.
    unfold is_gsize in Hrange.
    set (need := to_gsize (mem.pos (mio w) + n)) in *.
    unfold try_resize, bind, get, ret, assign, set_errno. simpl.
    destruct (mem.realloc_func (mio w)) as [f|] eqn:Ef.
    + destruct (Z.eqb_spec need G_MAXSIZE) as [Hmax|Hmax].
      { intros H. injection H as _ <-. apply Hsame. }
      destruct (Z.gtb_spec need (mem.size (mio w))) as [_|Hn]; [|lia].
      destruct (Z.leb_spec need (mem.allocated_size (mio w))) as [Hfit|Hbig].
      * intros H. injection H as _ <-. simpl.
        repeat (split; [reflexivity || assumption || lia|]).
        intros (Hs & Ha & Hg). split; [simpl; lia|]. split; assumption.
      * destruct (f (mem.buf (mio w)) _) as [newbuf|] eqn:Ere.
        -- intros H. injection H as _ <-. simpl.
           repeat (split; [reflexivity || assumption || lia|]).
           intros (Hs & Ha & Hg). destruct (Hg f Ef _ _ _ Ere) as [Hlen _].
           split; [simpl; lia|]. split; [|exact Hg].
           simpl. symmetry. apply Hlen. lia.
        -- intros H. injection H as _ <-. destruct w. apply (Hsame errno0).
    + intros H. injection H as _ <-. destruct w. apply (Hsame errno0).
  - intros H. injection H as _ <-. destruct w. apply (Hsame errno0).
Qed.

Lemma not_shrunk_refl m : not_shrunk m m.
Proof. split; [lia|reflexivity]. Qed.

Lemma not_shrunk_trans m1 m2 m3 :
  not_shrunk m1 m2 -> not_shrunk m2 m3 -> not_shrunk m1 m3.
Proof. intros (A1 & A2) (B1 & B2). split; [lia|congruence]. Qed.

Lemma not_shrunk_try_ensure_space n : relates not_shrunk (try_ensure_space n).
Proof.
  intros w r w' H. apply try_ensure_space_effect in H.
  destruct H as (_ & _ & Hr & Hs & _). split; assumption.
Qed.

Lemma not_shrunk_read_records fuel size : forall n_read ptr,
  relates not_shrunk (read_records fuel size n_read ptr).
Proof.
  induction fuel as [|fuel IH]; intros n_read ptr; simpl;
    relates_body not_shrunk_refl not_shrunk_trans;
    (split; simpl; [lia|reflexivity]).
Qed.

Lemma not_shrunk_gets_chars fuel size : forall i s,
  relates not_shrunk (gets_chars fuel size i s).
Proof.
  induction fuel as [|fuel IH]; intros i s; simpl;
    relates_body not_shrunk_refl not_shrunk_trans;
    (split; simpl; [lia|reflexivity]).
Qed.

(** Case analysis on the computation a hypothesis [H : c w = Some _] runs
    through. *)
Ltac run_cases H :=
  repeat match type of H with
         | context [match ?x with _ => _ end] =>
           lazymatch x with
           | context [match _ with _ => _ end] => fail
           | _ => let E := fresh "E" in
                  destruct x eqn:E; try discriminate H; cbv beta iota in H
           end
         end.

Lemma not_shrunk_mio_vprintf ap_copy ap :
  relates not_shrunk (mio_vprintf ap_copy ap).
Proof.
  intros w r w' H. unfold mio_vprintf in H.
  unfold bind at 1, get at 1 in H. cbv zeta in H.
  unfold bind at 1, access at 1 in H.
  destruct (mem_write [0] 0 _); [|discriminate].
  destruct (_ >=? 0); [|injection H as _ <-; apply not_shrunk_refl].
  unfold bind at 1 in H.
  destruct (try_ensure_space _ w) as [[ok w1]|] eqn:E; [|discriminate].
  apply try_ensure_space_effect in E. destruct E as (Hp & _ & Hr & Hs & _).
  destruct ok; [|injection H as _ <-; split; assumption].
  unfold bind, get, access, assign, ret in H. simpl in H.
  run_cases H; injection H as _ <-; split; simpl; auto; lia.
Qed.

Lemma not_shrunk_exec o : relates not_shrunk (exec o).
Proof.
  destruct o; simpl;
    unfold ignore, mio_printf, mio_read, mio_write, mio_putc, mio_puts,
      mio_getc, mio_ungetc, mio_gets, mio_clearerr, mio_eof, mio_error,
      mio_seek, mio_tell, mio_rewind, mio_getpos, mio_setpos;
    pose proof not_shrunk_read_records as Hrr;
    pose proof not_shrunk_gets_chars as Hgc;
    pose proof not_shrunk_try_ensure_space as Hes;
    pose proof not_shrunk_mio_vprintf as Hvp;
    relates_body not_shrunk_refl not_shrunk_trans;
    (split; simpl; [lia|reflexivity]).
Qed.

(** X2: no operation makes the stream shorter: after any sequence of
    operations the size is at least what it was (the branch of [try_resize]
    that truncates is never taken, since [try_ensure_space] calls it for a
    larger size only, and [mio_vprintf] sets the size no lower than the old
    one). *)
Theorem size_never_decreases (ops : list op) (w w' : world) :
  exec_all ops w = Some (tt, w') ->
  mem.size (mio w) <= mem.size (mio w').
Proof.
  intros H.
  exact (proj1 (relates_exec_all _ not_shrunk_refl not_shrunk_trans
                  not_shrunk_exec ops w tt w' H)).
Qed.

(** A formatted print whose two runs disagree, a write and a put on a
    stream of 2 bytes. *)
Lemma size_never_decreases_witness :
  let w := mkWorld (mio_new_memory [97; 98] 2 (Some plain_realloc) None)
                   ENONE in
  let ops := [OpVprintf (vsnprintf_text [49; 50; 51]) (vsnprintf_text [88]);
              OpWrite [1; 2; 3] 1 3; OpPutc 4] in
  exists w', exec_all ops w = Some (tt, w') /\ 2 <= mem.size (mio w').
Proof.
  intros w ops. eexists. split.
  - vm_compute. reflexivity.
  - apply (size_never_decreases ops w). vm_compute. reflexivity.
Defined.

(** ** The representation invariant *)

Lemma load_inv b i c : load b i = Some c -> 0 <= i < blen b.
Proof.
  unfold load. destruct (in_bounds b i 1) eqn:E; [|discriminate].
  apply in_bounds_iff in E. lia.
Qed.

Lemma store_len b i v b' : store b i v = Some b' -> blen b' = blen b.
Proof. apply mem_write_len. Qed.

Lemma memcpy_len dst doff src soff n b :
  memcpy dst doff src soff n = Some b -> blen b = blen dst.
Proof.
  unfold memcpy. destruct (mem_read src soff n); [|discriminate].
  apply mem_write_len.
Qed.

Lemma exact_ok_same_data m m' : same_data m m' -> exact_ok m -> exact_ok m'.
Proof.
  intros (Hb & Hs & Ha & Hr & _) (H1 & H2 & H3).
  unfold exact_ok, growable_ok. rewrite Hb, Hs, Ha, Hr. auto.
Qed.

(** A store into the buffer and a move of the cursor keep the invariant. *)
Lemma exact_ok_stored m b p :
  exact_ok m -> blen b = blen (mem.buf m) ->
  exact_ok (mem.set_pos p (mem.set_buf b m)).
Proof.
  intros (H1 & H2 & H3) Hb. unfold exact_ok, growable_ok. simpl.
  rewrite Hb. auto.
Qed.

Lemma exact_ok_mio_write ptr size nmemb : keeps exact_ok (mio_write ptr size nmemb).
Proof.
  intros w r w' H Hok. unfold mio_write in H.
  destruct (_ && _); [|injection H as _ <-; exact Hok].
  unfold bind at 1 in H.
  destruct (try_ensure_space _ w) as [[ok w1]|] eqn:E; [|discriminate].
  apply try_ensure_space_effect in E. destruct E as (_ & _ & _ & _ & Hk).
  destruct ok; [|injection H as _ <-; auto].
  unfold bind, get, access, assign, ret in H. simpl in H.
  run_cases H. injection H as _ <-. simpl.
  apply exact_ok_stored; [auto|]. eapply memcpy_len; eauto.
Qed.

Lemma exact_ok_mio_putc c : keeps exact_ok (mio_putc c).
Proof.
  intros w r w' H Hok. unfold mio_putc in H.
  unfold bind at 1 in H.
  destruct (try_ensure_space _ w) as [[ok w1]|] eqn:E; [|discriminate].
  apply try_ensure_space_effect in E. destruct E as (_ & _ & _ & _ & Hk).
  destruct ok; [|injection H as _ <-; auto].
  unfold bind, get, access, assign, ret in H. simpl in H.
  run_cases H. injection H as _ <-. simpl.
  apply exact_ok_stored; [auto|]. eapply store_len; eauto.
Qed.

Lemma exact_ok_mio_puts s : keeps exact_ok (mio_puts s).
Proof.
  intros w r w' H Hok. unfold mio_puts in H. cbv zeta in H.
  unfold bind at 1 in H.
  destruct (try_ensure_space _ w) as [[ok w1]|] eqn:E; [|discriminate].
  apply try_ensure_space_effect in E. destruct E as (_ & _ & _ & _ & Hk).
  destruct ok; [|injection H as _ <-; auto].
  unfold bind, get, access, assign, ret in H. simpl in H.
  run_cases H. injection H as _ <-. simpl.
  apply exact_ok_stored; [auto|]. eapply memcpy_len; eauto.
Qed.

Lemma exact_ok_mio_vprintf ap_copy ap : keeps exact_ok (mio_vprintf ap_copy ap).
Proof.
  intros w r w' H Hok. unfold mio_vprintf in H.
  unfold bind at 1, get at 1 in H. cbv zeta in H.
  unfold bind at 1, access at 1 in H.
  destruct (mem_write [0] 0 _); [|discriminate].
  destruct (_ >=? 0); [|injection H as _ <-; exact Hok].
  unfold bind at 1 in H.
  destruct (try_ensure_space _ w) as [[ok w1]|] eqn:E; [|discriminate].
  apply try_ensure_space_effect in E. destruct E as (Hp & _ & _ & Hs & Hk).
  destruct ok; [|injection H as _ <-; auto].
  destruct (Hk Hok) as (H1 & H2 & H3).
  destruct Hok as (H0 & _ & _).
  unfold bind, get, access, assign, ret in H. simpl in H.
  run_cases H; injection H as _ <-;
    match goal with
    | Hl : load _ _ = Some _, Hw : mem_write _ _ _ = Some _,
      Hst : store _ _ _ = Some _ |- _ =>
      apply load_inv in Hl; apply mem_write_len in Hw; apply store_len in Hst
    end;
    unfold exact_ok, growable_ok; simpl.
  - match goal with
    | Hb : (_ && _) = true |- _ =>
      apply andb_true_iff in Hb; destruct Hb as [_ Hb];
      apply Z.eqb_eq in Hb; rewrite Hb
    end.
    rewrite <- Hp. split; [lia|]. split; [congruence|exact H3].
  - split; [lia|]. split; [congruence|exact H3].
Qed.

Lemma exact_ok_exec o : keeps exact_ok (exec o).
Proof.
  destruct (reads_only o) eqn:Hr.
  - intros w a w' H. apply exact_ok_same_data.
    exact (same_data_exec o Hr w a w' H).
  - destruct o; try discriminate; simpl; unfold ignore, mio_printf;
      intros w a w' H; unfold bind in H;
      match type of H with
      | match ?c w with _ => _ end = _ =>
        destruct (c w) as [[r w1]|] eqn:E; [|discriminate]
      end;
      injection H as _ <-.
    + exact (exact_ok_mio_write _ _ _ _ _ _ E).
    + exact (exact_ok_mio_putc _ _ _ _ E).
    + exact (exact_ok_mio_puts _ _ _ _ E).
    + exact (exact_ok_mio_vprintf _ _ _ _ _ E).
    + exact (exact_ok_mio_vprintf _ _ _ _ _ E).
Qed.

(** X3: the stream made by [mio_new_memory] from a block, its size and a
    [realloc] that keeps its contract satisfies the representation
    invariant, size <= capacity = size of the block, and every sequence of
    operations keeps it, whatever the arguments. *)
Theorem invariant_kept (ops : list op) (w w' : world) :
  exact_ok (mio w) ->
  exec_all ops w = Some (tt, w') ->
  exact_ok (mio w') /\
  (forall data realloc_func free_func,
     (forall f, realloc_func = Some f -> realloc_spec f) ->
     exact_ok (mio_new_memory data (blen data) realloc_func free_func)).
Proof.
  intros Hok H. split.
  - refine (relates_exec_all (fun m m' => exact_ok m -> exact_ok m') _ _
              exact_ok_exec ops w tt w' H Hok); auto.
  - intros data rf ff Hrf. unfold exact_ok, growable_ok. simpl.
    pose proof (blen_nonneg data).
    split; [lia|]. split; [reflexivity|exact Hrf].
Qed.

(** Writes, a formatted print and a put that make a stream of 2 bytes
    grow. *)
Lemma invariant_kept_witness :
  let w := mkWorld (mio_new_memory [97; 98] (blen [97; 98])
                      (Some plain_realloc) None) ENONE in
  let ops := [OpWrite [1; 2; 3] 1 3;
              OpVprintf (vsnprintf_text [49; 50; 51])
                        (vsnprintf_text [49; 50; 51]);
              OpPutc 4; OpRewind; OpPuts [5; 6]] in
  exists w', exec_all ops w = Some (tt, w') /\ exact_ok (mio w').
Proof.
  intros w ops. eexists. split.
  - vm_compute. reflexivity.
  - apply (invariant_kept ops w).
    + unfold exact_ok, growable_ok. simpl. unfold blen. simpl.
      split; [lia|]. split; [reflexivity|].
      intros f Hf. injection Hf as <-. exact plain_realloc_spec.
    + vm_compute. reflexivity.
Defined.

(** X4: a position saved by [mio_getpos] while the cursor is within the
    data can be restored after any sequence of operations: [mio_setpos]
    then returns 0, puts the cursor back and drops the pushed-back byte. *)
Theorem saved_position_restorable
    (w w0 w1 : world) (p p1 : MIOPos) (ops : list op) :
  mem.pos (mio w) <= mem.size (mio w) ->
  mio_getpos p w = Some ((0, p1), w0) ->
  exec_all ops w0 = Some (tt, w1) ->
  exists w2,
    mio_setpos p1 w1 = Some (0, w2) /\
    mem.pos (mio w2) = mem.pos (mio w) /\
    mem.ungetch (mio w2) = EOF.
Proof.
  intros Hin Hget Hops.
  unfold mio_getpos, bind, get, ret, set_errno in Hget. simpl in Hget.
  destruct (mem.pos (mio w) =? to_gsize (-1)); [discriminate|].
  injection Hget as <- <-.
  pose proof (relates_exec_all _ not_shrunk_refl not_shrunk_trans
                not_shrunk_exec ops w tt w1 Hops) as [Hsz _].
  unfold mio_setpos, bind, get, ret, assign. simpl.
  destruct (Z.gtb_spec (mem.pos (mio w)) (mem.size (mio w1))); [lia|].
  eexists. split; [reflexivity|]. split; reflexivity.
Qed.

(** The cursor of a stream holding ["ab"] is saved at offset 1; the stream
    is then read to its end and written to. *)
Lemma saved_position_restorable_witness :
  let w := mkWorld (mem.set_pos 1
                      (mio_new_memory [97; 98] 2 (Some plain_realloc) None))
                   ENONE in
  let ops := [OpRead [0; 0] 1 2; OpPuts [99; 100]; OpUngetc 100] in
  exists w1 w2,
    exec_all ops w = Some (tt, w1) /\
    mio_setpos (mkMIOPos MIO_TYPE_MEMORY 1) w1 = Some (0, w2) /\
    mem.pos (mio w2) = 1 /\
    mem.ungetch (mio w2) = EOF.
Proof.
  intros w ops.
  assert (Hrun : exists w1, exec_all ops w = Some (tt, w1))
    by (eexists; vm_compute; reflexivity).
  destruct Hrun as (w1 & Hrun). exists w1.
  destruct (saved_position_restorable w w w1 (mkMIOPos MIO_TYPE_FILE 0)
              (mkMIOPos MIO_TYPE_MEMORY 1) ops) as (w2 & H1 & H2 & H3).
  - simpl. lia.
  - vm_compute. reflexivity.
  - exact Hrun.
  - exists w2. repeat split; assumption.
Defined.


(** ** Seeking from the cursor and from the end, [mio_tell] *)

(** X5: [mio_seek] from the cursor succeeds exactly when the cursor plus
    the offset is between 0 and the size, and then makes it the cursor,
    clears the end-of-file flag and drops the pushed-back byte; otherwise it
    returns -1, sets [errno] to [EINVAL] and changes nothing else. *)
Theorem seek_cur_spec (w : world) (offset : Z) :
  is_glong offset ->
  is_gsize (mem.pos (mio w)) ->
  mem.pos (mio w) + offset <= G_MAXSIZE ->
  (0 <= mem.pos (mio w) + offset <= mem.size (mio w) ->
   mio_seek offset SEEK_CUR w
   = Some (0, mkWorld (mem.set_ungetch EOF
                         (mem.set_eof false
                            (mem.set_pos (mem.pos (mio w) + offset) (mio w))))
                      (errno w))) /\
  (~ 0 <= mem.pos (mio w) + offset <= mem.size (mio w) ->
   mio_seek offset SEEK_CUR w = Some (-1, mkWorld (mio w) EINVAL)).
Proof.
  intros Hoff Hpos Hfit. destruct w as [m e]. simpl in *.
  unfold is_glong, is_gsize, G_MAXSIZE in *.
  unfold mio_seek, bind, get, ret, assign, set_errno. simpl.
  assert (Hneg : offset < 0 -> to_gsize (- offset) = - offset).
  { intros H. apply to_gsize_id. unfold is_gsize, G_MAXSIZE. lia. }
  split; intros H.
  - rewrite (to_gsize_id (mem.pos m + offset))
      by (unfold is_gsize, G_MAXSIZE; lia).
    destruct (Z.ltb_spec offset 0) as [Hlt|Hge]; simpl.
    + rewrite (Hneg Hlt).
      destruct (Z.gtb_spec (- offset) (mem.pos m)); [lia|]. simpl.
      destruct (Z.gtb_spec (mem.pos m + offset) (mem.size m)); [lia|].
      reflexivity.
    + destruct (Z.gtb_spec (mem.pos m + offset) (mem.size m)); [lia|].
      reflexivity.
  - destruct (Z.ltb_spec offset 0) as [Hlt|Hge]; simpl.
    + rewrite (Hneg Hlt).
      destruct (Z.gtb_spec (- offset) (mem.pos m)); [reflexivity|]. simpl.
      rewrite (to_gsize_id (mem.pos m + offset))
        by (unfold is_gsize, G_MAXSIZE; lia).
      destruct (Z.gtb_spec (mem.pos m + offset) (mem.size m));
        [reflexivity|lia].
    + rewrite (to_gsize_id (mem.pos m + offset))
        by (unfold is_gsize, G_MAXSIZE; lia).
      destruct (Z.gtb_spec (mem.pos m + offset) (mem.size m));
        [reflexivity|lia].
Qed.

(** At offset 2 of 5 bytes: 3 forward reaches the end, 3 backward is
    refused. *)
Lemma seek_cur_spec_witness :
  let m := mem.set_pos 2 (mio_new_memory [1; 2; 3; 4; 5] 5 None None) in
  mio_seek 3 SEEK_CUR (mkWorld m ENONE)
  = Some (0, mkWorld (mem.set_pos 5 m) ENONE) /\
  mio_seek (-3) SEEK_CUR (mkWorld m ENONE) = Some (-1, mkWorld m EINVAL).
Proof.
  intros m.
  assert (H3 : is_glong 3) by (unfold is_glong; lia).
  assert (H3' : is_glong (-3)) by (unfold is_glong; lia).
  assert (Hp : is_gsize (mem.pos (mio (mkWorld m ENONE))))
    by (unfold is_gsize, G_MAXSIZE; simpl; lia).
  split.
  - apply (proj1 (seek_cur_spec (mkWorld m ENONE) 3 H3 Hp
                    ltac:(unfold G_MAXSIZE; simpl; lia))).
    simpl. lia.
  - apply (proj2 (seek_cur_spec (mkWorld m ENONE) (-3) H3' Hp
                    ltac:(unfold G_MAXSIZE; simpl; lia))).
    simpl. lia.
Defined.

(** X6: [mio_seek] from the end succeeds exactly when the offset is
    between minus the size and 0, and then puts the cursor at the size plus
    the offset, clears the end-of-file flag and drops the pushed-back byte;
    otherwise it returns -1, sets [errno] to [EINVAL] and changes nothing
    else. *)
Theorem seek_end_spec (w : world) (offset : Z) :
  is_glong offset ->
  is_gsize (mem.size (mio w)) ->
  (- mem.size (mio w) <= offset <= 0 ->
   mio_seek offset SEEK_END w
   = Some (0, mkWorld (mem.set_ungetch EOF
                         (mem.set_eof false
                            (mem.set_pos (mem.size (mio w) + offset) (mio w))))
                      (errno w))) /\
  (~ - mem.size (mio w) <= offset <= 0 ->
   mio_seek offset SEEK_END w = Some (-1, mkWorld (mio w) EINVAL)).
Proof.
  intros Hoff Hsize. destruct w as [m e]. simpl in *.
  unfold is_glong, is_gsize, G_MAXSIZE in *.
  unfold mio_seek, bind, get, ret, assign, set_errno. simpl.
  assert (Hneg : offset <= 0 -> to_gsize (- offset) = - offset).
  { intros H. apply to_gsize_id. unfold is_gsize, G_MAXSIZE. lia. }
  split; intros H.
  - destruct (Z.gtb_spec offset 0); [lia|]. simpl.
    rewrite Hneg by lia.
    destruct (Z.gtb_spec (- offset) (mem.size m)); [lia|].
    rewrite (to_gsize_id (mem.size m - - offset))
      by (unfold is_gsize, G_MAXSIZE; lia).
    replace (mem.size m - - offset) with (mem.size m + offset) by lia.
    reflexivity.
  - destruct (Z.gtb_spec offset 0); [reflexivity|]. simpl.
    rewrite Hneg by lia.
    destruct (Z.gtb_spec (- offset) (mem.size m)); [reflexivity|lia].
Qed.

(** On 5 bytes: -5 from the end is the start, -6 and 1 are refused. *)
Lemma seek_end_spec_witness :
  let m := mem.set_pos 2 (mio_new_memory [1; 2; 3; 4; 5] 5 None None) in
  mio_seek (-5) SEEK_END (mkWorld m ENONE)
  = Some (0, mkWorld (mem.set_pos 0 m) ENONE) /\
  mio_seek (-6) SEEK_END (mkWorld m ENONE) = Some (-1, mkWorld m EINVAL) /\
  mio_seek 1 SEEK_END (mkWorld m ENONE) = Some (-1, mkWorld m EINVAL).
Proof.
  intros m.
  assert (Hs : is_gsize (mem.size (mio (mkWorld m ENONE))))
    by (unfold is_gsize, G_MAXSIZE; simpl; lia).
  split; [|split].
  - apply (proj1 (seek_end_spec (mkWorld m ENONE) (-5)
                    ltac:(unfold is_glong; lia) Hs)).
    simpl. lia.
  - apply (proj2 (seek_end_spec (mkWorld m ENONE) (-6)
                    ltac:(unfold is_glong; lia) Hs)).
    simpl. lia.
  - apply (proj2 (seek_end_spec (mkWorld m ENONE) 1
                    ltac:(unfold is_glong; lia) Hs)).
    simpl. lia.
Defined.

Lemma to_glong_small z : 0 <= z <= 9223372036854775807 -> to_glong z = z.
Proof.
  intros H. unfold to_glong, to_signed, gsize_modulus.
  rewrite Z.mod_small by lia.
  change (18446744073709551616 / 2) with 9223372036854775808.
  destruct (Z.ltb_spec z 9223372036854775808); [reflexivity|lia].
Qed.

(** X7: after a seek from the start that succeeds, [mio_tell] returns the
    offset sought. *)
Theorem tell_after_seek (w : world) (offset : Z) :
  is_glong offset ->
  0 <= offset <= mem.size (mio w) ->
  exists w',
    (mio_seek offset SEEK_SET ;; mio_tell) w = Some (offset, w') /\
    mem.pos (mio w') = offset.
Proof.
  intros Hoff H. destruct w as [m e]. simpl in *.
  unfold mio_seek, mio_tell, bind, get, ret, assign, set_errno. simpl.
  rewrite (glong_to_gsize offset Hoff) by lia.
  destruct (Z.ltb_spec offset 0); [lia|].
  destruct (Z.gtb_spec offset (mem.size m)); [lia|]. simpl.
  rewrite to_glong_small by (unfold is_glong in Hoff; lia).
  eexists. split; reflexivity.
Qed.

Lemma tell_after_seek_witness :
  exists w',
    (mio_seek 3 SEEK_SET ;; mio_tell)
      (mkWorld (mio_new_memory [1; 2; 3; 4; 5] 5 None None) ENONE)
    = Some (3, w') /\
    mem.pos (mio w') = 3.
Proof.
  apply (tell_after_seek
           (mkWorld (mio_new_memory [1; 2; 3; 4; 5] 5 None None) ENONE) 3).
  - unfold is_glong. lia.
  - simpl. lia.
Defined.

(** X8: after [mio_ungetc] at offset 0 the cursor is [(gsize)-1] and
    [mio_tell] returns -1, the value it returns for a failure; the
    [mio_getc] that takes the byte back puts the cursor at 0 again. *)
Theorem tell_after_ungetc_at_start (w : world) (c : Z) :
  mem.pos (mio w) = 0 ->
  mem.ungetch (mio w) = EOF ->
  c <> EOF ->
  exists w1 w2,
    mio_ungetc c w = Some (c, w1) /\
    mio_tell w1 = Some (-1, w1) /\
    mio_getc w1 = Some (c, w2) /\
    mio_tell w2 = Some (0, w2).
Proof.
  intros Hp Hu Hc. destruct w as [m e]. simpl in *.
  unfold mio_ungetc, mio_tell, mio_getc, bind, get, ret, assign. simpl.
  rewrite Hu, Hp. destruct (Z.eqb_spec c EOF); [contradiction|]. simpl.
  do 2 eexists. split; [reflexivity|]. simpl.
  split; [reflexivity|].
  destruct (Z.eqb_spec c EOF); [contradiction|]. simpl.
  split; reflexivity.
Qed.

Lemma tell_after_ungetc_at_start_witness :
  let w := mkWorld (mio_new_memory [97] 1 None None) ENONE in
  exists w1 w2,
    mio_ungetc 120 w = Some (120, w1) /\
    mio_tell w1 = Some (-1, w1) /\
    mio_getc w1 = Some (120, w2) /\
    mio_tell w2 = Some (0, w2).
Proof.
  intros w. apply (tell_after_ungetc_at_start w 120).
  - reflexivity.
  - reflexivity.
  - discriminate.
Defined.

(** ** Single characters and strings: [mio_putc], [mio_puts], [mio_getc] *)

Lemma to_guchar_range c : 0 <= to_guchar c <= 255.
Proof.
  unfold to_guchar. pose proof (Z.mod_pos_bound c 256 ltac:(lia)). lia.
Qed.

(** The two ways a call of [mio_putc] ends. *)
Lemma mio_putc_run (w : world) (c : Z) :
  stream_ok (mio w) -> growable_ok (mio w) ->
  0 <= mem.pos (mio w) ->
  mem.pos (mio w) + 1 <= G_MAXSIZE ->
  exists r w',
    mio_putc c w = Some (r, w') /\
    ((r = to_guchar c /\ r <> EOF /\
      mem.pos (mio w') = mem.pos (mio w) + 1 /\
      mem.pos (mio w') <= mem.size (mio w') /\
      mem.size (mio w') <= blen (mem.buf (mio w')) /\
      mem.size (mio w') <= G_MAXSIZE /\
      nth_error (mem.buf (mio w')) (Z.to_nat (mem.pos (mio w)))
      = Some (to_guchar c) /\
      (forall i : nat,
         Z.of_nat i < mem.size (mio w) -> Z.of_nat i <> mem.pos (mio w) ->
         nth_error (mem.buf (mio w')) i = nth_error (mem.buf (mio w)) i))
     \/
     (r = EOF /\ mio w' = mio w /\ mem.pos (mio w) + 1 > mem.size (mio w))) /\
    (mem.pos (mio w) + 1 <= mem.size (mio w) -> r = to_guchar c).
Proof.
  intros Hok Hgrow Hpos Hfit.
  pose proof (to_guchar_range c) as Hc.
  unfold mio_putc. unfold bind at 1.
  destruct (try_ensure_space_total 1 w) as (ok & w1 & E). rewrite E.
  destruct ok.
  - destruct (try_ensure_space_true 1 w w1 Hok Hgrow Hpos ltac:(lia) Hfit E)
      as (b1 & a' & s' & -> & Hs' & Ha' & Hmx & Hroom & Hmono & Hkeep).
    unfold bind at 1, get at 1. simpl mio. simpl mem.buf. simpl mem.pos.
    assert (Hst : exists b2,
               store b1 (mem.pos (mio w)) (to_guchar c) = Some b2).
    { unfold store. rewrite mem_write_ok; [eauto|lia|].
      unfold blen in *. simpl. lia. }
    destruct Hst as (b2 & Hst).
    unfold bind at 1, access at 1. rewrite Hst.
    unfold bind, assign, ret. simpl.
    rewrite (to_gsize_id (mem.pos (mio w) + 1)) by (unfold is_gsize; lia).
    do 2 eexists. split; [reflexivity|]. simpl. split; [|reflexivity].
    left. split; [reflexivity|]. split; [unfold EOF; lia|].
    split; [reflexivity|]. split; [lia|].
    split; [rewrite (store_len _ _ _ _ Hst); lia|]. split; [lia|].
    split; [exact (store_nth_same _ _ _ _ Hst)|].
    intros i Hi Hne. unfold store in Hst.
    rewrite (mem_write_nth_outside _ _ _ _ i Hst)
      by (unfold blen; simpl; lia).
    apply (firstn_nth_error _ _ _ _ Hkeep). lia.
  - apply try_ensure_space_false in E. destruct E as (Hm & Hgt & _).
    rewrite to_gsize_id in Hgt by (unfold is_gsize; lia).
    unfold ret. do 2 eexists. split; [reflexivity|]. split.
    + right. split; [reflexivity|]. split; [assumption|lia].
    + intros Hle. lia.
Qed.



(** The two ways a call of [mio_puts] ends. *)
Lemma mio_puts_run (w : world) (s : list Z) :
  stream_ok (mio w) -> growable_ok (mio w) ->
  0 <= mem.pos (mio w) ->
  mem.pos (mio w) + blen s <= G_MAXSIZE ->
  exists r w',
    mio_puts s w = Some (r, w') /\
    ((r = 1 /\
      mem.pos (mio w') = mem.pos (mio w) + blen s /\
      mem.pos (mio w') <= mem.size (mio w') /\
      mem_read (mem.buf (mio w')) (mem.pos (mio w)) (blen s) = Some s /\
      (forall i : nat,
         Z.of_nat i < mem.size (mio w) ->
         Z.of_nat i < mem.pos (mio w)
         \/ mem.pos (mio w) + blen s <= Z.of_nat i ->
         nth_error (mem.buf (mio w')) i = nth_error (mem.buf (mio w)) i))
     \/
     (r = EOF /\ mio w' = mio w /\
      mem.pos (mio w) + blen s > mem.size (mio w))) /\
    (mem.pos (mio w) + blen s <= mem.size (mio w) -> r = 1).
Proof.
  intros Hok Hgrow Hpos Hfit.
  pose proof (blen_nonneg s) as Hs.
  unfold mio_puts. cbv zeta. unfold bind at 1.
  destruct (try_ensure_space_total (blen s) w) as (ok & w1 & E). rewrite E.
  destruct ok.
  - destruct (try_ensure_space_true (blen s) w w1 Hok Hgrow Hpos Hs Hfit E)
      as (b1 & a' & s' & -> & Hs' & Ha' & Hmx & Hroom & Hmono & Hkeep).
    unfold bind at 1, get at 1. simpl mio. simpl mem.buf. simpl mem.pos.
    unfold memcpy. rewrite (mem_read_ok s 0 (blen s)) by lia.
    simpl skipn. unfold blen at 1. rewrite Nat2Z.id, firstn_all.
    pose proof (mem_write_ok b1 (mem.pos (mio w)) s Hpos ltac:(lia)) as Hw.
    unfold bind at 1, access at 1. rewrite Hw.
    unfold bind, assign, ret. simpl.
    rewrite (to_gsize_id (mem.pos (mio w) + blen s))
      by (unfold is_gsize; lia).
    do 2 eexists. split; [reflexivity|]. simpl. split; [|reflexivity].
    left. split; [reflexivity|]. split; [reflexivity|]. split; [lia|].
    split; [exact (mem_write_read _ _ _ _ Hw)|].
    intros i Hi Hout.
    rewrite (mem_write_nth_outside _ _ _ _ i Hw) by lia.
    apply (firstn_nth_error _ _ _ _ Hkeep). lia.
  - apply try_ensure_space_false in E. destruct E as (Hm & Hgt & _).
    rewrite to_gsize_id in Hgt by (unfold is_gsize; lia).
    unfold ret. do 2 eexists. split; [reflexivity|]. split.
    + right. split; [reflexivity|]. split; [assumption|lia].
    + intros Hle. lia.
Qed.



Lemma skipn_nth_error {A} (l : list A) (i : nat) (c : A) :
  nth_error l i = Some c -> skipn i l = c :: skipn (S i) l.
Proof.
  revert l. induction i as [|i IH]; intros [|x l] H; try discriminate.
  - injection H as ->. reflexivity.
  - simpl in H. simpl. rewrite (IH l H). reflexivity.
Qed.

(** [mio_getc] with nothing pushed back and a byte left. *)
Lemma mio_getc_at (w : world) (c : Z) :
  mem.ungetch (mio w) = EOF ->
  mem.pos (mio w) < mem.size (mio w) ->
  load (mem.buf (mio w)) (mem.pos (mio w)) = Some c ->
  mio_getc w
  = Some (c, mkWorld (mem.set_pos (to_gsize (mem.pos (mio w) + 1)) (mio w))
                     (errno w)).
Proof.
  intros Hu Hlt Hc. unfold mio_getc, bind, get, access, assign, ret. simpl.
  rewrite Hu. change (negb (EOF =? EOF)) with false. cbv iota.
  destruct (Z.ltb_spec (mem.pos (mio w)) (mem.size (mio w))); [|lia].
  rewrite Hc. reflexivity.
Qed.

(** [n] calls of [mio_getc] with nothing pushed back and [n] bytes left. *)
Lemma getc_n_run (n : nat) :
  forall w,
    mem.ungetch (mio w) = EOF ->
    0 <= mem.pos (mio w) ->
    mem.pos (mio w) + Z.of_nat n <= mem.size (mio w) ->
    mem.size (mio w) <= blen (mem.buf (mio w)) ->
    mem.size (mio w) <= G_MAXSIZE ->
    getc_n n w
    = Some (firstn n (skipn (Z.to_nat (mem.pos (mio w))) (mem.buf (mio w))),
            mkWorld (mem.set_pos (mem.pos (mio w) + Z.of_nat n) (mio w))
                    (errno w)).
Proof.
  induction n as [|n IH]; intros w Hu Hpos Hroom Hbuf Hmax.
  - simpl. unfold ret. rewrite Z.add_0_r. destruct w as [[] ?]. reflexivity.
  - destruct (load_ok (mem.buf (mio w)) (mem.pos (mio w)) ltac:(lia))
      as (c & Hc & Hcn).
    simpl getc_n. unfold bind at 1.
    rewrite (mio_getc_at w c Hu ltac:(lia) Hc).
    rewrite (to_gsize_id (mem.pos (mio w) + 1)) by (unfold is_gsize; lia).
    unfold bind at 1.
    rewrite IH by (simpl; try assumption; lia).
    unfold ret. cbn [mio errno mem.pos mem.buf mem.set_pos].
    rewrite (skipn_nth_error _ _ _ Hcn).
    replace (Z.to_nat (mem.pos (mio w) + 1))
      with (S (Z.to_nat (mem.pos (mio w)))) by lia.
    replace (mem.pos (mio w) + 1 + Z.of_nat n)
      with (mem.pos (mio w) + Z.of_nat (S n)) by lia.
    reflexivity.
Qed.

(** X11: with nothing pushed back and the cursor within the data, as many
    calls of [mio_getc] as there are bytes left return these bytes in order
    and leave the end-of-file flag as it was; the next call returns [EOF],
    sets the flag and leaves the cursor at the size. *)
Theorem getc_enumerates (w : world) :
  stream_ok (mio w) ->
  mem.ungetch (mio w) = EOF ->
  0 <= mem.pos (mio w) <= mem.size (mio w) ->
  exists w1 w2,
    getc_n (Z.to_nat (mem.size (mio w) - mem.pos (mio w))) w
    = Some (skipn (Z.to_nat (mem.pos (mio w))) (valid_bytes (mio w)), w1) /\
    mem.pos (mio w1) = mem.size (mio w) /\
    mem.eof (mio w1) = mem.eof (mio w) /\
    mio_getc w1 = Some (EOF, w2) /\
    mem.eof (mio w2) = true /\
    mem.pos (mio w2) = mem.size (mio w).
Proof.
  intros [Hsz Hal Hmx] Hu Hpos.
  rewrite getc_n_run; try assumption; try lia.
  do 2 eexists. split; [|split; [|split; [|split; [|split]]]].
  - f_equal. f_equal. unfold valid_bytes.
    rewrite skipn_firstn_comm. f_equal. lia.
  - simpl. lia.
  - reflexivity.
  - unfold mio_getc, bind, get, assign, ret. simpl. rewrite Hu. simpl.
    destruct (Z.ltb_spec (mem.pos (mio w)
                          + Z.of_nat (Z.to_nat (mem.size (mio w)
                                                - mem.pos (mio w))))
                         (mem.size (mio w))); [lia|].
    reflexivity.
  - reflexivity.
  - simpl. lia.
Qed.

(** From offset 1 of ["abc"]. *)
Lemma getc_enumerates_witness :
  let w := mkWorld (mem.set_pos 1 (mio_new_memory [97; 98; 99] 3 None None))
                   ENONE in
  exists w1 w2,
    getc_n (Z.to_nat (3 - 1)) w = Some ([98; 99], w1) /\
    mem.pos (mio w1) = 3 /\
    mem.eof (mio w1) = false /\
    mio_getc w1 = Some (EOF, w2) /\
    mem.eof (mio w2) = true /\
    mem.pos (mio w2) = 3.
Proof.
  intros w. apply (getc_enumerates w).
  - split; unfold blen, G_MAXSIZE; simpl; lia.
  - reflexivity.
  - simpl. lia.
Defined.

(** ** [mio_vprintf] when both runs of [vsnprintf] agree *)

(** Writing [data] and a terminator and then putting back the byte the
    terminator replaced comes to writing [data]. *)
Lemma mem_write_terminator_undone b off data x c b2 b3 :
  mem_write b off (data ++ [x]) = Some b2 ->
  store b2 (off + blen data) c = Some b3 ->
  nth_error b (Z.to_nat (off + blen data)) = Some c ->
  mem_write b off data = Some b3.
Proof.
  intros Hw Hst Hc.
  apply mem_write_inv in Hw. destruct Hw as (H1 & H2 & Hb2).
  unfold store in Hst. apply mem_write_inv in Hst.
  destruct Hst as (H3 & H4 & Hb3).
  rewrite blen_app in H2. unfold blen in *. simpl in *.
  rewrite mem_write_ok by (unfold blen; lia). f_equal.
  set (P := firstn (Z.to_nat off) b ++ data) in *.
  assert (HP : length P = (Z.to_nat off + length data)%nat).
  { unfold P. rewrite length_app, length_firstn. lia. }
  assert (Hb2' : b2 = P ++ x :: skipn (Z.to_nat off + length (data ++ [x])) b).
  { rewrite Hb2. unfold P. rewrite <- !app_assoc. reflexivity. }
  rewrite length_app in Hb2'. simpl in Hb2'.
  rewrite Hb3.
  replace (Z.to_nat (off + Z.of_nat (length data)))
    with (Z.to_nat off + length data)%nat in * by lia.
  rewrite Hb2' at 1. rewrite firstn_app, HP, Nat.sub_diag. simpl.
  rewrite (@firstn_all2 _ (Z.to_nat off + length data)%nat P) by lia.
  rewrite app_nil_r.
  unfold P. rewrite <- app_assoc. do 2 f_equal.
  rewrite (skipn_nth_error _ _ _ Hc). f_equal.
  rewrite Hb2'. rewrite skipn_app, HP.
  rewrite (@skipn_all2 _ (Z.to_nat off + length data + 1)%nat P) by lia.
  simpl.
  replace (Z.to_nat off + length data + 1 - (Z.to_nat off + length data))%nat
    with 1%nat by lia.
  simpl.
  replace (Z.to_nat off + (length data + 1))%nat
    with (S (Z.to_nat off + length data)) by lia.
  reflexivity.
Qed.

(** [try_ensure_space] on a stream that cannot grow. *)
Lemma try_ensure_space_fixed n w :
  mem.realloc_func (mio w) = None ->
  to_gsize (mem.pos (mio w) + n) > mem.size (mio w) ->
  try_ensure_space n w = Some (false, w).
Proof.
  intros Hf Hgt. unfold try_ensure_space, try_resize, bind, get, ret. simpl.
  destruct (Z.gtb_spec (to_gsize (mem.pos (mio w) + n)) (mem.size (mio w)));
    [|lia].
  rewrite Hf. reflexivity.
Qed.

(** The ways a call of [mio_vprintf] ends when [vsnprintf] behaves as in
    C99 and format and arguments expand to [text] in both runs. *)
Lemma mio_vprintf_run (w : world) (text : list Z) :
  stream_ok (mio w) -> growable_ok (mio w) ->
  0 <= mem.pos (mio w) ->
  blen text <= 2147483647 ->
  mem.pos (mio w) + blen text + 1 <= G_MAXSIZE ->
  exists r w',
    mio_vprintf (vsnprintf_text text) (vsnprintf_text text) w
    = Some (r, w') /\
    ((r = blen text /\
      mem.pos (mio w') = mem.pos (mio w) + blen text /\
      mem.size (mio w')
      = Z.max (mem.size (mio w)) (mem.pos (mio w) + blen text) /\
      mem_read (mem.buf (mio w')) (mem.pos (mio w)) (blen text)
      = Some text /\
      (forall i : nat,
         Z.of_nat i < mem.size (mio w) ->
         Z.of_nat i < mem.pos (mio w)
         \/ mem.pos (mio w) + blen text <= Z.of_nat i ->
         nth_error (mem.buf (mio w')) i = nth_error (mem.buf (mio w)) i))
     \/
     (r = -1 /\ mio w' = mio w /\
      mem.pos (mio w) + blen text + 1 > mem.size (mio w))) /\
    (mem.pos (mio w) + blen text + 1 <= mem.size (mio w) -> r = blen text) /\
    (mem.realloc_func (mio w) = None ->
     mem.pos (mio w) + blen text + 1 > mem.size (mio w) ->
     r = -1 /\ w' = w).
Proof.
  intros Hok Hgrow Hpos Hint Hfit.
  pose proof (blen_nonneg text) as Hn.
  set (n := blen text) in *.
  unfold mio_vprintf.
  assert (Hrv : forall k, vs_rv (vsnprintf_text text k) = n) by reflexivity.
  rewrite !Hrv.
  unfold bind at 1, get at 1. cbv zeta.
  unfold bind at 1, access at 1.
  change (vs_stored (vsnprintf_text text 1))
    with (firstn (Z.to_nat (1 - 1)) text ++ [0]).
  simpl firstn. rewrite mem_write_ok by (unfold blen; simpl; lia).
  destruct (Z.geb_spec n 0) as [_|]; [|lia].
  rewrite (to_guint_id n) by (unfold guint_modulus; lia).
  rewrite (to_guint_id (n + 1)) by (unfold guint_modulus; lia).
  assert (Hst : vs_stored (vsnprintf_text text (n + 1)) = text ++ [0]).
  { unfold vsnprintf_text. simpl.
    destruct (Z.leb_spec (n + 1) 0); [lia|].
    replace (n + 1 - 1) with n by lia.
    unfold n, blen. rewrite Nat2Z.id, firstn_all. reflexivity. }
  rewrite Hst.
  unfold bind at 1.
  destruct (try_ensure_space_total (n + 1) w) as (ok & w1 & E).
  rewrite E. destruct ok.
  - destruct (try_ensure_space_true (n + 1) w w1 Hok Hgrow Hpos
                ltac:(lia) ltac:(lia) E)
      as (b1 & a' & s' & -> & Hs' & Ha' & Hmx & Hroom & Hmono & Hkeep).
    unfold bind at 1, get at 1. simpl mio. simpl mem.buf. simpl mem.pos.
    rewrite (to_gsize_id (mem.pos (mio w) + n)) by (unfold is_gsize; lia).
    destruct (load_ok b1 (mem.pos (mio w) + n) ltac:(lia)) as (c & Hc & Hcn).
    unfold bind at 1, access at 1. rewrite Hc.
    unfold bind at 1, access at 1.
    assert (Hlen : blen (text ++ [0]) = n + 1).
    { rewrite blen_app. unfold blen. simpl. fold (blen text). lia. }
    rewrite Hlen. rewrite Z.leb_refl.
    unfold bind at 1, access at 1.
    pose proof (mem_write_ok b1 (mem.pos (mio w)) (text ++ [0]) Hpos
                  ltac:(lia)) as Hw.
    rewrite Hw.
    pose proof (mem_write_len _ _ _ _ Hw) as Hl2.
    set (b2 := firstn _ b1 ++ (text ++ [0]) ++ skipn _ b1) in *.
    assert (Hst3 : exists b3, store b2 (mem.pos (mio w) + n) c = Some b3).
    { unfold store. rewrite mem_write_ok; [eauto|lia|].
      unfold blen in *. simpl. lia. }
    destruct Hst3 as (b3 & Hst3).
    unfold bind at 1, access at 1. rewrite Hst3.
    pose proof (mem_write_terminator_undone _ _ _ _ _ _ _ Hw Hst3 Hcn) as Hw3.
    destruct (Z.geb_spec n 0) as [_|]; [|lia]. rewrite Z.eqb_refl.
    unfold bind, assign, ret. simpl.
    do 2 eexists. split; [reflexivity|]. simpl.
    split; [|split; [reflexivity|]].
    + left. split; [reflexivity|]. split; [reflexivity|].
      split; [reflexivity|].
      split; [exact (mem_write_read _ _ _ _ Hw3)|].
      intros i Hi Hout.
      rewrite (mem_write_nth_outside _ _ _ _ i Hw3) by (fold n; lia).
      apply (firstn_nth_error _ _ _ _ Hkeep). lia.
    + intros Hf Hgt. exfalso.
      rewrite (try_ensure_space_fixed (n + 1) w Hf) in E.
      * discriminate.
      * rewrite to_gsize_id by (unfold is_gsize; lia). lia.
  - pose proof E as E'.
    apply try_ensure_space_false in E. destruct E as (Hm & Hgt & _).
    rewrite to_gsize_id in Hgt by (unfold is_gsize; lia).
    unfold ret. do 2 eexists. split; [reflexivity|]. split; [|split].
    + right. split; [reflexivity|]. split; [assumption|lia].
    + intros Hle. lia.
    + intros Hf Hgt'. split; [reflexivity|].
      rewrite (try_ensure_space_fixed (n + 1) w Hf) in E'.
      * congruence.
      * rewrite to_gsize_id by (unfold is_gsize; lia). lia.
Qed.



(** X13: on a stream that cannot grow, a text that ends exactly at the end
    of the data is refused by [mio_vprintf], which wants room for the
    terminator too, and returns -1 with the stream as it was; [mio_puts]
    with the same text returns 1 and stores it. *)
Theorem vprintf_needs_terminator_room (w : world) (text : list Z) :
  stream_ok (mio w) ->
  mem.realloc_func (mio w) = None ->
  0 <= mem.pos (mio w) ->
  blen text <= 2147483647 ->
  mem.pos (mio w) + blen text = mem.size (mio w) ->
  mem.size (mio w) < G_MAXSIZE ->
  mio_vprintf (vsnprintf_text text) (vsnprintf_text text) w = Some (-1, w) /\
  exists w',
    mio_puts text w = Some (1, w') /\
    mem_read (mem.buf (mio w')) (mem.pos (mio w)) (blen text) = Some text /\
    mem.size (mio w') = mem.size (mio w).
Proof.
  intros Hok Hf Hpos Hint Hend Hmax.
  assert (Hgrow : growable_ok (mio w)).
  { intros f Hf'. congruence. }
  split.
  - destruct (mio_vprintf_run w text Hok Hgrow Hpos Hint ltac:(lia))
      as (r & w' & E & _ & _ & Hfix).
    destruct (Hfix Hf ltac:(lia)) as [-> ->]. exact E.
  - destruct (mio_puts_run w text Hok Hgrow Hpos ltac:(lia))
      as (r & w' & E & [(-> & Hp & Hs & Hrd & _)|(_ & _ & Hgt)] & _); [|lia].
    exists w'. split; [exact E|]. split; [exact Hrd|].
    pose proof E as E'. unfold mio_puts in E'. cbv zeta in E'.
    unfold bind at 1 in E'.
    assert (Hes : try_ensure_space (blen text) w = Some (true, w)).
    { unfold try_ensure_space, bind, get, ret. simpl.
      rewrite to_gsize_id by (unfold is_gsize; pose proof (blen_nonneg text); lia).
      destruct (Z.gtb_spec (mem.pos (mio w) + blen text) (mem.size (mio w)));
        [lia|reflexivity]. }
    rewrite Hes in E'. unfold bind, get, access, assign, ret in E'.
    simpl in E'. run_cases E'. injection E' as <-. reflexivity.
Qed.

(** ["cde"] at offset 2 of a fixed buffer of 5 bytes. *)
Lemma vprintf_needs_terminator_room_witness :
  let w := mkWorld (mem.set_pos 2
              (mio_new_memory [1; 2; 3; 4; 5] 5 None None)) ENONE in
  let text := [99; 100; 101] in
  mio_vprintf (vsnprintf_text text) (vsnprintf_text text) w = Some (-1, w) /\
  exists w',
    mio_puts text w = Some (1, w') /\
    mem_read (mem.buf (mio w')) (mem.pos (mio w)) (blen text) = Some text /\
    mem.size (mio w') = mem.size (mio w).
Proof.
  intros w text. apply (vprintf_needs_terminator_room w text).
  - split; unfold blen, G_MAXSIZE; simpl; lia.
  - reflexivity.
  - simpl. lia.
  - unfold blen. simpl. lia.
  - unfold blen. simpl. lia.
  - unfold G_MAXSIZE. simpl. lia.
Defined.

(** ** [mio_read] with nothing pushed back, in general *)

Lemma mem_write_beyond b off data b' k :
  mem_write b off data = Some b' -> (Z.to_nat off + length data <= k)%nat ->
  skipn k b' = skipn k b.
Proof.
  intros H Hk. apply mem_write_inv in H. destruct H as (H1 & H2 & ->).
  unfold blen in *.
  rewrite app_assoc, skipn_app.
  rewrite length_app, length_firstn.
  replace (Nat.min (Z.to_nat off) (length b)) with (Z.to_nat off) by lia.
  rewrite (@skipn_all2 _ k (firstn (Z.to_nat off) b ++ data))
    by (rewrite length_app, length_firstn; lia).
  simpl. rewrite skipn_skipn. f_equal. lia.
Qed.

(** The loop of [mio_read]: it copies records as long as a whole one is
    left, [k] of them, and stops. *)
Lemma read_records_run fuel size :
  0 < size ->
  forall n_read ptr w,
    0 <= mem.pos (mio w) <= mem.size (mio w) ->
    0 <= n_read ->
    mem.size (mio w) <= blen (mem.buf (mio w)) ->
    mem.size (mio w) + size <= G_MAXSIZE ->
    (n_read + Z.of_nat fuel) * size <= blen ptr ->
    (n_read + Z.of_nat fuel) * size <= G_MAXSIZE ->
    exists k ptr',
      0 <= k <= Z.of_nat fuel /\
      read_records fuel size n_read ptr w
      = Some ((n_read + k, ptr'),
              mkWorld (mem.set_pos (mem.pos (mio w) + k * size) (mio w))
                      (errno w)) /\
      mem.pos (mio w) + k * size <= mem.size (mio w) /\
      (k < Z.of_nat fuel ->
       mem.size (mio w) - (mem.pos (mio w) + k * size) < size) /\
      blen ptr' = blen ptr /\
      firstn (Z.to_nat ((n_read + k) * size)) ptr'
      = firstn (Z.to_nat (n_read * size)) ptr
        ++ firstn (Z.to_nat (k * size))
                  (skipn (Z.to_nat (mem.pos (mio w))) (mem.buf (mio w))) /\
      skipn (Z.to_nat ((n_read + k) * size)) ptr'
      = skipn (Z.to_nat ((n_read + k) * size)) ptr.
Proof.
  intros Hsize. induction fuel as [|fuel IH];
    intros n_read ptr w Hpos Hn Hbuf Hmax Hptr Hptrmax.
  - exists 0, ptr. simpl. unfold ret. rewrite !Z.add_0_r.
    split; [lia|]. split; [destruct w as [[] ?]; reflexivity|].
    split; [lia|]. split; [lia|]. split; [reflexivity|].
    split; [rewrite app_nil_r; reflexivity|reflexivity].
  - assert (Hf : 0 <= Z.of_nat fuel * size) by (apply Z.mul_nonneg_nonneg; lia).
    assert (Hns : 0 <= n_read * size) by (apply Z.mul_nonneg_nonneg; lia).
    simpl read_records. unfold bind at 1, get at 1.
    rewrite (to_gsize_id (mem.pos (mio w) + size)) by (unfold is_gsize; lia).
    destruct (Z.gtb_spec (mem.pos (mio w) + size) (mem.size (mio w)))
      as [Hstop|Hgo].
    + exists 0, ptr. unfold ret. rewrite !Z.add_0_r.
      split; [lia|]. split; [destruct w as [[] ?]; reflexivity|].
      split; [lia|]. split; [lia|]. split; [reflexivity|].
      split; [rewrite app_nil_r; reflexivity|reflexivity].
    + rewrite (to_gsize_id (n_read * size)) by (unfold is_gsize; lia).
      unfold memcpy.
      rewrite (mem_read_ok (mem.buf (mio w)) (mem.pos (mio w)) size) by lia.
      set (chunk := firstn (Z.to_nat size)
                      (skipn (Z.to_nat (mem.pos (mio w))) (mem.buf (mio w)))).
      assert (Hchunk : blen chunk = size).
      { unfold chunk, blen in *. rewrite length_firstn, length_skipn. lia. }
      pose proof (mem_write_ok ptr (n_read * size) chunk Hns ltac:(lia)) as Hw.
      unfold bind at 1, access at 1. rewrite Hw.
      set (ptr1 := firstn _ ptr ++ chunk ++ skipn _ ptr) in *.
      pose proof (mem_write_len _ _ _ _ Hw) as Hl1.
      pose proof (mem_write_upto _ _ _ _ Hw) as Hup.
      unfold bind at 1, assign at 1.
      destruct (IH (n_read + 1) ptr1
                  (mkWorld (mem.set_pos (mem.pos (mio w) + size) (mio w))
                           (errno w)))
        as (k & ptr' & Hk & E & Hend & Hstop & Hl & Hfirst & Hrest);
        try (simpl; lia).
      cbn [mio errno mem.pos mem.size mem.buf mem.set_pos] in *.
      assert (Hks : 0 <= k * size) by (apply Z.mul_nonneg_nonneg; lia).
      exists (k + 1), ptr'. split; [lia|]. split; [|split; [|split; [|split;
        [|split]]]].
      * rewrite E.
        replace (n_read + 1 + k) with (n_read + (k + 1)) by lia.
        replace (mem.pos (mio w) + size + k * size)
          with (mem.pos (mio w) + (k + 1) * size) by lia.
        reflexivity.
      * lia.
      * intros Hlt. specialize (Hstop ltac:(lia)). lia.
      * rewrite Hl. exact Hl1.
      * replace (n_read + (k + 1)) with (n_read + 1 + k) by lia.
        rewrite Hfirst.
        replace (Z.to_nat ((n_read + 1) * size))
          with (Z.to_nat (n_read * size) + length chunk)%nat
          by (unfold blen in Hchunk; lia).
        rewrite Hup, <- app_assoc. f_equal.
        replace (Z.to_nat ((k + 1) * size))
          with (Z.to_nat size + Z.to_nat (k * size))%nat by lia.
        rewrite firstn_add_skipn. fold chunk. f_equal.
        rewrite skipn_skipn. do 2 f_equal. lia.
      * replace (n_read + (k + 1)) with (n_read + 1 + k) by lia.
        rewrite Hrest.
        apply (mem_write_beyond _ _ _ _ _ Hw).
        unfold blen in Hchunk. lia.
Qed.

(** X14: with nothing pushed back and the cursor within the data,
    [mio_read] returns a number [k] of whole records: [k] is [nmemb], or
    less when fewer than [size] bytes are left after the [k] records; the
    first [k * size] bytes of the caller's block are the bytes from the old
    cursor on, the rest of the block is untouched, the cursor has advanced by
    [k * size] exactly, and the end-of-file flag is set when the cursor has
    reached the size and left alone otherwise. *)
Theorem mio_read_whole_records (w : world) (ptr : block) (size nmemb : Z) :
  stream_ok (mio w) ->
  mem.ungetch (mio w) = EOF ->
  0 <= mem.pos (mio w) <= mem.size (mio w) ->
  0 < size -> 0 < nmemb ->
  size * nmemb <= blen ptr ->
  blen ptr <= G_MAXSIZE ->
  mem.size (mio w) + size <= G_MAXSIZE ->
  exists k ptr' w',
    mio_read ptr size nmemb w = Some ((k, ptr'), w') /\
    0 <= k <= nmemb /\
    (k < nmemb -> mem.size (mio w) - mem.pos (mio w') < size) /\
    mem.pos (mio w') = mem.pos (mio w) + k * size /\
    mem.pos (mio w') <= mem.size (mio w) /\
    firstn (Z.to_nat (k * size)) ptr'
    = firstn (Z.to_nat (k * size))
             (skipn (Z.to_nat (mem.pos (mio w))) (mem.buf (mio w))) /\
    skipn (Z.to_nat (k * size)) ptr' = skipn (Z.to_nat (k * size)) ptr /\
    (mem.pos (mio w') = mem.size (mio w) -> mem.eof (mio w') = true) /\
    (mem.pos (mio w') < mem.size (mio w) ->
     mem.eof (mio w') = mem.eof (mio w)) /\
    mem.ungetch (mio w') = EOF /\
    same_data (mio w) (mio w').
Proof.
  intros [Hsz Hal Hmx] Hu Hpos Hsize Hnmemb Hptr Hptrmax Hmax.
  unfold mio_read.
  destruct (Z.eqb_spec size 0); [lia|]. destruct (Z.eqb_spec nmemb 0); [lia|].
  simpl.
  unfold bind at 1, get at 1. rewrite Hu. simpl negb. cbv iota.
  unfold bind at 1, ret at 1. rewrite Z.sub_0_r.
  destruct (read_records_run (Z.to_nat nmemb) size Hsize 0 ptr w)
    as (k & ptr' & Hk & E & Hend & Hstop & Hl & Hfirst & Hrest); try lia.
  rewrite Z.add_0_l in *. rewrite Z2Nat.id in * by lia.
  unfold bind at 1. rewrite E.
  unfold bind at 1, get at 1. cbn [mio errno mem.pos mem.size mem.set_pos].
  simpl in Hfirst.
  exists k, ptr'.
  destruct (Z.geb_spec (mem.pos (mio w) + k * size) (mem.size (mio w)));
    unfold bind, assign, ret; cbn; eexists; (split; [reflexivity|]); cbn;
    (split; [lia|]); (split; [intros Hlt; specialize (Hstop Hlt); lia|]);
    (split; [reflexivity|]); (split; [lia|]);
    (split; [exact Hfirst|]); (split; [exact Hrest|]);
    (split; [intros; reflexivity || lia|]);
    (split; [intros; reflexivity || lia|]);
    (split; [exact Hu|]); repeat split.
Qed.

(** 2 records of 2 bytes asked for with 3 bytes left. *)
Lemma mio_read_whole_records_witness :
  let w := mkWorld (mem.set_pos 1
              (mio_new_memory [1; 2; 3; 4] 4 None None)) ENONE in
  exists k ptr' w',
    mio_read [0; 0; 0; 0] 2 2 w = Some ((k, ptr'), w') /\
    0 <= k <= 2 /\
    (k < 2 -> mem.size (mio w) - mem.pos (mio w') < 2) /\
    mem.pos (mio w') = mem.pos (mio w) + k * 2 /\
    mem.pos (mio w') <= mem.size (mio w) /\
    firstn (Z.to_nat (k * 2)) ptr'
    = firstn (Z.to_nat (k * 2))
             (skipn (Z.to_nat (mem.pos (mio w))) (mem.buf (mio w))) /\
    skipn (Z.to_nat (k * 2)) ptr' = skipn (Z.to_nat (k * 2)) [0; 0; 0; 0] /\
    (mem.pos (mio w') = mem.size (mio w) -> mem.eof (mio w') = true) /\
    (mem.pos (mio w') < mem.size (mio w) ->
     mem.eof (mio w') = mem.eof (mio w)) /\
    mem.ungetch (mio w') = EOF /\
    same_data (mio w) (mio w').
Proof.
  intros w. apply (mio_read_whole_records w [0; 0; 0; 0] 2 2).
  - split; unfold blen, G_MAXSIZE; simpl; lia.
  - reflexivity.
  - simpl. lia.
  - lia.
  - lia.
  - unfold blen. simpl. lia.
  - unfold blen, G_MAXSIZE. simpl. lia.
  - unfold G_MAXSIZE. simpl. lia.
Defined.


(** ** [mio_gets] with nothing pushed back *)

Lemma mem_write_app b off d1 d2 b1 b2 :
  mem_write b off d1 = Some b1 ->
  mem_write b1 (off + blen d1) d2 = Some b2 ->
  mem_write b off (d1 ++ d2) = Some b2.
Proof.
  intros H1 H2.
  pose proof (mem_write_len _ _ _ _ H1) as Hl.
  pose proof (mem_write_upto _ _ _ _ H1) as Hup.
  pose proof (mem_write_inv _ _ _ _ H1) as (Ha & Hb & _).
  pose proof (mem_write_inv _ _ _ _ H2) as (Hc & Hd & ->).
  pose proof (blen_nonneg d1). pose proof (blen_nonneg d2).
  rewrite mem_write_ok by (rewrite ?blen_app; lia). f_equal.
  unfold blen in *.
  replace (Z.to_nat (off + Z.of_nat (length d1)))
    with (Z.to_nat off + length d1)%nat by lia.
  rewrite Hup, <- !app_assoc. do 3 f_equal.
  rewrite length_app, Nat.add_assoc. symmetry.
  apply (mem_write_beyond _ _ _ _ _ H1). lia.
Qed.

Lemma mem_write_nil b off : 0 <= off <= blen b -> mem_write b off [] = Some b.
Proof.
  intros H. rewrite mem_write_ok by (change (blen []) with 0; lia).
  simpl. rewrite Nat.add_0_r, firstn_skipn. reflexivity.
Qed.

Lemma take_line_len l : (length (take_line l) <= length l)%nat.
Proof.
  induction l as [|c l IH]; simpl; [lia|].
  destruct (to_gchar c =? 10); simpl; lia.
Qed.

(** One turn of the loop of [mio_gets]. *)
Lemma gets_chars_step fuel size i s w c s1 :
  mem.pos (mio w) < mem.size (mio w) ->
  i < size - 1 ->
  load (mem.buf (mio w)) (mem.pos (mio w)) = Some c ->
  store s i (to_gchar c) = Some s1 ->
  gets_chars (S fuel) size i s w
  = if to_gchar c =? 10
    then Some ((i + 1, s1),
               mkWorld (mem.set_pos (to_gsize (mem.pos (mio w) + 1)) (mio w))
                       (errno w))
    else gets_chars fuel size (i + 1) s1
           (mkWorld (mem.set_pos (to_gsize (mem.pos (mio w) + 1)) (mio w))
                    (errno w)).
Proof.
  intros Hp Hi Hc Hst. simpl gets_chars.
  unfold bind at 1, get at 1.
  destruct (Z.ltb_spec (mem.pos (mio w)) (mem.size (mio w))); [|lia].
  destruct (Z.ltb_spec i (size - 1)); [|lia].
  cbn [andb]. unfold bind at 1, access at 1. rewrite Hc.
  unfold bind at 1, access at 1. rewrite Hst.
  unfold bind at 1, assign at 1.
  destruct (to_gchar c =? 10); reflexivity.
Qed.

Lemma gets_chars_stop fuel size i s w :
  mem.size (mio w) <= mem.pos (mio w) ->
  gets_chars fuel size i s w = Some ((i, s), w).
Proof.
  intros Hp. destruct fuel; [reflexivity|]. simpl gets_chars.
  unfold bind at 1, get at 1.
  destruct (Z.ltb_spec (mem.pos (mio w)) (mem.size (mio w))); [lia|].
  reflexivity.
Qed.

(** The loop of [mio_gets] started with [fuel] places left before the last
    one of the caller's block. *)
Lemma gets_chars_run fuel size :
  forall i s w,
    i + Z.of_nat fuel = size - 1 ->
    0 <= i ->
    i + Z.of_nat fuel <= blen s ->
    0 <= mem.pos (mio w) <= mem.size (mio w) ->
    mem.size (mio w) <= blen (mem.buf (mio w)) ->
    mem.size (mio w) <= G_MAXSIZE ->
    let line := take_line
                  (firstn fuel (skipn (Z.to_nat (mem.pos (mio w)))
                                      (valid_bytes (mio w)))) in
    exists s',
      gets_chars fuel size i s w
      = Some ((i + blen line, s'),
              mkWorld (mem.set_pos (mem.pos (mio w) + blen line) (mio w))
                      (errno w)) /\
      mem_write s i line = Some s' /\
      mem.pos (mio w) + blen line <= mem.size (mio w).
Proof.
  induction fuel as [|fuel IH]; intros i s w Hi Hi0 Hs Hpos Hbuf Hmax line.
  - exists s. unfold line. simpl. unfold ret, blen. simpl.
    rewrite !Z.add_0_r. split; [destruct w as [[] ?]; reflexivity|].
    split; [|lia]. apply mem_write_nil. lia.
  - destruct (Z.lt_ge_cases (mem.pos (mio w)) (mem.size (mio w)))
      as [Hlt|Hge].
    + destruct (load_ok (mem.buf (mio w)) (mem.pos (mio w)) ltac:(lia))
        as (c & Hc & Hcn).
      assert (Havail : skipn (Z.to_nat (mem.pos (mio w))) (valid_bytes (mio w))
                       = c :: skipn (S (Z.to_nat (mem.pos (mio w))))
                                    (valid_bytes (mio w))).
      { apply skipn_nth_error. unfold valid_bytes. rewrite nth_error_firstn.
        destruct (Nat.ltb_spec (Z.to_nat (mem.pos (mio w)))
                               (Z.to_nat (mem.size (mio w)))); [exact Hcn|lia]. }
      assert (Hst : exists s1, store s i (to_gchar c) = Some s1).
      { unfold store. rewrite mem_write_ok; [eauto|lia|].
        unfold blen in *. simpl. lia. }
      destruct Hst as (s1 & Hst).
      rewrite (gets_chars_step fuel size i s w c s1 Hlt ltac:(lia) Hc Hst).
      rewrite (to_gsize_id (mem.pos (mio w) + 1)) by (unfold is_gsize; lia).
      unfold line. rewrite Havail. cbn [firstn take_line].
      destruct (to_gchar c =? 10).
      * exists s1. change (blen [to_gchar c]) with 1.
        split; [reflexivity|]. split; [exact Hst|lia].
      * destruct (IH (i + 1) s1
                    (mkWorld (mem.set_pos (mem.pos (mio w) + 1) (mio w))
                             (errno w)))
          as (s' & E & Hw & Hend);
          try (simpl; rewrite ?(store_len _ _ _ _ Hst); lia).
        cbn [mio errno mem.pos mem.size mem.buf mem.set_pos] in *.
        change (valid_bytes (mem.set_pos (mem.pos (mio w) + 1) (mio w)))
          with (valid_bytes (mio w)) in *.
        replace (Z.to_nat (mem.pos (mio w) + 1))
          with (S (Z.to_nat (mem.pos (mio w)))) in * by lia.
        set (rest := take_line
                       (firstn fuel (skipn (S (Z.to_nat (mem.pos (mio w))))
                                           (valid_bytes (mio w))))) in *.
        assert (Hlen : blen (to_gchar c :: rest) = 1 + blen rest).
        { unfold blen. simpl length. lia. }
        exists s'. rewrite E, Hlen.
        split; [|split; [|lia]].
        -- replace (i + 1 + blen rest) with (i + (1 + blen rest)) by lia.
           replace (mem.pos (mio w) + 1 + blen rest)
             with (mem.pos (mio w) + (1 + blen rest)) by lia.
           reflexivity.
        -- apply (mem_write_app s i [to_gchar c] rest s1 s' Hst).
           exact Hw.
    + rewrite gets_chars_stop by lia.
      assert (Hnil : skipn (Z.to_nat (mem.pos (mio w))) (valid_bytes (mio w))
                     = []).
      { apply skipn_all2. unfold valid_bytes. rewrite length_firstn. lia. }
      unfold line. rewrite Hnil. cbn [firstn take_line].
      change (blen []) with 0. rewrite !Z.add_0_r. exists s.
      split; [destruct w as [[] ?]; reflexivity|]. split; [|lia].
      apply mem_write_nil. lia.
Qed.

(** The end of [mio_gets] and of [mio_read]: the flag is set when the
    cursor is at or past the size. *)
Lemma eof_update {A} (x : A) w :
  (m2 <- get ;;
   (if mem.pos m2 >=? mem.size m2 then assign (mem.set_eof true)
    else ret tt) ;;
   ret x) w
  = Some (x, mkWorld (if mem.pos (mio w) >=? mem.size (mio w)
                      then mem.set_eof true (mio w) else mio w)
                     (errno w)).
Proof.
  unfold bind, get, assign, ret. simpl.
  destruct (_ >=? _); destruct w; reflexivity.
Qed.

(** X15: with nothing pushed back and the cursor within the data,
    [mio_gets] takes the bytes from the cursor on, at most [size - 1] of
    them and none after a newline: when this line is empty ([size] is 1 or
    no data is left) it returns [NULL] and leaves the caller's block alone;
    otherwise it returns the block, with the line and a terminator stored
    at its start and the rest untouched.  The cursor advances by the length
    of the line, and the end-of-file flag is set when the cursor has reached
    the size and left alone otherwise. *)
Theorem mio_gets_line (w : world) (s : block) (size : Z) :
  stream_ok (mio w) ->
  mem.ungetch (mio w) = EOF ->
  0 <= mem.pos (mio w) <= mem.size (mio w) ->
  0 < size <= blen s ->
  let line :=
    take_line (firstn (Z.to_nat (size - 1))
                      (skipn (Z.to_nat (mem.pos (mio w)))
                             (valid_bytes (mio w)))) in
  exists rv s' w',
    mio_gets s size w = Some ((rv, s'), w') /\
    (line = [] -> rv = false /\ s' = s) /\
    (line <> [] -> rv = true /\ mem_write s 0 (line ++ [0]) = Some s') /\
    blen line <= size - 1 /\
    mem.pos (mio w') = mem.pos (mio w) + blen line /\
    (mem.pos (mio w') = mem.size (mio w) -> mem.eof (mio w') = true) /\
    (mem.pos (mio w') < mem.size (mio w) ->
     mem.eof (mio w') = mem.eof (mio w)) /\
    mem.ungetch (mio w') = EOF /\
    same_data (mio w) (mio w').
Proof.
  intros [Hsz Hal Hmx] Hu Hpos Hsize line.
  assert (Hlen : blen line <= size - 1).
  { unfold line, blen.
    pose proof (take_line_len
                  (firstn (Z.to_nat (size - 1))
                          (skipn (Z.to_nat (mem.pos (mio w)))
                                 (valid_bytes (mio w))))) as H.
    rewrite length_firstn in H. lia. }
  unfold mio_gets.
  destruct (Z.gtb_spec size 0); [|lia].
  unfold bind at 1, get at 1. rewrite Hu. simpl negb. cbv iota.
  unfold bind at 1, ret at 1. rewrite Z.sub_0_r.
  destruct (gets_chars_run (Z.to_nat (size - 1)) size 0 s w)
    as (s1 & E & Hw & Hend); try lia.
  fold line in E, Hw, Hend. rewrite Z.add_0_l in E.
  unfold bind at 1. rewrite E.
  pose proof (blen_nonneg line) as Hnn.
  assert (Htail : forall (rv : bool) (s2 : block),
    exists w',
      (m2 <- get ;;
       (if mem.pos m2 >=? mem.size m2 then assign (mem.set_eof true)
        else ret tt) ;;
       ret (rv, s2))
        (mkWorld (mem.set_pos (mem.pos (mio w) + blen line) (mio w))
                 (errno w))
      = Some ((rv, s2), w') /\
      mem.pos (mio w') = mem.pos (mio w) + blen line /\
      (mem.pos (mio w') = mem.size (mio w) -> mem.eof (mio w') = true) /\
      (mem.pos (mio w') < mem.size (mio w) ->
       mem.eof (mio w') = mem.eof (mio w)) /\
      mem.ungetch (mio w') = EOF /\
      same_data (mio w) (mio w')).
  { intros rv s2. rewrite eof_update. eexists. split; [reflexivity|].
    cbn [mio errno mem.pos mem.size mem.set_pos].
    destruct (Z.geb_spec (mem.pos (mio w) + blen line) (mem.size (mio w)));
      cbn; (split; [reflexivity|]);
      (split; [intros; reflexivity || lia|]);
      (split; [intros; reflexivity || lia|]);
      (split; [exact Hu|]); repeat split. }
  destruct line as [|x line'] eqn:Hline.
  - change (blen []) with 0 in *.
    unfold bind at 1. change (0 >? 0) with false. cbv iota.
    unfold ret at 1. cbv beta iota.
    assert (Hs1 : s1 = s).
    { rewrite mem_write_nil in Hw by lia. congruence. }
    destruct (Htail false s1) as (w' & Et & Hrest).
    exists false, s1, w'. split; [exact Et|].
    split; [auto|]. split; [congruence|]. split; [lia|]. exact Hrest.
  - set (l := x :: line') in *.
    assert (Hpos' : blen l > 0) by (unfold l, blen; simpl length; lia).
    assert (Hst : exists s2, store s1 (blen l) 0 = Some s2).
    { unfold store. rewrite mem_write_ok; [eauto|lia|].
      rewrite (mem_write_len _ _ _ _ Hw). change (blen [0]) with 1. lia. }
    destruct Hst as (s2 & Hst).
    unfold bind at 1.
    destruct (Z.gtb_spec (blen l) 0); [|lia].
    unfold bind at 1, access at 1. rewrite Hst.
    unfold ret at 1. cbv beta iota.
    assert (Hall : mem_write s 0 (l ++ [0]) = Some s2).
    { apply (mem_write_app s 0 l [0] s1 s2 Hw). exact Hst. }
    destruct (Htail true s2) as (w' & Et & Hrest).
    exists true, s2, w'. split; [exact Et|].
    split; [intros; discriminate|]. split; [auto|]. split; [lia|].
    exact Hrest.
Qed.

(** A stream holds ["ab"], a newline and ["cd"]; a line is read into 8
    bytes. *)
Lemma mio_gets_line_witness :
  let w := mkWorld (mio_new_memory [97; 98; 10; 99; 100] 5 None None)
                   ENONE in
  let s := [7; 7; 7; 7; 7; 7; 7; 7] in
  let line :=
    take_line (firstn (Z.to_nat (8 - 1))
                      (skipn (Z.to_nat (mem.pos (mio w)))
                             (valid_bytes (mio w)))) in
  exists rv s' w',
    mio_gets s 8 w = Some ((rv, s'), w') /\
    (line = [] -> rv = false /\ s' = s) /\
    (line <> [] -> rv = true /\ mem_write s 0 (line ++ [0]) = Some s') /\
    blen line <= 8 - 1 /\
    mem.pos (mio w') = mem.pos (mio w) + blen line /\
    (mem.pos (mio w') = mem.size (mio w) -> mem.eof (mio w') = true) /\
    (mem.pos (mio w') < mem.size (mio w) ->
     mem.eof (mio w') = mem.eof (mio w)) /\
    mem.ungetch (mio w') = EOF /\
    same_data (mio w) (mio w').
Proof.
  intros w s. apply (mio_gets_line w s 8).
  - split; unfold blen, G_MAXSIZE; simpl; lia.
  - reflexivity.
  - simpl. lia.
  - unfold blen. simpl. lia.
Defined.

(** ** The end of the data, and empty requests *)

(** X16: [mio_read] and [mio_write] with [size] or [nmemb] 0 return 0 and
    change nothing, not even the end-of-file flag or a byte pushed back.  A
    [mio_read] for more with the cursor at or past the size and nothing
    pushed back returns 0 records, leaves the caller's block and the cursor
    alone and sets the end-of-file flag; [mio_clearerr] then clears the
    flag, and the cursor and the data are still as they were. *)
Theorem read_at_end (w : world) (ptr : block) (size nmemb : Z) :
  (size = 0 \/ nmemb = 0 ->
   mio_read ptr size nmemb w = Some ((0, ptr), w) /\
   mio_write ptr size nmemb w = Some (0, w)) /\
  (mem.ungetch (mio w) = EOF ->
   0 <= mem.size (mio w) <= mem.pos (mio w) ->
   0 < size -> 0 < nmemb ->
   mem.pos (mio w) + size <= G_MAXSIZE ->
   exists w1 w2,
     mio_read ptr size nmemb w = Some ((0, ptr), w1) /\
     mio w1 = mem.set_eof true (mio w) /\
     mio_clearerr w1 = Some (tt, w2) /\
     mem.eof (mio w2) = false /\
     mem.pos (mio w2) = mem.pos (mio w) /\
     same_data (mio w) (mio w2)).
Proof.
  split.
  - intros [-> | ->]; unfold mio_read, mio_write; simpl;
      rewrite ?andb_false_r; split; reflexivity.
  - intros Hu Hend Hsize Hnmemb Hfit.
    unfold mio_read.
    destruct (Z.eqb_spec size 0); [lia|]. destruct (Z.eqb_spec nmemb 0); [lia|].
    simpl.
    unfold bind at 1, get at 1. rewrite Hu. simpl negb. cbv iota.
    unfold bind at 1, ret at 1. rewrite Z.sub_0_r.
    destruct (Z.to_nat nmemb) as [|fuel] eqn:Hfuel; [lia|].
    simpl read_records. unfold bind at 1. unfold bind at 1, get at 1.
    rewrite (to_gsize_id (mem.pos (mio w) + size)) by (unfold is_gsize; lia).
    destruct (Z.gtb_spec (mem.pos (mio w) + size) (mem.size (mio w))); [|lia].
    unfold ret at 1.
    rewrite eof_update.
    destruct (Z.geb_spec (mem.pos (mio w)) (mem.size (mio w))); [|lia].
    do 2 eexists. split; [reflexivity|]. split; [reflexivity|].
    split; [reflexivity|]. repeat split.
Qed.

(** A stream of 2 bytes read to its end. *)
Lemma read_at_end_witness :
  let w := mkWorld (mem.set_pos 2 (mio_new_memory [1; 2] 2 None None))
                   ENONE in
  (mio_read [9] 0 5 w = Some ((0, [9]), w) /\
   mio_write [9] 0 5 w = Some (0, w)) /\
  exists w1 w2,
    mio_read [9] 1 1 w = Some ((0, [9]), w1) /\
    mio w1 = mem.set_eof true (mio w) /\
    mio_clearerr w1 = Some (tt, w2) /\
    mem.eof (mio w2) = false /\
    mem.pos (mio w2) = mem.pos (mio w) /\
    same_data (mio w) (mio w2).
Proof.
  intros w. split.
  - apply (proj1 (read_at_end w [9] 0 5)). left. reflexivity.
  - apply (proj2 (read_at_end w [9] 1 1)).
    + reflexivity.
    + simpl. lia.
    + lia.
    + lia.
    + unfold G_MAXSIZE. simpl. lia.
Defined.

(** ** Writing and reading back *)

(** X17: a byte that [mio_putc] has stored is the one [mio_getc] returns
    after a seek of one byte back: [(guchar) c], with the cursor again after
    the byte. *)
Theorem putc_seek_getc (w w1 : world) (c r : Z) :
  stream_ok (mio w) -> growable_ok (mio w) ->
  0 <= mem.pos (mio w) ->
  mem.pos (mio w) + 1 <= G_MAXSIZE ->
  mio_putc c w = Some (r, w1) ->
  r <> EOF ->
  exists w2 w3,
    mio_seek (-1) SEEK_CUR w1 = Some (0, w2) /\
    mio_getc w2 = Some (to_guchar c, w3) /\
    mem.pos (mio w3) = mem.pos (mio w1).
Proof.
  intros Hok Hgrow Hpos Hfit Hput Hr.
  destruct (mio_putc_run w c Hok Hgrow Hpos Hfit)
    as (r' & w' & E & [(_ & _ & Hp & Hps & Hbuf & Hmax & Hnth & _)
                      |(Hf & _)] & _);
    rewrite Hput in E; injection E as <- <-; [|contradiction].
  assert (Hseek : mio_seek (-1) SEEK_CUR w1
                  = Some (0, mkWorld (mem.set_ungetch EOF
                                        (mem.set_eof false
                                           (mem.set_pos (mem.pos (mio w))
                                                        (mio w1))))
                                     (errno w1))).
  { unfold mio_seek, bind, get, ret, assign, set_errno. simpl.
    rewrite Hp. change (to_gsize 1) with 1.
    destruct (Z.gtb_spec 1 (mem.pos (mio w) + 1)); [lia|]. simpl.
    replace (mem.pos (mio w) + 1 + -1) with (mem.pos (mio w)) by lia.
    rewrite (to_gsize_id (mem.pos (mio w))) by (unfold is_gsize; lia).
    destruct (Z.gtb_spec (mem.pos (mio w)) (mem.size (mio w1))); [lia|].
    reflexivity. }
  do 2 eexists. split; [exact Hseek|].
  assert (Hload : load (mem.buf (mio w1)) (mem.pos (mio w))
                  = Some (to_guchar c)).
  { destruct (load_ok (mem.buf (mio w1)) (mem.pos (mio w)) ltac:(lia))
      as (x & Hx & Hxn). congruence. }
  rewrite (mio_getc_at _ (to_guchar c)); simpl; try assumption;
    try reflexivity; try lia.
  split; [reflexivity|]. simpl.
  rewrite to_gsize_id by (unfold is_gsize; lia). lia.
Qed.

Lemma putc_seek_getc_witness :
  let w := mkWorld (mio_new_memory [] 0 (Some plain_realloc) None) ENONE in
  exists w1 w2 w3,
    mio_putc 353 w = Some (97, w1) /\
    mio_seek (-1) SEEK_CUR w1 = Some (0, w2) /\
    mio_getc w2 = Some (to_guchar 353, w3) /\
    mem.pos (mio w3) = mem.pos (mio w1).
Proof.
  intros w.
  assert (Hput : exists w1, mio_putc 353 w = Some (97, w1))
    by (eexists; vm_compute; reflexivity).
  destruct Hput as (w1 & Hput). exists w1.
  destruct (putc_seek_getc w w1 353 97) as (w2 & w3 & H);
    [ split; unfold blen, G_MAXSIZE; simpl; lia
    | intros f Hf; injection Hf as <-; exact plain_realloc_spec
    | simpl; lia
    | unfold G_MAXSIZE; simpl; lia
    | exact Hput
    | discriminate
    | ].
  exists w2, w3. split; [exact Hput|exact H].
Defined.

(** X18: a byte written between [mio_ungetc] and the next read does not
    take the place of the pushed-back byte.  With the cursor within the
    data and not at its start, [mio_ungetc (c)], [mio_putc (d)] and
    [mio_getc] succeed without growth: [d] is stored over the byte before
    the cursor, [mio_getc] returns [c], and the cursor ends one byte further
    than it started, which is past the size when it started at the size. *)
Theorem ungetc_putc_getc (w : world) (c d : Z) :
  stream_ok (mio w) ->
  mem.ungetch (mio w) = EOF ->
  c <> EOF ->
  1 <= mem.pos (mio w) <= mem.size (mio w) ->
  mem.size (mio w) < G_MAXSIZE ->
  exists w',
    (mio_ungetc c ;; mio_putc d ;; mio_getc) w = Some (c, w') /\
    mem.pos (mio w') = mem.pos (mio w) + 1 /\
    mem.size (mio w') = mem.size (mio w) /\
    nth_error (mem.buf (mio w')) (Z.to_nat (mem.pos (mio w) - 1))
    = Some (to_guchar d) /\
    mem.ungetch (mio w') = EOF.
Proof.
  intros [Hsz Hal Hmx] Hu Hc Hpos Hlt.
  unfold bind at 1. unfold mio_ungetc.
  unfold bind at 1, get at 1. rewrite Hu.
  destruct (Z.eqb_spec c EOF); [contradiction|].
  change (negb false && (EOF =? EOF)) with true. cbv iota.
  unfold bind, assign, ret. simpl.
  rewrite (to_gsize_id (mem.pos (mio w) - 1)) by (unfold is_gsize; lia).
  unfold mio_putc, try_ensure_space, bind, get, ret, access, assign.
  simpl.
  replace (mem.pos (mio w) - 1 + 1) with (mem.pos (mio w)) by lia.
  rewrite (to_gsize_id (mem.pos (mio w))) by (unfold is_gsize; lia).
  destruct (Z.gtb_spec (mem.pos (mio w)) (mem.size (mio w))); [lia|].
  simpl.
  assert (Hst : exists b, store (mem.buf (mio w)) (mem.pos (mio w) - 1)
                                (to_guchar d) = Some b).
  { unfold store. rewrite mem_write_ok; [eauto|lia|].
    change (blen [to_guchar d]) with 1. lia. }
  destruct Hst as (b & Hst). rewrite Hst.
  unfold mio_getc, bind, get, assign, ret. simpl.
  destruct (Z.eqb_spec c EOF); [contradiction|]. simpl.
  replace (mem.pos (mio w) - 1 + 1) with (mem.pos (mio w)) by lia.
  rewrite (to_gsize_id (mem.pos (mio w))) by (unfold is_gsize; lia).
  rewrite (to_gsize_id (mem.pos (mio w) + 1)) by (unfold is_gsize; lia).
  eexists. split; [reflexivity|]. cbn.
  split; [reflexivity|]. split; [reflexivity|].
  split; [exact (store_nth_same _ _ _ _ Hst)|reflexivity].
Qed.

(** At the end of a stream holding ["ab"]. *)
Lemma ungetc_putc_getc_witness :
  let w := mkWorld (mem.set_pos 2 (mio_new_memory [97; 98] 2 None None))
                   ENONE in
  exists w',
    (mio_ungetc 98 ;; mio_putc 120 ;; mio_getc) w = Some (98, w') /\
    mem.pos (mio w') = mem.pos (mio w) + 1 /\
    mem.size (mio w') = mem.size (mio w) /\
    nth_error (mem.buf (mio w')) (Z.to_nat (mem.pos (mio w) - 1))
    = Some (to_guchar 120) /\
    mem.ungetch (mio w') = EOF.
Proof.
  intros w. apply (ungetc_putc_getc w 98 120).
  - split; unfold blen, G_MAXSIZE; simpl; lia.
  - reflexivity.
  - discriminate.
  - simpl. lia.
  - unfold G_MAXSIZE. simpl. lia.
Defined.

(** X19: a stream made by [mio_new_memory] over a block gives the bytes of
    the block, in order, to calls of [mio_read] that ask for as many bytes
    in all, and to as many calls of [mio_getc]. *)
Theorem new_memory_reads_block
    (data : block) (realloc_func : option MIOReallocFunc)
    (free_func : option GDestroyNotify) (e : errno_t)
    (rs : list read_call) :
  blen data <= G_MAXSIZE ->
  Forall read_call_ok rs ->
  read_total rs = blen data ->
  let w := mkWorld (mio_new_memory data (blen data) realloc_func free_func)
                   e in
  (exists w', read_all rs w = Some (data, w')) /\
  (exists w', getc_n (length data) w = Some (data, w')).
Proof.
  intros Hmax Hrs Htot w. pose proof (blen_nonneg data) as Hn. split.
  - destruct (read_all_full rs w) as (w' & E); simpl;
      try assumption; try reflexivity; try lia.
    exists w'. rewrite E. simpl. rewrite Htot. unfold blen.
    rewrite Nat2Z.id, firstn_all. reflexivity.
  - rewrite getc_n_run; simpl; try reflexivity; try assumption;
      try (unfold blen in *; lia).
    eexists. rewrite firstn_all. reflexivity.
Qed.

Lemma new_memory_reads_block_witness :
  let w := mkWorld (mio_new_memory [1; 2; 3] (blen [1; 2; 3]) None None)
                   ENONE in
  (exists w',
     read_all [mkRead [0; 0] 2 1; mkRead [0] 1 1] w = Some ([1; 2; 3], w')) /\
  (exists w', getc_n (length [1; 2; 3]) w = Some ([1; 2; 3], w')).
Proof.
  apply (new_memory_reads_block [1; 2; 3] None None ENONE
           [mkRead [0; 0] 2 1; mkRead [0] 1 1]).
  - unfold blen, G_MAXSIZE. simpl. lia.
  - repeat constructor; unfold blen; simpl; lia.
  - reflexivity.
Defined.

(** ** Reading after a push-back *)

(** The first record of [mio_read] when a byte is pushed back and the data
    left holds the rest of the record: the block gets the byte and the
    [size - 1] bytes after the cursor's byte. *)
Lemma pushback_record (w : world) (ptr : block) (size : Z) :
  mem.ungetch (mio w) <> EOF ->
  0 <= mem.pos (mio w) ->
  0 < size -> size <= blen ptr ->
  mem.pos (mio w) + size <= mem.size (mio w) ->
  mem.size (mio w) <= blen (mem.buf (mio w)) ->
  mem.size (mio w) <= G_MAXSIZE ->
  exists p,
    (if negb (mem.ungetch (mio w) =? EOF) then
       p <- access (store ptr 0 (to_guchar (mem.ungetch (mio w)))) ;;
       assign (mem.set_ungetch EOF) ;;
       assign (mem.set_pos (to_gsize (mem.pos (mio w) + 1))) ;;
       m1 <- get ;;
       if size =? 1 then
         ret (1, p)
       else if to_gsize (mem.pos m1 + (size - 1)) <=? mem.size m1 then
         p' <- access (memcpy p 1 (mem.buf m1) (mem.pos m1) (size - 1)) ;;
         assign (mem.set_pos (to_gsize (mem.pos m1 + (size - 1)))) ;;
         ret (1, p')
       else ret (0, p)
     else ret (0, ptr)) w
    = Some ((1, p),
            mkWorld (mem.set_pos (mem.pos (mio w) + size)
                                 (mem.set_ungetch EOF (mio w)))
                    (errno w)) /\
    blen p = blen ptr /\
    firstn (Z.to_nat size) p
    = to_guchar (mem.ungetch (mio w))
      :: firstn (Z.to_nat (size - 1))
                (skipn (Z.to_nat (mem.pos (mio w) + 1)) (mem.buf (mio w))).
Proof.
  intros Hu Hpos Hsize Hptr Hroom Hbuf Hmax.
  destruct (Z.eqb_spec (mem.ungetch (mio w)) EOF); [contradiction|].
  simpl negb. cbv iota.
  set (c := to_guchar (mem.ungetch (mio w))).
  pose proof (mem_write_ok ptr 0 [c] ltac:(lia)
                ltac:(change (blen [c]) with 1; lia)) as Hst.
  unfold bind at 1, access at 1. unfold store. rewrite Hst.
  set (p := firstn _ ptr ++ [c] ++ skipn _ ptr) in *.
  pose proof (mem_write_len _ _ _ _ Hst) as Hlp.
  pose proof (mem_write_upto _ _ _ _ Hst) as Hp1.
  change (firstn 1 p = [c]) in Hp1.
  unfold bind at 1, assign at 1. unfold bind at 1, assign at 1.
  unfold bind at 1, get at 1. simpl.
  rewrite (to_gsize_id (mem.pos (mio w) + 1)) by (unfold is_gsize; lia).
  destruct (Z.eqb_spec size 1) as [->|Hs1].
  - exists p. unfold ret. simpl. split; [destruct w as [[] ?]; reflexivity|].
    split; [exact Hlp|exact Hp1].
  - replace (mem.pos (mio w) + 1 + (size - 1)) with (mem.pos (mio w) + size)
      by lia.
    rewrite (to_gsize_id (mem.pos (mio w) + size)) by (unfold is_gsize; lia).
    destruct (Z.leb_spec (mem.pos (mio w) + size) (mem.size (mio w)));
      [|lia].
    unfold memcpy.
    rewrite (mem_read_ok (mem.buf (mio w)) (mem.pos (mio w) + 1) (size - 1))
      by lia.
    set (chunk := firstn (Z.to_nat (size - 1))
                    (skipn (Z.to_nat (mem.pos (mio w) + 1))
                           (mem.buf (mio w)))).
    assert (Hchunk : blen chunk = size - 1).
    { unfold chunk, blen in *. rewrite length_firstn, length_skipn. lia. }
    pose proof (mem_write_ok p 1 chunk ltac:(lia) ltac:(lia)) as Hw.
    unfold bind at 1, access at 1. rewrite Hw.
    set (p' := firstn _ p ++ chunk ++ skipn _ p) in *.
    pose proof (mem_write_len _ _ _ _ Hw) as Hl1.
    pose proof (mem_write_upto _ _ _ _ Hw) as Hup.
    exists p'. unfold bind, assign, ret. simpl.
    split; [destruct w as [[] ?]; reflexivity|].
    split; [lia|].
    replace (Z.to_nat size) with (Z.to_nat 1 + length chunk)%nat
      by (unfold blen in Hchunk; lia).
    rewrite Hup. change (Z.to_nat 1) with 1%nat. rewrite Hp1. reflexivity.
Qed.

(** X20: [mio_read] with a byte pushed back and [size * nmemb] bytes left
    from the cursor reads all [nmemb] records.  The block starts with the
    pushed-back byte, as a [guchar], and goes on with the data after the byte
    at the cursor, which is not read; the cursor advances by [size * nmemb],
    the push-back is used up and the data is untouched. *)
Theorem mio_read_after_ungetc (w : world) (ptr : block) (size nmemb : Z) :
  mem.ungetch (mio w) <> EOF ->
  0 <= mem.pos (mio w) ->
  0 < size -> 0 < nmemb ->
  size * nmemb <= blen ptr ->
  mem.pos (mio w) + size * nmemb <= mem.size (mio w) ->
  mem.size (mio w) <= blen (mem.buf (mio w)) ->
  mem.size (mio w) <= G_MAXSIZE ->
  exists ptr' w',
    mio_read ptr size nmemb w = Some ((nmemb, ptr'), w') /\
    firstn (Z.to_nat (size * nmemb)) ptr'
    = to_guchar (mem.ungetch (mio w))
      :: firstn (Z.to_nat (size * nmemb - 1))
                (skipn (Z.to_nat (mem.pos (mio w) + 1)) (mem.buf (mio w))) /\
    mem.pos (mio w') = mem.pos (mio w) + size * nmemb /\
    mem.ungetch (mio w') = EOF /\
    same_data (mio w) (mio w').
Proof.
  intros Hu Hpos Hsize Hnmemb Hptr Hroom Hbuf Hmax.
  assert (Hmul : size <= size * nmemb) by nia.
  assert (Hrest : Z.of_nat (Z.to_nat (nmemb - 1)) * size
                  = size * nmemb - size)
    by (rewrite Z2Nat.id by lia; ring).
  assert (Hfull : (1 + Z.of_nat (Z.to_nat (nmemb - 1))) * size
                  = size * nmemb)
    by (rewrite Z2Nat.id by lia; ring).
  destruct (pushback_record w ptr size) as (p & E1 & Hlp & Hfirst1);
    try assumption; try lia.
  unfold mio_read.
  destruct (Z.eqb_spec size 0); [lia|]. destruct (Z.eqb_spec nmemb 0); [lia|].
  change (negb false && negb false) with true. cbv iota.
  unfold bind at 1, get at 1. unfold bind at 1. rewrite E1.
  destruct (read_records_full (Z.to_nat (nmemb - 1)) size Hsize 1 p
              (mkWorld (mem.set_pos (mem.pos (mio w) + size)
                                    (mem.set_ungetch EOF (mio w)))
                       (errno w)))
    as (ptr' & E2 & Hl & Hfirst2); try (simpl; lia);
    try (rewrite Hfull; lia).
  unfold bind at 1. rewrite E2. rewrite eof_update.
  replace (1 + Z.of_nat (Z.to_nat (nmemb - 1))) with nmemb in * by lia.
  do 2 eexists. split; [reflexivity|].
  split.
  - replace (size * nmemb) with (nmemb * size) by lia.
    rewrite Hfirst2. rewrite Z.mul_1_l, Hfirst1. simpl mio. simpl mem.pos.
    simpl mem.buf. simpl. f_equal.
    replace (Z.to_nat (nmemb * size - 1))
      with (Z.to_nat (size - 1) + Z.to_nat (Z.of_nat (Z.to_nat (nmemb - 1))
                                            * size))%nat by lia.
    rewrite firstn_add_skipn. f_equal. f_equal.
    rewrite skipn_skipn. f_equal. lia.
  - simpl. destruct (_ >=? _); simpl;
      (split; [lia|]); (split; [reflexivity|]); repeat split.
Qed.

(** Two records of 2 bytes read from ["abcde"] with [120] pushed back and
    the cursor at 0, as [mio_ungetc] at cursor 1 leaves them. *)
Lemma mio_read_after_ungetc_witness :
  let w := mkWorld (mem.set_ungetch 120
                      (mem.set_pos 0
                         (mio_new_memory [97; 98; 99; 100; 101] 5 None None)))
                   ENONE in
  exists ptr' w',
    mio_read [0; 0; 0; 0] 2 2 w = Some ((2, ptr'), w') /\
    firstn (Z.to_nat (2 * 2)) ptr'
    = to_guchar (mem.ungetch (mio w))
      :: firstn (Z.to_nat (2 * 2 - 1))
                (skipn (Z.to_nat (mem.pos (mio w) + 1)) (mem.buf (mio w))) /\
    mem.pos (mio w') = mem.pos (mio w) + 2 * 2 /\
    mem.ungetch (mio w') = EOF /\
    same_data (mio w) (mio w').
Proof.
  intros w. apply (mio_read_after_ungetc w [0; 0; 0; 0] 2 2).
  - discriminate.
  - simpl. lia.
  - lia.
  - lia.
  - unfold blen. simpl. lia.
  - simpl. lia.
  - unfold blen. simpl. lia.
  - unfold G_MAXSIZE. simpl. lia.
Defined.

(** ** Writes that need no allocation *)

(** X21: a write that fits in the room the stream has does not involve the
    allocator.  Within the size, [mio_write] stores the bytes in place and
    moves the cursor, on any stream; past the size and within the capacity,
    on a stream with a [realloc] callback, it does the same and makes the
    new cursor the size, whatever the callback would return; past the size
    on a stream without the callback it returns 0 and changes nothing. *)
Theorem mio_write_without_realloc
    (w : world) (ptr : block) (size nmemb : Z) :
  stream_ok (mio w) ->
  0 <= mem.pos (mio w) ->
  0 < size -> 0 < nmemb ->
  size * nmemb <= blen ptr ->
  mem.pos (mio w) + size * nmemb < G_MAXSIZE ->
  let n := size * nmemb in
  let data := firstn (Z.to_nat n) ptr in
  (mem.pos (mio w) + n <= mem.size (mio w) ->
   exists b',
     mem_write (mem.buf (mio w)) (mem.pos (mio w)) data = Some b' /\
     mio_write ptr size nmemb w
     = Some (nmemb,
             mkWorld (mem.set_pos (mem.pos (mio w) + n)
                        (mem.set_buf b' (mio w)))
                     (errno w))) /\
  (mem.size (mio w) < mem.pos (mio w) + n <= mem.allocated_size (mio w) ->
   mem.realloc_func (mio w) <> None ->
   exists b',
     mem_write (mem.buf (mio w)) (mem.pos (mio w)) data = Some b' /\
     mio_write ptr size nmemb w
     = Some (nmemb,
             mkWorld (mem.set_pos (mem.pos (mio w) + n)
                        (mem.set_buf b'
                           (mem.set_size (mem.pos (mio w) + n) (mio w))))
                     (errno w))) /\
  (mem.size (mio w) < mem.pos (mio w) + n ->
   mem.realloc_func (mio w) = None ->
   mio_write ptr size nmemb w = Some (0, w)).
Proof.
  intros [Hsz Hal Hmx] Hpos Hsize Hnmemb Hptr Hfit n data.
  assert (Hn : 0 < n) by (unfold n; nia).
  assert (Hdata : blen data = n).
  { unfold data, blen in *. rewrite length_firstn. lia. }
  assert (Hrd : mem_read ptr 0 n = Some data)
    by (rewrite mem_read_ok by lia; reflexivity).
  assert (Hgo : mio_write ptr size nmemb w
                = (ok <- try_ensure_space n ;;
                   if (ok : bool) then
                     m <- get ;;
                     b <- access (memcpy (mem.buf m) (mem.pos m) ptr 0 n) ;;
                     assign (mem.set_buf b) ;;
                     assign (mem.set_pos (to_gsize (mem.pos m + n))) ;;
                     ret nmemb
                   else ret 0) w).
  { unfold mio_write.
    destruct (Z.eqb_spec size 0); [lia|].
    destruct (Z.eqb_spec nmemb 0); [lia|].
    change (negb false && negb false) with true. cbv iota.
    fold n. rewrite (to_gsize_id n) by (unfold is_gsize; lia). reflexivity. }
  rewrite Hgo.
  assert (Hw : mem.pos (mio w) + n <= mem.allocated_size (mio w) ->
               mem_write (mem.buf (mio w)) (mem.pos (mio w)) data
               = Some (firstn (Z.to_nat (mem.pos (mio w))) (mem.buf (mio w))
                       ++ data
                       ++ skipn (Z.to_nat (mem.pos (mio w)) + length data)
                                (mem.buf (mio w))))
    by (intros; apply mem_write_ok; lia).
  split; [|split].
  - intros Hin.
    assert (Hte : try_ensure_space n w = Some (true, w)).
    { unfold try_ensure_space, bind, get, ret.
      rewrite (to_gsize_id (mem.pos (mio w) + n)) by (unfold is_gsize; lia).
      destruct (Z.gtb_spec (mem.pos (mio w) + n) (mem.size (mio w)));
        [lia|reflexivity]. }
    unfold bind at 1. rewrite Hte. eexists. split; [apply Hw; lia|].
    unfold bind, get, access, assign, ret, memcpy.
    rewrite Hrd. cbv beta iota. rewrite Hw by lia. simpl.
    rewrite (to_gsize_id (mem.pos (mio w) + n)) by (unfold is_gsize; lia).
    reflexivity.
  - intros Hin Hf.
    assert (Hte : try_ensure_space n w
                  = Some (true,
                          mkWorld (mem.set_size (mem.pos (mio w) + n) (mio w))
                                  (errno w))).
    { unfold try_ensure_space, try_resize, bind, get, ret, assign.
      rewrite (to_gsize_id (mem.pos (mio w) + n)) by (unfold is_gsize; lia).
      destruct (Z.gtb_spec (mem.pos (mio w) + n) (mem.size (mio w))); [|lia].
      destruct (mem.realloc_func (mio w)) as [f|]; [|contradiction].
      destruct (Z.eqb_spec (mem.pos (mio w) + n) G_MAXSIZE); [lia|].
      destruct (Z.gtb_spec (mem.pos (mio w) + n) (mem.size (mio w))); [|lia].
      destruct (Z.leb_spec (mem.pos (mio w) + n)
                           (mem.allocated_size (mio w))); [|lia].
      reflexivity. }
    unfold bind at 1. rewrite Hte. eexists. split; [apply Hw; lia|].
    unfold bind, get, access, assign, ret, memcpy.
    cbn [mio errno mem.buf mem.pos mem.set_size].
    rewrite Hrd. cbv beta iota. rewrite Hw by lia. simpl.
    rewrite (to_gsize_id (mem.pos (mio w) + n)) by (unfold is_gsize; lia).
    reflexivity.
  - intros Hout Hf.
    unfold bind at 1.
    rewrite (try_ensure_space_fixed n w Hf); [reflexivity|].
    rewrite (to_gsize_id (mem.pos (mio w) + n)) by (unfold is_gsize; lia).
    lia.
Qed.

(** A capacity of 4 bytes, a size of 2 and an allocator that always fails:
    at cursor 1, three bytes pass the size and fit in the capacity. *)
Lemma mio_write_without_realloc_witness :
  let w := mkWorld (mem.set_pos 1
                      (mem.set_size 2
                         (mio_new_memory [1; 2; 3; 4] 4
                            (Some (fun _ _ => None)) None)))
                   ENONE in
  let n := 3 * 1 in
  let data := firstn (Z.to_nat n) [7; 8; 9] in
  (mem.pos (mio w) + n <= mem.size (mio w) ->
   exists b',
     mem_write (mem.buf (mio w)) (mem.pos (mio w)) data = Some b' /\
     mio_write [7; 8; 9] 3 1 w
     = Some (1,
             mkWorld (mem.set_pos (mem.pos (mio w) + n)
                        (mem.set_buf b' (mio w)))
                     (errno w))) /\
  (mem.size (mio w) < mem.pos (mio w) + n <= mem.allocated_size (mio w) ->
   mem.realloc_func (mio w) <> None ->
   exists b',
     mem_write (mem.buf (mio w)) (mem.pos (mio w)) data = Some b' /\
     mio_write [7; 8; 9] 3 1 w
     = Some (1,
             mkWorld (mem.set_pos (mem.pos (mio w) + n)
                        (mem.set_buf b'
                           (mem.set_size (mem.pos (mio w) + n) (mio w))))
                     (errno w))) /\
  (mem.size (mio w) < mem.pos (mio w) + n ->
   mem.realloc_func (mio w) = None ->
   mio_write [7; 8; 9] 3 1 w = Some (0, w)).
Proof.
  intros w. apply (mio_write_without_realloc w [7; 8; 9] 3 1).
  - split; unfold blen, G_MAXSIZE; simpl; lia.
  - simpl. lia.
  - lia.
  - lia.
  - unfold blen. simpl. lia.
  - unfold G_MAXSIZE. simpl. lia.
Defined.

(** ** Dropping a pushed-back byte *)

(** X22: [mio_rewind] does what [mio_seek] to offset 0 from the start
    followed by [mio_clearerr] does: the same stream results, with the
    cursor at 0, no byte pushed back and both flags clear, and [errno] is
    not touched. *)
Theorem rewind_is_seek_clearerr (w : world) :
  0 <= mem.size (mio w) ->
  mio_rewind w = ((mio_seek 0 SEEK_SET ;; ret tt) ;; mio_clearerr) w /\
  exists w',
    mio_rewind w = Some (tt, w') /\
    mem.pos (mio w') = 0 /\ mem.ungetch (mio w') = EOF /\
    mem.eof (mio w') = false /\ mem.error (mio w') = false /\
    errno w' = errno w /\ same_data (mio w) (mio w').
Proof.
  intros Hsize. split.
  - unfold mio_rewind, mio_seek, mio_clearerr, bind, get, assign, ret. simpl.
    change (to_gsize 0) with 0.
    destruct (Z.gtb_spec 0 (mem.size (mio w))); [lia|]. simpl.
    destruct w as [[] ?]. reflexivity.
  - eexists. split; [reflexivity|]. simpl. repeat split.
Qed.

Lemma rewind_is_seek_clearerr_witness :
  let w := mkWorld (mem.set_error true
                      (mem.set_ungetch 97
                         (mem.set_pos 2
                            (mio_new_memory [1; 2; 3] 3 None None))))
                   EINVAL in
  mio_rewind w = ((mio_seek 0 SEEK_SET ;; ret tt) ;; mio_clearerr) w /\
  exists w',
    mio_rewind w = Some (tt, w') /\
    mem.pos (mio w') = 0 /\ mem.ungetch (mio w') = EOF /\
    mem.eof (mio w') = false /\ mem.error (mio w') = false /\
    errno w' = errno w /\ same_data (mio w) (mio w').
Proof.
  intros w. apply (rewind_is_seek_clearerr w). simpl. lia.
Defined.

(** X23: a seek drops the pushed-back byte and does not put the cursor
    back.  After [mio_ungetc (c)] with the cursor within the data and not at
    its start, [mio_seek] by 0 from the current position succeeds, and the
    [mio_getc] that follows returns the byte stored before the old cursor,
    not [c]; the cursor is then where it was before the three calls. *)
Theorem seek_drops_pushback (w : world) (c : Z) :
  stream_ok (mio w) ->
  mem.ungetch (mio w) = EOF ->
  c <> EOF ->
  1 <= mem.pos (mio w) <= mem.size (mio w) ->
  exists x w',
    (mio_ungetc c ;; mio_seek 0 SEEK_CUR ;; mio_getc) w = Some (x, w') /\
    nth_error (mem.buf (mio w)) (Z.to_nat (mem.pos (mio w) - 1)) = Some x /\
    mem.pos (mio w') = mem.pos (mio w) /\
    mem.ungetch (mio w') = EOF /\
    same_data (mio w) (mio w').
Proof.
  intros [Hsz Hal Hmx] Hu Hc Hpos.
  destruct (load_ok (mem.buf (mio w)) (mem.pos (mio w) - 1) ltac:(lia))
    as (x & Hx & Hxn).
  exists x.
  unfold bind at 1. unfold mio_ungetc.
  unfold bind at 1, get at 1. rewrite Hu.
  destruct (Z.eqb_spec c EOF); [contradiction|].
  change (negb false && (EOF =? EOF)) with true. cbv iota.
  unfold bind, assign, ret. simpl.
  rewrite (to_gsize_id (mem.pos (mio w) - 1)) by (unfold is_gsize; lia).
  unfold mio_seek, bind, get, assign, ret, set_errno. simpl.
  rewrite Z.add_0_r.
  rewrite (to_gsize_id (mem.pos (mio w) - 1)) by (unfold is_gsize; lia).
  destruct (Z.gtb_spec (mem.pos (mio w) - 1) (mem.size (mio w))); [lia|].
  simpl.
  rewrite (mio_getc_at _ x); simpl; try reflexivity; try lia;
    try assumption.
  eexists. split; [reflexivity|]. simpl.
  split; [exact Hxn|].
  split; [rewrite to_gsize_id by (unfold is_gsize; lia); lia|].
  repeat split.
Qed.

Lemma seek_drops_pushback_witness :
  let w := mkWorld (mem.set_pos 2 (mio_new_memory [97; 98; 99] 3 None None))
                   ENONE in
  exists x w',
    (mio_ungetc 120 ;; mio_seek 0 SEEK_CUR ;; mio_getc) w = Some (x, w') /\
    nth_error (mem.buf (mio w)) (Z.to_nat (mem.pos (mio w) - 1)) = Some x /\
    mem.pos (mio w') = mem.pos (mio w) /\
    mem.ungetch (mio w') = EOF /\
    same_data (mio w) (mio w').
Proof.
  intros w. apply (seek_drops_pushback w 120).
  - split; unfold blen, G_MAXSIZE; simpl; lia.
  - reflexivity.
  - discriminate.
  - simpl. lia.
Defined.
